(** * GWpy: metadata-carrying arrays and spectrogram stitching

    A shallow embedding of [gwpy/data/array.py], [gwpy/data/array2d.py],
    [gwpy/spectrogram/core.py] and [gwpy/spectrum/psd.py].

    Python objects live in a store and are passed by reference, so the
    methods are written in a state-and-exception monad over that store.
    An array object carries its class, its element type, whether it owns
    its memory, its shape, its elements and its [metadata] dict; for every
    [Quantity] in the dict it also carries the identity of that object,
    because a shallow copy of the dict shares the quantities with the
    original and an in-place operation on one of them shows in both.
    Floating-point numbers are idealised as rationals ([Q]); Python's [==]
    on numbers is [Qeq_bool]; [int64] elements are integers with
    wrap-around.  The unit algebra (astropy), the scalar power function
    (numpy) and the parser of [float] are external collaborators and are
    taken as interfaces. *)

From Stdlib Require Import QArith Qround Qpower.
From stdpp Require Import gmap strings list fin_maps.

Local Open Scope string_scope.

(** ** External collaborators *)

(** What the [Unit(...)] constructor of astropy is applied to. *)
Inductive unit_arg :=
| UText (s : string)
| UNumber (x : Q).

(** astropy's unit facility: [Unit(...)], [==], [**], [/], conversion. *)
Class UnitAlgebra := {
  Unit : Type;
  Unit_eq_dec :: EqDecision Unit;
  dimensionless : Unit;
  second : Unit;
  hertz : Unit;
  Unit_new : unit_arg -> option Unit;
  unit_pow : Unit -> Q -> Unit;
  unit_div : Unit -> Unit -> Unit;
  unit_convert : Unit -> Unit -> option Q;
  Unit_new_empty : Unit_new (UText "") = Some dimensionless
}.

(** numpy's scalar power on floating-point numbers, applied elementwise
    by [ndarray.__pow__].  For an integral exponent it is the repeated
    product, or its inverse for a base that is not zero; the rounding of
    the floating-point result is dropped by the idealisation. *)
Class NumpyPower := {
  float_power : Q -> Q -> Q;
  float_power_integral : forall (x : Q) (n : Z),
    (0 <= n)%Z \/ ~ (x == 0)%Q ->
    (float_power x (inject_Z n) == x ^ n)%Q
}.

(** Python's built-in [float] applied to text: the number that the text
    denotes, [None] where [float] raises [ValueError]. *)
Class PythonFloat := {
  float_of_text : string -> option Q
}.

(** A Python number as an operand: an [int] or a [float]. *)
Inductive pynumber :=
| PInt (n : Z)
| PFloat (x : Q).

Definition number_value (y : pynumber) : Q :=
  match y with
  | PInt n => inject_Z n
  | PFloat x => x
  end.

(** The element types of the arrays of the model. *)
Inductive npdtype := int64 | float64.

(** ** Python values, exceptions and the object store *)

Section Model.
Context {U : UnitAlgebra} {NP : NumpyPower} {PF : PythonFloat}.

(** Values that appear in a metadata dict or as attribute results. *)
Inductive pyval :=
| VNone
| VStr (s : string)
| VBool (b : bool)
| VFloat (x : Q)
| VUnit (u : Unit)
| VQuantity (x : Q) (u : Unit)
| VTime (gps : Q)
| VChannel (name : string).

Inductive exn :=
| KeyError (key : string)
| ValueError (msg : string)
| TypeError (msg : string)
| AttributeError (msg : string)
| IndexError (msg : string)
| UnitsError
| ZeroDivisionError
| OverflowError (msg : string)
| ImportError (msg : string)
| RuntimeError (msg : string)
| SystemError (msg : string).

Inductive outcome (A : Type) :=
| Returns (a : A)
| Raises (e : exn).
Global Arguments Returns {A} a.
Global Arguments Raises {A} e.

(** The classes whose instances the model builds. *)
Inductive klass := KArray | KArray2D | KSpectrogram | KSpectrum | KTimeSeries.

(** Class attributes [xunit] and [yunit]. *)
Definition xunit (c : klass) : Unit :=
  match c with
  | KSpectrogram | KTimeSeries => second
  | KSpectrum => hertz
  | KArray | KArray2D => dimensionless
  end.

Definition yunit (c : klass) : Unit :=
  match c with
  | KSpectrogram => hertz
  | KArray | KArray2D | KSpectrum | KTimeSeries => dimensionless
  end.

(** An [Array] instance: its class; the ndarray part, that is the element
    type, the flag [OWNDATA] (false for a view of the memory of another
    array), the shape and the elements in C order; and its own [metadata]
    dict.  [quantity_id] gives, for each key under which the dict holds a
    [Quantity], the identity of that object (Python's [id]): two entries
    with the same identity are one object. *)
Record ndobj := {
  cls : klass;
  dtype : npdtype;
  owndata : bool;
  shape : list nat;
  buf : list Q;
  metadata : gmap string pyval;
  quantity_id : gmap string nat
}.

(** The object [o] with [metadata[key] = val], for a value without an
    identity of its own (text, a number, a flag, a unit). *)
Definition with_metadata (o : ndobj) (key : string) (val : pyval) : ndobj :=
  {| cls := cls o; dtype := dtype o; owndata := owndata o;
     shape := shape o; buf := buf o;
     metadata := <[key := val]> (metadata o);
     quantity_id := delete key (quantity_id o) |}.

(** The object [o] with [metadata[key]] the [Quantity] object number [i],
    of value [x] in the unit [u]. *)
Definition with_quantity (o : ndobj) (key : string) (x : Q) (u : Unit)
    (i : nat) : ndobj :=
  {| cls := cls o; dtype := dtype o; owndata := owndata o;
     shape := shape o; buf := buf o;
     metadata := <[key := VQuantity x u]> (metadata o);
     quantity_id := <[key := i]> (quantity_id o) |}.

(** The object [o] after [del metadata[key]]. *)
Definition without_metadata (o : ndobj) (key : string) : ndobj :=
  {| cls := cls o; dtype := dtype o; owndata := owndata o;
     shape := shape o; buf := buf o;
     metadata := delete key (metadata o);
     quantity_id := delete key (quantity_id o) |}.

(** The object [o] with another shape and other elements. *)
Definition with_array (o : ndobj) (s : list nat) (b : list Q) : ndobj :=
  {| cls := cls o; dtype := dtype o; owndata := owndata o;
     shape := s; buf := b;
     metadata := metadata o; quantity_id := quantity_id o |}.

(** A new object of the class of [o] that is a view of other memory, as
    [__array_finalize__] and [__array_wrap__] leave it: it does not own
    its data, and its metadata dict is a shallow copy of the dict of [o],
    which holds the same [Quantity] objects. *)
Definition view_as (o : ndobj) (d : npdtype) (s : list nat) (b : list Q)
  : ndobj :=
  {| cls := cls o; dtype := d; owndata := false;
     shape := s; buf := b;
     metadata := metadata o; quantity_id := quantity_id o |}.

(** What [Array.copy] builds from [o]: an array with memory of its own
    and a deep copy of the metadata dict, whose quantities are new
    objects, numbered from [i]. *)
Definition copy_as (o : ndobj) (i : nat) : ndobj :=
  {| cls := cls o; dtype := dtype o; owndata := true;
     shape := shape o; buf := buf o;
     metadata := metadata o;
     quantity_id := (fun j : nat => (i + j)%nat) <$> quantity_id o |}.

(** The object [o] after the [Quantity] object number [i] has been given
    the value [v] in place: every entry that holds this object shows [v]. *)
Definition assign_quantity (i : nat) (v : pyval) (o : ndobj) : ndobj :=
  {| cls := cls o; dtype := dtype o; owndata := owndata o;
     shape := shape o; buf := buf o;
     metadata :=
       map_imap (fun k w =>
                   Some (if decide (quantity_id o !! k = Some i) then v
                         else w))
                (metadata o);
     quantity_id := quantity_id o |}.

(** References are positions in the store, which only grows. *)
Abbreviation loc := nat (only parsing).
Abbreviation heap := (list ndobj) (only parsing).

(** An identity that no [Quantity] of the store has. *)
Definition max_quantity_id (o : ndobj) : nat :=
  max_list (snd <$> map_to_list (quantity_id o)).

Definition fresh_id (h : heap) : nat :=
  S (max_list (max_quantity_id <$> h)).

Definition M (A : Type) : Type := heap -> heap * outcome A.

Definition ret {A} (a : A) : M A := fun h => (h, Returns a).

Definition bind {A B} (m : M A) (k : A -> M B) : M B :=
  fun h =>
    match m h with
    | (h', Returns a) => k a h'
    | (h', Raises e) => (h', Raises e)
    end.

Definition raise {A} (e : exn) : M A := fun h => (h, Raises e).

Definition lift {A} (r : outcome A) : M A := fun h => (h, r).

(** [try: m except KeyError: handler] *)
Definition except_KeyError {A} (m : M A) (handler : M A) : M A :=
  fun h =>
    match m h with
    | (h', Raises (KeyError _)) => handler h'
    | r => r
    end.

Definition deref (l : loc) : M ndobj :=
  fun h =>
    match h !! l with
    | Some o => (h, Returns o)
    | None => (h, Raises (SystemError "dangling reference"))
    end.

Definition store (l : loc) (o : ndobj) : M unit :=
  fun h => (<[l := o]> h, Returns tt).

Definition alloc (o : ndobj) : M loc :=
  fun h => ((h ++ [o])%list, Returns (length h)).

(** The identity that the next new [Quantity] gets. *)
Definition fresh : M nat := fun h => (h, Returns (fresh_id h)).

End Model.

Abbreviation loc := nat (only parsing).
Abbreviation heap := (list ndobj) (only parsing).

Notation "x <- m ;; k" := (bind m (fun x => k))
  (at level 100, m at next level, right associativity).
Notation "m ;;; k" := (bind m (fun _ => k))
  (at level 100, right associativity).

(** ** [gwpy/data/array.py]: the [Array] properties *)

Section ArrayModel.
Context {U : UnitAlgebra} {NP : NumpyPower} {PF : PythonFloat}.

(** [self.metadata[key]] *)
Definition metadata_getitem (self : loc) (key : string) : M pyval :=
  o <- deref self ;;
  match metadata o !! key with
  | Some v => ret v
  | None => raise (KeyError key)
  end.

(** [self.metadata[key] = val] for a value without identity. *)
Definition metadata_setitem (self : loc) (key : string) (val : pyval) : M unit :=
  o <- deref self ;;
  store self (with_metadata o key val).

(** [self.metadata[key] = q] for a [Quantity] [q] that was just built:
    a new object. *)
Definition quantity_setitem (self : loc) (key : string) (x : Q) (u : Unit)
  : M unit :=
  o <- deref self ;;
  i <- fresh ;;
  store self (with_quantity o key x u i).

(** [del self.metadata[key]] *)
Definition metadata_delitem (self : loc) (key : string) : M unit :=
  o <- deref self ;;
  match metadata o !! key with
  | Some _ => store self (without_metadata o key)
  | None => raise (KeyError key)
  end.

(** The effect of [q += ...] and [q *= ...] on the object [q] held under
    [key], whose new value is [v].  A [Quantity] is an array and is
    updated in place, so the new value shows in every metadata dict that
    holds this object; a plain number is immutable and nothing is
    updated. *)
Definition quantity_inplace (self : loc) (key : string) (v : pyval) : M unit :=
  o <- deref self ;;
  match metadata o !! key, quantity_id o !! key with
  | Some (VQuantity _ _), Some i =>
      fun h => (assign_quantity i v <$> h, Returns tt)
  | Some (VQuantity _ _), None =>
      raise (SystemError "Quantity without identity")
  | _, _ => ret tt
  end.

(** [Array.name] getter. *)
Definition Array_name (self : loc) : M pyval :=
  except_KeyError (metadata_getitem self "name") (ret VNone).

(** [Array.unit] setter. *)
Definition Array_unit_set (self : loc) (val : pyval) : M unit :=
  match val with
  | VNone | VUnit _ => metadata_setitem self "unit" val
  | VStr s =>
      match Unit_new (UText s) with
      | Some u => metadata_setitem self "unit" (VUnit u)
      | None => raise (ValueError "unit could not be parsed")
      end
  | VFloat x =>
      match Unit_new (UNumber x) with
      | Some u => metadata_setitem self "unit" (VUnit u)
      | None => raise (ValueError "unit could not be parsed")
      end
  | _ => raise (TypeError "object cannot be converted to a Unit")
  end.

(** [Array.unit] getter.  The handler ends in [return self.unit], the same
    getter again; it is unfolded once more here, and the key is present by
    then (see [Array_unit_total]). *)
Definition Array_unit (self : loc) : M pyval :=
  except_KeyError (metadata_getitem self "unit")
    (Array_unit_set self (VStr "") ;;;
     except_KeyError (metadata_getitem self "unit")
       (raise (RuntimeError "maximum recursion depth exceeded"))).

(** [Time(v, format='gps').gps] for the values that [Time] accepts. *)
Definition Time_gps (v : pyval) : option Q :=
  match v with
  | VFloat x | VTime x => Some x
  | _ => None
  end.

(** [Array.epoch] getter: [Time(self.metadata['epoch'], format='gps')]. *)
Definition Array_epoch (self : loc) : M pyval :=
  except_KeyError
    (v <- metadata_getitem self "epoch" ;;
     match Time_gps v with
     | Some x => ret (VTime x)
     | None => raise (TypeError "Time: input is not numeric")
     end)
    (ret VNone).

(** [Array.epoch] setter: [epoch.gps] of a [Time], [epoch.value] of a
    [Quantity], [float(epoch)] of anything else. *)
Definition Array_epoch_set (self : loc) (epoch : pyval) : M unit :=
  match epoch with
  | VTime gps => metadata_setitem self "epoch" (VFloat gps)
  | VQuantity x _ => metadata_setitem self "epoch" (VFloat x)
  | VFloat x => metadata_setitem self "epoch" (VFloat x)
  | VBool b => metadata_setitem self "epoch" (VFloat (if b then 1 else 0))
  | VStr s =>
      match float_of_text s with
      | Some x => metadata_setitem self "epoch" (VFloat x)
      | None => raise (ValueError "could not convert string to float")
      end
  | _ => raise (TypeError "float() argument must be a string or a number")
  end.

(** [Array.channel] getter. *)
Definition Array_channel (self : loc) : M pyval :=
  except_KeyError (metadata_getitem self "channel") (ret VNone).

(** ** Quantities *)

(** [Quantity(x, u).to(v)]: unchanged when the units are the same unit,
    scaled by the conversion factor otherwise. *)
Definition quantity_to (x : Q) (u v : Unit) : option Q :=
  if decide (u = v) then Some x
  else match unit_convert u v with
       | Some f => Some (x * f)%Q
       | None => None
       end.

(** Python's [==] on the values of the model. *)
Definition py_eq (a b : pyval) : bool :=
  match a, b with
  | VNone, VNone => true
  | VStr s, VStr t => bool_decide (s = t)
  | VBool x, VBool y => bool_decide (x = y)
  | VFloat x, VFloat y => Qeq_bool x y
  | VUnit u, VUnit v => bool_decide (u = v)
  | VQuantity x u, VQuantity y v =>
      match quantity_to y v u with
      | Some y' => Qeq_bool x y'
      | None => false
      end
  | VTime x, VTime y => Qeq_bool x y
  | VChannel s, VChannel t => bool_decide (s = t)
  | _, _ => false
  end.

(** [a + b] for an axis origin and an offset. *)
Definition py_add (a b : pyval) : M pyval :=
  match a, b with
  | VQuantity x u, VQuantity y v =>
      match quantity_to y v u with
      | Some y' => ret (VQuantity (x + y') u)
      | None => raise UnitsError
      end
  | VFloat x, VFloat y => ret (VFloat (x + y))
  | _, _ => raise (TypeError "unsupported operand type(s) for +")
  end.

(** [n * b] for an integer [n]. *)
Definition py_mul_int (n : Z) (b : pyval) : M pyval :=
  match b with
  | VQuantity y v => ret (VQuantity (inject_Z n * y) v)
  | VFloat y => ret (VFloat (inject_Z n * y))
  | _ => raise (TypeError "unsupported operand type(s) for *")
  end.

End ArrayModel.

(** ** The ndarray operations used by the methods *)

Section Ndarray.
Context {U : UnitAlgebra} {NP : NumpyPower} {PF : PythonFloat}.

(** Number of elements for a shape. *)
Definition shape_size (s : list nat) : nat := foldr Nat.mul 1%nat s.

(** The elements after [ndarray.resize(s)]: the flat buffer, truncated or
    extended with zeros to the new element count. *)
Definition resize_buf (b : list Q) (s : list nat) : list Q :=
  take (shape_size s) (b ++ replicate (shape_size s - length b) 0%Q)%list.

(** Split a flat buffer into [n] consecutive chunks of [sz] elements. *)
Fixpoint chunks (n sz : nat) (b : list Q) : list (list Q) :=
  match n with
  | O => []
  | S n' => take sz b :: chunks n' sz (drop sz b)
  end.

(** Broadcast a source with shape [ss] and buffer [b] to the target shape
    [ts] of the same rank: each source length equals the target length or
    is one. *)
Fixpoint broadcast (ss ts : list nat) (b : list Q) : option (list Q) :=
  match ss, ts with
  | [], [] => Some b
  | s :: ss', t :: ts' =>
      if decide (s = t) then
        (fun l => concat l) <$> mapM (broadcast ss' ts') (chunks s (shape_size ss') b)
      else if decide (s = 1%nat) then
        r ← broadcast ss' ts' b; Some (concat (replicate t r))
      else None
  | _, _ => None
  end.

(** Align the ranks as numpy does for an assignment: missing leading
    source axes count as length one, surplus leading axes of length one are
    dropped. *)
Fixpoint align_rank (fuel : nat) (ss : list nat) (rank : nat) : list nat :=
  match fuel with
  | O => ss
  | S fuel' =>
      if decide (length ss < rank)%nat then align_rank fuel' (1%nat :: ss) rank
      else if decide (rank < length ss)%nat then
        match ss with
        | 1%nat :: ss' => align_rank fuel' ss' rank
        | _ => ss
        end
      else ss
  end.

Definition broadcast_to (ss : list nat) (b : list Q) (ts : list nat)
  : option (list Q) :=
  broadcast (align_rank (length ss + length ts) ss (length ts)) ts b.

(** [slice(start, stop, step).indices(n)], after CPython: the normalised
    start, stop and step; [None] when the step is zero. *)
Definition slice_indices (start stop step : option Z) (n : Z)
  : option (Z * Z * Z) :=
  let st := default 1%Z step in
  if decide (st = 0)%Z then None
  else
    let lower := if decide (st < 0)%Z then (-1)%Z else 0%Z in
    let upper := if decide (st < 0)%Z then (n - 1)%Z else n in
    let clamp (i : Z) :=
      if decide (i < 0)%Z then Z.max (i + n) lower else Z.min i upper in
    let start' :=
      match start with
      | None => if decide (st < 0)%Z then upper else lower
      | Some i => clamp i
      end in
    let stop' :=
      match stop with
      | None => if decide (st < 0)%Z then lower else upper
      | Some i => clamp i
      end in
    Some (start', stop', st).

(** Number of indices visited by [range(start, stop, step)]. *)
Definition range_length (start stop step : Z) : nat :=
  if decide (0 < step)%Z then
    Z.to_nat ((stop - start + step - 1) / step)
  else
    Z.to_nat ((start - stop - step - 1) / (- step)).

(** The row indices selected by a normalised slice. *)
Definition range_list (start stop step : Z) : list nat :=
  (fun i : nat => Z.to_nat (start + Z.of_nat i * step)) <$>
    seq 0 (range_length start stop step).

(** Row [i] of a buffer whose rows have [sz] elements. *)
Definition row (sz : nat) (b : list Q) (i : nat) : list Q :=
  take sz (drop (i * sz) b).

(** Overwrite the rows [lo, hi) of a buffer whose rows have [sz] elements. *)
Definition write_rows (sz lo hi : nat) (b src : list Q) : list Q :=
  (take (lo * sz) b ++ src ++ drop (hi * sz) b)%list.

(** [int(x)] and the conversion of a float to an integer type: truncation
    towards zero. *)
Definition py_int (x : Q) : Z := Z.quot (Qnum x) (Z.pos (Qden x)).

Definition int64_min : Z := (- 2 ^ 63)%Z.
Definition int64_max : Z := (2 ^ 63 - 1)%Z.

(** Two's-complement reduction to the range of [int64]. *)
Definition wrap64 (z : Z) : Z := ((z + 2 ^ 63) mod 2 ^ 64 - 2 ^ 63)%Z.

(** The conversion of an element that numpy applies when it is stored in
    an array of type [d] (an assignment casts without checking).  A float
    that is stored as [float64] stays; stored as [int64] it is truncated,
    and out of range the C conversion gives the least [int64] on x86-64. *)
Definition cast (d : npdtype) (x : Q) : Q :=
  match d with
  | float64 => x
  | int64 =>
      let z := py_int x in
      inject_Z (if decide (int64_min <= z <= int64_max)%Z then z
                else int64_min)
  end.

(** [numpy.power(a, y)] for an array of type [d] with elements [b] and a
    Python number [y]: the type and the elements of the result.  An
    integer array with an integer exponent stays an integer array, with
    wrap-around, and refuses a negative exponent; every other combination
    is computed in floating point. *)
Definition ndarray_power (d : npdtype) (b : list Q) (y : pynumber)
  : outcome (npdtype * list Q) :=
  match d, y with
  | int64, PInt n =>
      if decide (int64_min <= n <= int64_max)%Z then
        if decide (n < 0)%Z then
          Raises (ValueError
                    "Integers to negative integer powers are not allowed.")
        else
          Returns (int64,
                   (fun x => inject_Z (wrap64 (py_int x ^ n))) <$> b)
      else Raises (OverflowError "Python integer out of bounds for int64")
  | _, _ =>
      Returns (float64, (fun x => float_power x (number_value y)) <$> b)
  end.

End Ndarray.

(** ** [gwpy/data/array.py]: methods that build new arrays *)

Section ArrayMethods.
Context {U : UnitAlgebra} {NP : NumpyPower} {PF : PythonFloat}.

(** [Array.copy]: [ndarray.copy] gives a new array that owns its
    memory, and the metadata are replaced by [copy.deepcopy] of the
    metadata of [self]. *)
Definition Array_copy (self : loc) : M loc :=
  o <- deref self ;;
  i <- fresh ;;
  alloc (copy_as o i).

(** [Array.__pow__(y, z)].  numpy computes the elementwise power in a
    new array and wraps it through [__array_wrap__], a view of the class
    of [self] whose metadata dict is a shallow copy of the dict of
    [self]; the unit of the result is then set to [self.unit ** y].  When
    a modulus [z] is given, [ndarray.__pow__] returns [NotImplemented],
    and the assignment of its [unit] fails once [self.unit ** y] has been
    evaluated. *)
Definition Array_pow (self : loc) (y : pynumber) (z : option pynumber)
  : M loc :=
  match z with
  | Some _ =>
      u <- Array_unit self ;;
      match u with
      | VUnit _ =>
          raise (AttributeError
                   "'NotImplementedType' object has no attribute 'unit'")
      | _ => raise (AttributeError "object has no attribute '__pow__'")
      end
  | None =>
      o <- deref self ;;
      r <- lift (ndarray_power (dtype o) (buf o) y) ;;
      new <- alloc (view_as o (fst r) (shape o) (snd r)) ;;
      u <- Array_unit self ;;
      match u with
      | VUnit u =>
          Array_unit_set new (VUnit (unit_pow u (number_value y))) ;;;
          ret new
      | _ => raise (AttributeError "object has no attribute '__pow__'")
      end
  end.

(** [Array.__ipow__(y)]: numpy computes the power with [self] as the
    output array, which refuses a floating-point result for an integer
    array; then [self.unit **= y] reads the unit, raises it and assigns
    it back. *)
Definition Array_ipow (self : loc) (y : pynumber) : M loc :=
  o <- deref self ;;
  r <- lift (ndarray_power (dtype o) (buf o) y) ;;
  match dtype o, fst r with
  | int64, float64 =>
      raise (TypeError "Cannot cast ufunc 'power' output to dtype('int64')")
  | _, _ =>
      store self (with_array o (shape o) (snd r)) ;;;
      u <- Array_unit self ;;
      match u with
      | VUnit u =>
          Array_unit_set self (VUnit (unit_pow u (number_value y))) ;;;
          ret self
      | _ => raise (TypeError "unsupported operand type(s) for ** or pow()")
      end
  end.

End ArrayMethods.

(** ** [gwpy/data/array2d.py] *)

(** A Python [slice] object with integer or absent fields. *)
Record pyslice := {
  slice_start : option Z;
  slice_stop : option Z;
  slice_step : option Z
}.

Section Array2DModel.
Context {U : UnitAlgebra} {NP : NumpyPower} {PF : PythonFloat}.

(** Modelled from the spec: [Segment], the half-open interval record of
    [gwpy/segments], kept as the pair of its two ends. *)
Definition Segment : Type := pyval * pyval.

(** The four axis setters share one body: a [Quantity] is converted to the
    axis unit, anything else is wrapped in it; either way the stored
    [Quantity] is a new object. *)
Definition axis_set (key : string) (axis_unit : klass -> Unit)
    (self : loc) (value : pyval) : M unit :=
  o <- deref self ;;
  match value with
  | VQuantity x u =>
      match quantity_to x u (axis_unit (cls o)) with
      | Some x' => quantity_setitem self key x' (axis_unit (cls o))
      | None => raise UnitsError
      end
  | VFloat x => quantity_setitem self key x (axis_unit (cls o))
  | _ => raise (TypeError "Quantity value must be numeric")
  end.

Definition Array2D_x0 (self : loc) : M pyval := metadata_getitem self "x0".
Definition Array2D_x0_set := axis_set "x0" xunit.
Definition Array2D_x0_del (self : loc) : M unit := metadata_delitem self "x0".

Definition Array2D_dx (self : loc) : M pyval := metadata_getitem self "dx".
Definition Array2D_dx_set := axis_set "dx" xunit.
Definition Array2D_dx_del (self : loc) : M unit := metadata_delitem self "dx".

Definition Array2D_y0 (self : loc) : M pyval := metadata_getitem self "y0".
Definition Array2D_y0_set := axis_set "y0" yunit.
Definition Array2D_y0_del (self : loc) : M unit := metadata_delitem self "y0".

Definition Array2D_dy (self : loc) : M pyval := metadata_getitem self "dy".
Definition Array2D_dy_set := axis_set "dy" yunit.
Definition Array2D_dy_del (self : loc) : M unit := metadata_delitem self "dy".

(** [self.shape[i]] *)
Definition shape_getitem (self : loc) (i : nat) : M nat :=
  o <- deref self ;;
  match shape o !! i with
  | Some n => ret n
  | None => raise (IndexError "tuple index out of range")
  end.

(** [Array2D.span_x]:
    [Segment(self.x0, self.x0 + self.shape[0] * self.dx)]. *)
Definition Array2D_span_x (self : loc) : M Segment :=
  lo <- Array2D_x0 self ;;
  x0 <- Array2D_x0 self ;;
  n <- shape_getitem self 0 ;;
  dx <- Array2D_dx self ;;
  w <- py_mul_int (Z.of_nat n) dx ;;
  hi <- py_add x0 w ;;
  ret (lo, hi).

(** [Array2D.span_y]:
    [Segment(self.y0, self.y0 + self.shape[1] * self.dy)]. *)
Definition Array2D_span_y (self : loc) : M Segment :=
  lo <- Array2D_y0 self ;;
  y0 <- Array2D_y0 self ;;
  n <- shape_getitem self 1 ;;
  dy <- Array2D_dy self ;;
  w <- py_mul_int (Z.of_nat n) dy ;;
  hi <- py_add y0 w ;;
  ret (lo, hi).

(** [ndarray.__getitem__] for a slice along the first axis: a view of the
    selected rows, finalised by [__array_finalize__], which gives it a
    shallow copy of the metadata dict. *)
Definition ndarray_getitem_slice (self : loc) (item : pyslice) : M loc :=
  o <- deref self ;;
  match shape o with
  | [] => raise (IndexError "too many indices for array")
  | n :: tl =>
      match slice_indices (slice_start item) (slice_stop item)
                          (slice_step item) (Z.of_nat n) with
      | None => raise (ValueError "slice step cannot be zero")
      | Some (a, b, s) =>
          let rows := range_list a b s in
          alloc (view_as o (dtype o) (length rows :: tl)
                         (concat (row (shape_size tl) (buf o) <$> rows)))
      end
  end.

(** Truth value of an optional integer field: absent and zero are false. *)
Definition truthy (i : option Z) : option Z :=
  match i with
  | Some z => if decide (z = 0)%Z then None else Some z
  | None => None
  end.

(** [Array2D.__getitem__] for [item] a slice:
    [new.x0 += new.x0 + item.start * self.dx] when [item.start] is true,
    [new.dx *= item.step] when [item.step] is true.  Each augmented
    assignment reads the attribute, updates the object it got in place,
    and hands it to the setter, which stores a converted copy. *)
Definition Array2D_getitem_slice (self : loc) (item : pyslice) : M loc :=
  new <- ndarray_getitem_slice self item ;;
  (match truthy (slice_start item) with
   | Some start =>
       old <- Array2D_x0 new ;;
       x0 <- Array2D_x0 new ;;
       dx <- Array2D_dx self ;;
       off <- py_mul_int start dx ;;
       rhs <- py_add x0 off ;;
       v <- py_add old rhs ;;
       quantity_inplace new "x0" v ;;;
       Array2D_x0_set new v
   | None => ret tt
   end) ;;;
  (match truthy (slice_step item) with
   | Some step =>
       old <- Array2D_dx new ;;
       v <- py_mul_int step old ;;
       quantity_inplace new "dx" v ;;;
       Array2D_dx_set new v
   | None => ret tt
   end) ;;;
  ret new.

(** Truth value of a value of the model. *)
Definition py_truthy (v : pyval) : bool :=
  match v with
  | VNone => false
  | VStr s => negb (bool_decide (s = ""))
  | VBool b => b
  | VFloat x | VQuantity x _ => negb (Qeq_bool x 0)
  | VUnit _ | VTime _ | VChannel _ => true
  end.

(** [Array2D.logx] setter.  The test reads [self.metdata], an attribute
    that no object has, as soon as [val] is true and the key is there;
    otherwise the flag is stored as a [bool]. *)
Definition Array2D_logx_set (self : loc) (val : pyval) : M unit :=
  o <- deref self ;;
  if py_truthy val && bool_decide (is_Some (metadata o !! "logx")) then
    raise (AttributeError "'Array2D' object has no attribute 'metdata'")
  else metadata_setitem self "logx" (VBool (py_truthy val)).

(** [Array2D.logx] getter: an unset flag is stored as [False] first.  The
    handler ends in [return self.logx], unfolded once as for the unit. *)
Definition Array2D_logx (self : loc) : M pyval :=
  except_KeyError (metadata_getitem self "logx")
    (Array2D_logx_set self (VBool false) ;;;
     except_KeyError (metadata_getitem self "logx")
       (raise (RuntimeError "maximum recursion depth exceeded"))).


End Array2DModel.

(** ** [gwpy/spectrogram/core.py] *)

Section SpectrogramModel.
Context {U : UnitAlgebra} {NP : NumpyPower} {PF : PythonFloat}.

(** [Spectrogram.f0] and [Spectrogram.df] are the [y0] and [dy]
    properties of [Array2D]. *)
Definition Spectrogram_f0 := Array2D_y0.
Definition Spectrogram_df := Array2D_dy.

(** Modelled from the spec: [TimeSeries.dt], the time step of the first
    axis, read and written as the axis step [dx] in the time unit. *)
Definition Spectrogram_dt := Array2D_dx.
Definition Spectrogram_dt_set := Array2D_dx_set.

(** Modelled from the spec: [TimeSeries.epoch], the GPS time of the first
    sample, with the getter and setter of [Array.epoch]. *)
Definition Spectrogram_epoch := Array_epoch.
Definition Spectrogram_epoch_set := Array_epoch_set.

(** [q.value] of a [Quantity]. *)
Definition quantity_value (q : pyval) : M Q :=
  match q with
  | VQuantity x _ => ret x
  | _ => raise (AttributeError "object has no attribute 'value'")
  end.

(** Modelled from the spec: [TimeSeries.span], the half-open GPS interval
    [epoch, epoch + N * dt) of the [N = shape[0]] samples. *)
Definition Spectrogram_span (self : loc) : M (Q * Q) :=
  e <- Spectrogram_epoch self ;;
  match e with
  | VTime gps =>
      n <- shape_getitem self 0 ;;
      dt <- Spectrogram_dt self ;;
      d <- quantity_value dt ;;
      ret (gps, gps + inject_Z (Z.of_nat n) * d)%Q
  | _ => raise (AttributeError "'NoneType' object has no attribute 'gps'")
  end.

(** [Spectrogram.is_compatible] *)
Definition Spectrogram_is_compatible (self other : loc) : M bool :=
  a <- Spectrogram_dt self ;;
  b <- Spectrogram_dt other ;;
  if negb (py_eq a b) then
    raise (ValueError "Spectrogram time resolutions do not match.")
  else
  a <- Spectrogram_df self ;;
  b <- Spectrogram_df other ;;
  if negb (py_eq a b) then
    raise (ValueError "Spectrogram frequency resolutios do not match.")
  else
  a <- Spectrogram_f0 self ;;
  b <- Spectrogram_f0 other ;;
  if negb (py_eq a b) then
    raise (ValueError "Spectrogram starting frequencies do not match.")
  else
  a <- Array_unit self ;;
  b <- Array_unit other ;;
  if negb (py_eq a b) then
    raise (ValueError "Spectrogram units do not match")
  else ret true.

(** [Spectrogram.is_contiguous] *)
Definition Spectrogram_is_contiguous (self other : loc) : M Z :=
  Spectrogram_is_compatible self other ;;;
  s <- Spectrogram_span self ;;
  o <- Spectrogram_span other ;;
  if Qeq_bool (snd s) (fst o) then ret 1%Z
  else
    o <- Spectrogram_span other ;;
    s <- Spectrogram_span self ;;
    if Qeq_bool (snd o) (fst s) then ret (-1)%Z
    else ret 0%Z.

(** [s = list(self.shape); s[0] = n] *)
Definition shape_with_rows (self : loc) (n : nat) : M (list nat) :=
  o <- deref self ;;
  match shape o with
  | [] => raise (IndexError "list assignment index out of range")
  | _ :: tl => ret (n :: tl)
  end.

(** [numpy.zeros(s).view(cls)]: a view of a new array of floats;
    [__array_finalize__] finds no metadata on the plain ndarray and starts
    from an empty dict. *)
Definition zeros_view (c : klass) (s : list nat) : M loc :=
  alloc {| cls := c; dtype := float64; owndata := false;
           shape := s; buf := replicate (shape_size s) 0%Q;
           metadata := ∅; quantity_id := ∅ |}.

(** [self.resize(s, refcheck=False)].  When the number of elements
    changes the memory is reallocated, which numpy refuses for an array
    that does not own its data; with the same number of elements only the
    shape is replaced. *)
Definition ndarray_resize (self : loc) (s : list nat) : M unit :=
  o <- deref self ;;
  if decide (shape_size s = shape_size (shape o)) then
    store self (with_array o s (resize_buf (buf o) s))
  else if owndata o then
    store self (with_array o s (resize_buf (buf o) s))
  else
    raise (ValueError "cannot resize this array: it does not own its data").

(** [self[start:stop] = src] for a source array given by shape and
    elements, which are converted to the element type of [self]. *)
Definition ndarray_setitem_rows (self : loc) (start stop : option Z)
    (sshape : list nat) (sbuf : list Q) : M unit :=
  o <- deref self ;;
  match shape o with
  | [] => raise (IndexError "too many indices for array")
  | n :: tl =>
      match slice_indices start stop None (Z.of_nat n) with
      | None => raise (ValueError "slice step cannot be zero")
      | Some (a, b, _) =>
          let lo := Z.to_nat a in
          let hi := Z.to_nat (Z.max a b) in
          match broadcast_to sshape sbuf ((hi - lo)%nat :: tl) with
          | Some src =>
              store self
                (with_array o (shape o)
                   (write_rows (shape_size tl) lo hi (buf o)
                               (cast (dtype o) <$> src)))
          | None => raise (ValueError "could not broadcast input array")
          end
      end
  end.

(** [self.data[:n]]: shape and contents of the first rows. *)
Definition ndarray_first_rows (self : loc) (n : nat) : M (list nat * list Q) :=
  o <- deref self ;;
  match shape o with
  | [] => raise (IndexError "too many indices for array")
  | m :: tl =>
      let k := Nat.min n m in
      ret (k :: tl, take (k * shape_size tl) (buf o))
  end.

(** [Spectrogram.append], the block [# fill gap]; [rec] is the method
    itself, called as [new.append(zeros, inplace=True)] on the zero
    block. *)
Definition append_fill_gap (rec : loc -> loc -> M loc)
    (new other : loc) (gap : string) : M unit :=
  c <- Spectrogram_is_contiguous new other ;;
  if decide (c <> 1%Z) then
    if decide (gap = "pad") then
      os <- Spectrogram_span other ;;
      ns <- Spectrogram_span new ;;
      dt <- Spectrogram_dt new ;;
      d <- quantity_value dt ;;
      if Qeq_bool d 0 then raise ZeroDivisionError
      else
      let ngap := ((fst os - snd ns) / d)%Q in
      if negb (Qle_bool 1 ngap) then
        raise (ValueError
                 "Cannot append Spectrogram that starts before this one.")
      else
      gapshape <- shape_with_rows new (Z.to_nat (py_int ngap)) ;;
      o <- deref new ;;
      zeros <- zeros_view (cls o) gapshape ;;
      ns <- Spectrogram_span new ;;
      Spectrogram_epoch_set zeros (VFloat (snd ns)) ;;;
      dt <- Spectrogram_dt new ;;
      Spectrogram_dt_set zeros dt ;;;
      rec new zeros ;;;
      ret tt
    else if decide (gap = "ignore") then ret tt
    else raise (ValueError "Cannot append discontiguous Spectrogram")
  else ret tt.

(** [Spectrogram.append], the block [# resize first]: grow [new] by the
    rows of [other] and copy them into the new rows. *)
Definition append_join (new other : loc) : M loc :=
  n0 <- shape_getitem new 0 ;;
  k <- shape_getitem other 0 ;;
  s <- shape_with_rows new (n0 + k) ;;
  ndarray_resize new s ;;;
  k <- shape_getitem other 0 ;;
  src <- deref other ;;
  ndarray_setitem_rows new (Some (- Z.of_nat k)%Z) None (shape src) (buf src) ;;;
  ret new.

(** The body of [Spectrogram.append]. *)
Definition Spectrogram_append_body (rec : loc -> loc -> M loc)
    (self other : loc) (gap : string) (inplace : bool) : M loc :=
  Spectrogram_is_compatible self other ;;;
  new <- (if inplace then ret self else Array_copy self) ;;
  append_fill_gap rec new other gap ;;;
  append_join new other.

(** The inner call uses the default [gap='raise'], for which the body
    never calls the method again. *)
Definition Spectrogram_append_raise (self other : loc) : M loc :=
  Spectrogram_append_body
    (fun _ _ => raise (RuntimeError "maximum recursion depth exceeded"))
    self other "raise" true.

(** [Spectrogram.append(other, gap, inplace)] *)
Definition Spectrogram_append (self other : loc) (gap : string)
    (inplace : bool) : M loc :=
  Spectrogram_append_body Spectrogram_append_raise self other gap inplace.

(** [Spectrogram.prepend], the block [# fill gap]. *)
Definition prepend_fill_gap (rec : loc -> loc -> M loc)
    (new other : loc) (gap : string) : M unit :=
  c <- Spectrogram_is_contiguous new other ;;
  if decide (c <> (-1)%Z) then
    if decide (gap = "pad") then
      ns <- Spectrogram_span new ;;
      os <- Spectrogram_span other ;;
      dt <- Spectrogram_dt new ;;
      d <- quantity_value dt ;;
      if Qeq_bool d 0 then raise ZeroDivisionError
      else
      let ngap := py_int ((fst ns - snd os) / d)%Q in
      if decide (ngap < 1)%Z then
        raise (ValueError
                 "Cannot prepend Spectrogram that starts after this one.")
      else
      gapshape <- shape_with_rows new (Z.to_nat ngap) ;;
      o <- deref new ;;
      zeros <- zeros_view (cls o) gapshape ;;
      os <- Spectrogram_span other ;;
      Spectrogram_epoch_set zeros (VFloat (snd os)) ;;;
      dt <- Spectrogram_dt new ;;
      Spectrogram_dt_set zeros dt ;;;
      rec new zeros ;;;
      ret tt
    else if decide (gap = "ignore") then ret tt
    else raise (ValueError "Cannot append discontiguous Spectrogram")
  else ret tt.

(** [Spectrogram.prepend], the block [# resize first]: grow [new], move
    its rows to the end and copy the rows of [other] to the front. *)
Definition prepend_join (new other : loc) : M loc :=
  n <- shape_getitem new 0 ;;
  n0 <- shape_getitem new 0 ;;
  k <- shape_getitem other 0 ;;
  s <- shape_with_rows new (n0 + k) ;;
  ndarray_resize new s ;;;
  head <- ndarray_first_rows new n ;;
  ndarray_setitem_rows new (Some (- Z.of_nat n)%Z) None (fst head) (snd head) ;;;
  k <- shape_getitem other 0 ;;
  src <- deref other ;;
  ndarray_setitem_rows new None (Some (Z.of_nat k)) (shape src) (buf src) ;;;
  ret new.

(** The body of [Spectrogram.prepend]. *)
Definition Spectrogram_prepend_body (rec : loc -> loc -> M loc)
    (self other : loc) (gap : string) (inplace : bool) : M loc :=
  Spectrogram_is_compatible self other ;;;
  new <- (if inplace then ret self else Array_copy self) ;;
  prepend_fill_gap rec new other gap ;;;
  prepend_join new other.

Definition Spectrogram_prepend_raise (self other : loc) : M loc :=
  Spectrogram_prepend_body
    (fun _ _ => raise (RuntimeError "maximum recursion depth exceeded"))
    self other "raise" true.

(** [Spectrogram.prepend(other, gap, inplace)] *)
Definition Spectrogram_prepend (self other : loc) (gap : string)
    (inplace : bool) : M loc :=
  Spectrogram_prepend_body Spectrogram_prepend_raise self other gap inplace.

End SpectrogramModel.

(** ** [gwpy/spectrum/psd.py] *)

(** The fields of a LAL frequency series that [Spectrum.from_lal] reads. *)
Record lal_frequencyseries := {
  fs_name : string;
  fs_sampleUnits : string;
  fs_f0 : Q;
  fs_deltaF : Q;
  fs_epoch : Q;
  fs_data : list Q
}.

Section PsdModel.
Context {U : UnitAlgebra} {NP : NumpyPower} {PF : PythonFloat}.

(** The [lal.spectrum.averagespectrum] module once imported, together with
    the [to_lal] conversions of the series and window objects. *)
Record lal_backend (Window LalSeries LalWindow : Type) := {
  timeseries_to_lal : ndobj -> outcome LalSeries;
  window_to_lal : Window -> option LalWindow;
  averagespectrum_psd :
    string -> LalSeries -> pyval -> pyval -> option LalWindow ->
    outcome lal_frequencyseries
}.
Global Arguments timeseries_to_lal {Window LalSeries LalWindow} _ _.
Global Arguments window_to_lal {Window LalSeries LalWindow} _ _.
Global Arguments averagespectrum_psd {Window LalSeries LalWindow} _ _ _ _ _ _.

(** [Spectrum.from_lal]: a new [Spectrum] named and united after the LAL
    series, with its [f0], [df] and [epoch]; a view of the floating-point
    data of the LAL series. *)
Definition Spectrum_from_lal (lalfs : lal_frequencyseries) : M loc :=
  new <- alloc {| cls := KSpectrum; dtype := float64; owndata := false;
                  shape := [length (fs_data lalfs)];
                  buf := fs_data lalfs;
                  metadata := ∅; quantity_id := ∅ |} ;;
  metadata_setitem new "name" (VStr (fs_name lalfs)) ;;;
  Array_unit_set new (VStr (fs_sampleUnits lalfs)) ;;;
  axis_set "x0" xunit new (VFloat (fs_f0 lalfs)) ;;;
  axis_set "dx" xunit new (VFloat (fs_deltaF lalfs)) ;;;
  metadata_setitem new "channel" (VChannel (fs_name lalfs)) ;;;
  Array_epoch_set new (VFloat (fs_epoch lalfs)) ;;;
  metadata_setitem new "logx" (VBool false) ;;;
  ret new.

(** [x.value] when [x] is a [Quantity], [x] itself otherwise. *)
Definition strip_quantity (x : pyval) : pyval :=
  match x with
  | VQuantity v _ => VFloat v
  | _ => x
  end.

(** [lal_psd(timeseries, method, segmentlength, overlap, window)]; [lal]
    is [None] when the import of the LAL module fails. *)
Definition lal_psd {Window LalSeries LalWindow : Type}
    (lal : option (lal_backend Window LalSeries LalWindow))
    (timeseries : loc) (method : string) (segmentlength overlap : pyval)
    (window : option Window) : M loc :=
  match lal with
  | None =>
      raise (ImportError "Try using gwpy.spectrum.scipy_psd instead")
  | Some lalspectrum =>
      let segmentlength := strip_quantity segmentlength in
      let overlap := strip_quantity overlap in
      ts <- deref timeseries ;;
      lalts <- lift (timeseries_to_lal lalspectrum ts) ;;
      let lalwin :=
        match window with
        | Some w => window_to_lal lalspectrum w
        | None => None
        end in
      lalfs <- lift (averagespectrum_psd lalspectrum method lalts
                       segmentlength overlap lalwin) ;;
      spec <- Spectrum_from_lal lalfs ;;
      u <- Array_unit timeseries ;;
      match u with
      | VUnit u =>
          Array_unit_set spec (VUnit (unit_div (unit_pow u 2) hertz)) ;;;
          ret spec
      | _ =>
          Array_unit_set spec (VUnit (unit_div dimensionless hertz)) ;;;
          ret spec
      end
  end.

(** [median_mean(timeseries, segmentlength, overlap, window)] *)
Definition median_mean {Window LalSeries LalWindow : Type}
    (lal : option (lal_backend Window LalSeries LalWindow))
    (timeseries : loc) (segmentlength overlap : pyval)
    (window : option Window) : M loc :=
  lal_psd lal timeseries "medianmean" segmentlength overlap window.

(** [median(timeseries, segmentlength, overlap, window)] *)
Definition median {Window LalSeries LalWindow : Type}
    (lal : option (lal_backend Window LalSeries LalWindow))
    (timeseries : loc) (segmentlength overlap : pyval)
    (window : option Window) : M loc :=
  lal_psd lal timeseries "medianmean" segmentlength overlap window.

End PsdModel.

(** ** A concrete instance of the external interfaces

    Units as products of integral powers of named base units, kept as the
    list of their factors; powers with an integral exponent; [float] of
    unsigned decimal numerals.  The instance is used to run the model on
    concrete stores. *)

Definition sym_unit : Type := list (string * Z).

(** Multiply a unit by one factor. *)
Fixpoint sym_factor (s : string) (p : Z) (u : sym_unit) : sym_unit :=
  match u with
  | [] => if decide (p = 0)%Z then [] else [(s, p)]
  | (t, q) :: u' =>
      if decide (s = t) then
        if decide (p + q = 0)%Z then u' else (t, (p + q)%Z) :: u'
      else (t, q) :: sym_factor s p u'
  end.

Definition sym_pow (u : sym_unit) (y : Q) : sym_unit :=
  let n := Z.quot (Qnum y) (Z.pos (Qden y)) in
  if decide (n = 0)%Z then []
  else (fun f : string * Z => (fst f, (snd f * n)%Z)) <$> u.

Definition sym_div (u v : sym_unit) : sym_unit :=
  foldr (fun f : string * Z => sym_factor (fst f) (- snd f)%Z) u v.

Definition sym_new (a : unit_arg) : option sym_unit :=
  match a with
  | UText s => Some (if decide (s = "") then [] else [(s, 1%Z)])
  | UNumber x => if Qeq_bool x 1 then Some [] else None
  end.

Definition sym_convert (u v : sym_unit) : option Q :=
  if decide (u = v) then Some 1%Q else None.

Definition sym_units : UnitAlgebra := {|
  Unit := sym_unit;
  Unit_eq_dec := _;
  dimensionless := [];
  second := [("s", 1%Z)];
  hertz := [("Hz", 1%Z)];
  Unit_new := sym_new;
  unit_pow := sym_pow;
  unit_div := sym_div;
  unit_convert := sym_convert;
  Unit_new_empty := eq_refl
|}.

Definition int_power (x y : Q) : Q := Qpower x (Z.quot (Qnum y) (Z.pos (Qden y))).

Definition int_powers : NumpyPower.
Proof.
  refine {| float_power := int_power |}.
  intros x n _. unfold int_power. cbn [inject_Z Qnum Qden].
  rewrite Z.quot_1_r. reflexivity.
Defined.

(** The value of a string of decimal digits. *)
Fixpoint digits_value (acc : N) (s : string) : option N :=
  match s with
  | EmptyString => Some acc
  | String c s' =>
      let n := Ascii.N_of_ascii c in
      if (48 <=? n)%N && (n <=? 57)%N then
        digits_value (10 * acc + (n - 48))%N s'
      else None
  end.

Definition decimal_float (s : string) : option Q :=
  match s with
  | EmptyString => None
  | _ => (fun n : N => inject_Z (Z.of_N n)) <$> digits_value 0%N s
  end.

Definition decimal_floats : PythonFloat := {| float_of_text := decimal_float |}.

(** ** Concrete stores

    Objects as the constructors leave them: every keyword that is not
    [None] has gone through its setter, the elements of a list of integers
    are [int64], and with the default [copy=False] the object is
    [numpy.array(data).view(cls)], a view that does not own its data. *)

Section Examples.
#[local] Existing Instance sym_units.
#[local] Existing Instance int_powers.
#[local] Existing Instance decimal_floats.

(** [Spectrogram(data, epoch=epoch, dt=dt, f0=f0, df=df)] for [data] of
    shape [(n, m)]; the three quantities of its metadata are the objects
    number [i], [i + 1] and [i + 2]. *)
Definition spectrogram (i : nat) (n m : nat) (data : list Q)
    (epoch dt f0 df : Q) : ndobj :=
  {| cls := KSpectrogram; dtype := int64; owndata := false;
     shape := [n; m]; buf := data;
     metadata :=
       <["epoch" := VFloat epoch]>
         (<["dx" := VQuantity dt second]>
            (<["y0" := VQuantity f0 hertz]>
               (<["dy" := VQuantity df hertz]> ∅)));
     quantity_id :=
       <["dx" := i]> (<["y0" := S i]> (<["dy" := S (S i)]> ∅)) |}.

(** [Array2D(data, x0=x0, dx=dx)] for [data] of shape [(n, m)], with the
    quantities number [i] and [i + 1]. *)
Definition array2d (i : nat) (n m : nat) (data : list Q) (x0 dx : Q)
  : ndobj :=
  {| cls := KArray2D; dtype := int64; owndata := false;
     shape := [n; m]; buf := data;
     metadata :=
       <["x0" := VQuantity x0 dimensionless]>
         (<["dx" := VQuantity dx dimensionless]> ∅);
     quantity_id := <["x0" := i]> (<["dx" := S i]> ∅) |}.

(** [Array(data)] and [Array(data, unit=u)] for one-dimensional [data] of
    the element type [d]. *)
Definition array1d (d : npdtype) (data : list Q) : ndobj :=
  {| cls := KArray; dtype := d; owndata := false;
     shape := [length data]; buf := data;
     metadata := ∅; quantity_id := ∅ |}.

Definition array1d_unit (d : npdtype) (data : list Q) (u : string) : ndobj :=
  {| cls := KArray; dtype := d; owndata := false;
     shape := [length data]; buf := data;
     metadata := {[ "unit" := VUnit [(u, 1%Z)] ]}; quantity_id := ∅ |}.

(** The series of the worked examples, as one-column spectrograms. *)
Definition series_A : ndobj := spectrogram 1 5 1 [1; 2; 3; 4; 5]%Q 0 1 0 1.
Definition series_B : ndobj := spectrogram 4 3 1 [6; 7; 8]%Q 5 1 0 1.
Definition series_C : ndobj := spectrogram 7 2 1 [9; 10]%Q 7 1 0 1.

(** A fourth series, which starts where [series_B] ends. *)
Definition series_D : ndobj := spectrogram 10 2 1 [9; 10]%Q 8 1 0 1.


(** Two spectrograms without rows, starting at the same time. *)
Definition empty_1 : ndobj := spectrogram 19 0 1 [] 0 1 0 1.
Definition empty_2 : ndobj := spectrogram 22 0 1 [] 0 1 0 1.

(** A grid of three rows with origin 1 and step 1. *)
Definition grid : ndobj := array2d 25 3 1 [10; 20; 30]%Q 1 1.

(** [Array2D(data)]: three rows, no origin and no step. *)
Definition bare_grid : ndobj :=
  {| cls := KArray2D; dtype := int64; owndata := false;
     shape := [3%nat; 1%nat]; buf := [10; 20; 30]%Q;
     metadata := ∅; quantity_id := ∅ |}.

(** [o.copy()], made when the quantities of the store were numbered below
    [i]. *)
Definition copied (o : ndobj) (i : nat) : ndobj := copy_as o i.

(** A LAL module whose estimators return a fixed two-bin series. *)
Definition toy_lal : lal_backend unit unit unit :=
  {| timeseries_to_lal := fun _ => Returns tt;
     window_to_lal := fun _ => Some tt;
     averagespectrum_psd := fun _ _ _ _ _ =>
       Returns {| fs_name := "X"; fs_sampleUnits := "";
                  fs_f0 := 0; fs_deltaF := 1; fs_epoch := 0;
                  fs_data := [1; 1]%Q |} |}.

(** A LAL module that only knows the median-mean estimator. *)
Definition medianmean_only_lal : lal_backend unit unit unit :=
  {| timeseries_to_lal := fun _ => Returns tt;
     window_to_lal := fun _ => Some tt;
     averagespectrum_psd := fun method =>
       if decide (method = "medianmean") then
         fun _ _ _ _ =>
           Returns {| fs_name := "X"; fs_sampleUnits := "";
                      fs_f0 := 0; fs_deltaF := 1; fs_epoch := 0;
                      fs_data := [1; 1]%Q |}
       else
         fun _ _ _ _ => Raises (ValueError "unknown average method") |}.

End Examples.


(** ** Vocabulary of the statements *)

Section Vocabulary.
Context {U : UnitAlgebra} {NP : NumpyPower} {PF : PythonFloat}.

(** The object after a first read of its [unit]: an unset unit has been
    stored as the dimensionless unit, a set one is untouched. *)
Definition init_unit (o : ndobj) : ndobj :=
  match metadata o !! "unit" with
  | Some _ => o
  | None => with_metadata o "unit" (VUnit dimensionless)
  end.

(** The value that a read of [o.unit] returns. *)
Definition unit_of (o : ndobj) : pyval :=
  default (VUnit dimensionless) (metadata o !! "unit").

(** The store after a read of the unit of the object at [l]. *)
Definition init_unit_at (l : loc) (h : heap) : heap :=
  match h !! l with
  | Some o => <[l := init_unit o]> h
  | None => h
  end.

(** The object is a spectrogram as the constructor leaves it: [n] rows
    of shape [tl], first sample at GPS time [epoch], time step [dt],
    first frequency [f0] and frequency step [df]. *)
Definition is_spectrogram (o : ndobj) (n : nat) (tl : list nat)
    (epoch dt f0 df : Q) : Prop :=
  cls o = KSpectrogram /\
  shape o = n :: tl /\
  length (buf o) = (n * shape_size tl)%nat /\
  metadata o !! "epoch" = Some (VFloat epoch) /\
  metadata o !! "dx" = Some (VQuantity dt second) /\
  metadata o !! "y0" = Some (VQuantity f0 hertz) /\
  metadata o !! "dy" = Some (VQuantity df hertz).

(** The span of an object, when its epoch, step and row count are there. *)
Definition span_view (o : ndobj) : option (Q * Q) :=
  match metadata o !! "epoch" with
  | Some ve =>
      match Time_gps ve, shape o !! 0%nat, metadata o !! "dx" with
      | Some e, Some n, Some (VQuantity d _) =>
          Some (e, e + inject_Z (Z.of_nat n) * d)%Q
      | _, _, _ => None
      end
  | None => None
  end.

(** The four fields that [is_compatible] compares agree under [==]. *)
Definition same_field (key : string) (o1 o2 : ndobj) : Prop :=
  exists a b, metadata o1 !! key = Some a /\ metadata o2 !! key = Some b /\
              py_eq a b = true.

Definition compatible (o1 o2 : ndobj) : Prop :=
  same_field "dx" o1 o2 /\ same_field "dy" o1 o2 /\ same_field "y0" o1 o2 /\
  py_eq (unit_of o1) (unit_of o2) = true.

(** The store after a successful compatibility check. *)
Definition checked (self other : loc) (h : heap) : heap :=
  init_unit_at other (init_unit_at self h).

(** The only object that differs between two stores is the one at [l]. *)
Definition only_changes (l : loc) (h h' : heap) : Prop :=
  length h' = length h /\ forall l', l' <> l -> h' !! l' = h !! l'.

(** A method that only returns when its second argument has a frequency
    step. *)
Definition needs_df (rec : loc -> loc -> M loc) : Prop :=
  forall a b h h' r,
    rec a b h = (h', Returns r) ->
    exists ob v, h !! b = Some ob /\ metadata ob !! "dy" = Some v.

(** Between two stores nothing has happened but first reads of units:
    every object is still there, unchanged or with its unset unit stored
    as the dimensionless unit. *)
Definition units_initialised (h h' : heap) : Prop :=
  length h' = length h /\
  forall l o, h !! l = Some o ->
              h' !! l = Some o \/ h' !! l = Some (init_unit o).

(** Computations that only read the store. *)
Definition reads_only {A} (m : M A) : Prop :=
  forall h h' r, m h = (h', r) -> h' = h.

(** Between two stores no object has gone, and the objects below [b] are
    unchanged or have had their unset unit stored as the dimensionless
    unit. *)
Definition stable (b : nat) (h h' : heap) : Prop :=
  (length h <= length h')%nat /\
  forall l o, (l < b)%nat -> h !! l = Some o ->
              h' !! l = Some o \/ h' !! l = Some (init_unit o).

(** Computations that, whatever their outcome, leave the objects below
    [b] alone but for first reads of units, and whose value satisfies
    [post] when they return. *)
Definition spares {A} (b : nat) (m : M A) (post : A -> Prop) : Prop :=
  forall h h' r, (b <= length h)%nat -> m h = (h', r) ->
    stable b h h' /\ (forall a, r = Returns a -> post a).

End Vocabulary.

(** ** Reasoning about monadic code *)

Section MonadLemmas.
Context {U : UnitAlgebra} {NP : NumpyPower} {PF : PythonFloat}.

Lemma bind_returns {A B} (m : M A) (k : A -> M B) h h' a :
  m h = (h', Returns a) -> bind m k h = k a h'.
Proof. intros E. unfold bind. now rewrite E. Qed.

Lemma bind_raises {A B} (m : M A) (k : A -> M B) h h' e :
  m h = (h', Raises e) -> bind m k h = (h', Raises e).
Proof. intros E. unfold bind. now rewrite E. Qed.

Lemma bind_returns_inv {A B} (m : M A) (k : A -> M B) h h2 b :
  bind m k h = (h2, Returns b) ->
  exists h1 a, m h = (h1, Returns a) /\ k a h1 = (h2, Returns b).
Proof.
  unfold bind. destruct (m h) as [h1 [a|e]]; intros E.
  - now exists h1, a.
  - discriminate.
Qed.

Lemma deref_some h l o : h !! l = Some o -> deref l h = (h, Returns o).
Proof. intros E. unfold deref. now rewrite E. Qed.

Lemma deref_inv h l h' o :
  deref l h = (h', Returns o) -> h' = h /\ h !! l = Some o.
Proof.
  unfold deref. destruct (h !! l) eqn:E; intros X; inversion X; auto.
Qed.

Lemma metadata_getitem_some h l o key v :
  h !! l = Some o -> metadata o !! key = Some v ->
  metadata_getitem l key h = (h, Returns v).
Proof.
  intros Hl Hk. unfold metadata_getitem.
  rewrite (bind_returns _ _ _ _ _ (deref_some _ _ _ Hl)). now rewrite Hk.
Qed.

Lemma metadata_getitem_none h l o key :
  h !! l = Some o -> metadata o !! key = None ->
  metadata_getitem l key h = (h, Raises (KeyError key)).
Proof.
  intros Hl Hk. unfold metadata_getitem.
  rewrite (bind_returns _ _ _ _ _ (deref_some _ _ _ Hl)). now rewrite Hk.
Qed.

Lemma metadata_setitem_some h l o key v :
  h !! l = Some o ->
  metadata_setitem l key v h = (<[l := with_metadata o key v]> h, Returns tt).
Proof.
  intros Hl. unfold metadata_setitem.
  now rewrite (bind_returns _ _ _ _ _ (deref_some _ _ _ Hl)).
Qed.

Lemma lookup_insert_heap (h : heap) l o o' :
  h !! l = Some o -> <[l := o']> h !! l = Some o'.
Proof.
  intros Hl. apply list_lookup_insert_eq. now apply lookup_lt_Some in Hl.
Qed.

End MonadLemmas.

(** ** Properties of [Array] and [Array2D] *)

Section ArrayTheorems.
Context {U : UnitAlgebra} {NP : NumpyPower} {PF : PythonFloat}.

Lemma Array_unit_set_text_empty h l o :
  h !! l = Some o ->
  Array_unit_set l (VStr "") h =
    (<[l := with_metadata o "unit" (VUnit dimensionless)]> h, Returns tt).
Proof.
  intros Hl. unfold Array_unit_set. rewrite Unit_new_empty.
  now apply metadata_setitem_some.
Qed.

(** Reading the unit of an object stores the default when it is unset. *)
Lemma Array_unit_unset h l o :
  h !! l = Some o -> metadata o !! "unit" = None ->
  Array_unit l h = (<[l := init_unit o]> h, Returns (VUnit dimensionless)).
Proof.
  intros Hl Hk. unfold Array_unit, except_KeyError.
  rewrite (metadata_getitem_none _ _ _ _ Hl Hk).
  rewrite (bind_returns _ _ _ _ _ (Array_unit_set_text_empty _ _ _ Hl)).
  unfold init_unit. rewrite Hk.
  erewrite metadata_getitem_some; [reflexivity | |].
  - eapply lookup_insert_heap, Hl.
  - simpl. apply lookup_insert_eq.
Qed.

Lemma Array_unit_set_already h l o v :
  h !! l = Some o -> metadata o !! "unit" = Some v ->
  Array_unit l h = (h, Returns v).
Proof.
  intros Hl Hk. unfold Array_unit, except_KeyError.
  rewrite (metadata_getitem_some _ _ _ _ _ Hl Hk). now destruct v.
Qed.

(** C9. For an [Array] whose metadata lacks the key, reading [name],
    [epoch] or [channel] returns [None] without raising and without
    changing anything; reading [unit] stores the dimensionless unit under
    ['unit'] in the metadata of the object and returns it, so that the
    metadata maps ['unit'] to the dimensionless unit afterwards (and a
    second read returns it with no further change). *)
Theorem unset_attributes_read (h : heap) (self : loc) (o : ndobj) :
  h !! self = Some o ->
  (metadata o !! "name" = None -> Array_name self h = (h, Returns VNone)) /\
  (metadata o !! "epoch" = None -> Array_epoch self h = (h, Returns VNone)) /\
  (metadata o !! "channel" = None ->
     Array_channel self h = (h, Returns VNone)) /\
  (metadata o !! "unit" = None ->
     exists h' o',
       Array_unit self h = (h', Returns (VUnit dimensionless)) /\
       h' = <[self := o']> h /\
       h' !! self = Some o' /\
       metadata o' = <["unit" := VUnit dimensionless]> (metadata o) /\
       cls o' = cls o /\ shape o' = shape o /\ buf o' = buf o /\
       Array_unit self h' = (h', Returns (VUnit dimensionless))).
Proof.
  intros Hl. repeat split.
  - intros Hk. unfold Array_name, except_KeyError.
    now rewrite (metadata_getitem_none _ _ _ _ Hl Hk).
  - intros Hk. unfold Array_epoch, except_KeyError.
    now rewrite (bind_raises _ _ _ _ _ (metadata_getitem_none _ _ _ _ Hl Hk)).
  - intros Hk. unfold Array_channel, except_KeyError.
    now rewrite (metadata_getitem_none _ _ _ _ Hl Hk).
  - intros Hk.
    exists (<[self := init_unit o]> h), (init_unit o).
    assert (Hl' : <[self := init_unit o]> h !! self = Some (init_unit o))
      by (eapply lookup_insert_heap, Hl).
    assert (Hm : metadata (init_unit o)
                 = <["unit" := VUnit dimensionless]> (metadata o))
      by (unfold init_unit; now rewrite Hk).
    split; [now apply Array_unit_unset|].
    split; [reflexivity|]. split; [exact Hl'|]. split; [exact Hm|].
    repeat split; try (unfold init_unit; rewrite Hk; reflexivity).
    apply (Array_unit_set_already _ _ _ _ Hl').
    rewrite Hm. apply lookup_insert_eq.
Qed.

Lemma shape_getitem_some h l o i n :
  h !! l = Some o -> shape o !! i = Some n ->
  shape_getitem l i h = (h, Returns n).
Proof.
  intros Hl Hs. unfold shape_getitem.
  rewrite (bind_returns _ _ _ _ _ (deref_some _ _ _ Hl)). now rewrite Hs.
Qed.

Lemma quantity_to_same x u : quantity_to x u u = Some x.
Proof. unfold quantity_to. now rewrite decide_True. Qed.

(** The common shape of [span_x] and [span_y]: origin and step are
    quantities in one unit, [n] samples along the axis. *)
Lemma axis_span h l o k0 kd i a d u n :
  h !! l = Some o ->
  metadata o !! k0 = Some (VQuantity a u) ->
  metadata o !! kd = Some (VQuantity d u) ->
  shape o !! i = Some n ->
  (lo <- metadata_getitem l k0 ;;
   x0 <- metadata_getitem l k0 ;;
   n <- shape_getitem l i ;;
   dx <- metadata_getitem l kd ;;
   w <- py_mul_int (Z.of_nat n) dx ;;
   hi <- py_add x0 w ;;
   ret (lo, hi)) h
  = (h, Returns (VQuantity a u,
                 VQuantity (a + inject_Z (Z.of_nat n) * d) u)).
Proof.
  intros Hl H0 Hd Hn.
  rewrite (bind_returns _ _ _ _ _ (metadata_getitem_some _ _ _ _ _ Hl H0)).
  rewrite (bind_returns _ _ _ _ _ (metadata_getitem_some _ _ _ _ _ Hl H0)).
  rewrite (bind_returns _ _ _ _ _ (shape_getitem_some _ _ _ _ _ Hl Hn)).
  rewrite (bind_returns _ _ _ _ _ (metadata_getitem_some _ _ _ _ _ Hl Hd)).
  unfold py_mul_int, py_add, bind, ret. now rewrite quantity_to_same.
Qed.

(** C8. For an array whose axis origin and axis step are set (quantities
    in the unit of the axis), the span along the axis is the interval from
    [x0] to [x0 + N * dx], where [N] is [shape[0]] for the x-axis and
    [shape[1]] for the y-axis; computing it changes nothing. *)
Theorem span_is_origin_plus_count_times_step (h : heap) (self : loc)
    (o : ndobj) :
  h !! self = Some o ->
  (forall x0 dx u n,
     metadata o !! "x0" = Some (VQuantity x0 u) ->
     metadata o !! "dx" = Some (VQuantity dx u) ->
     shape o !! 0%nat = Some n ->
     Array2D_span_x self h =
       (h, Returns (VQuantity x0 u,
                    VQuantity (x0 + inject_Z (Z.of_nat n) * dx) u))) /\
  (forall y0 dy u n,
     metadata o !! "y0" = Some (VQuantity y0 u) ->
     metadata o !! "dy" = Some (VQuantity dy u) ->
     shape o !! 1%nat = Some n ->
     Array2D_span_y self h =
       (h, Returns (VQuantity y0 u,
                    VQuantity (y0 + inject_Z (Z.of_nat n) * dy) u))).
Proof.
  intros Hl. split; intros a d u n H0 Hd Hn.
  - apply (axis_span h self o "x0" "dx" 0%nat a d u n Hl H0 Hd Hn).
  - apply (axis_span h self o "y0" "dy" 1%nat a d u n Hl H0 Hd Hn).
Qed.

Lemma alloc_spec h (o : ndobj) :
  alloc o h = ((h ++ [o])%list, Returns (length h)).
Proof. reflexivity. Qed.

Lemma lookup_alloc_old (h : heap) l o o' :
  h !! l = Some o -> (h ++ [o'])%list !! l = Some o.
Proof. intros Hl. rewrite lookup_app_l; [exact Hl|]. now apply lookup_lt_Some in Hl. Qed.

Lemma lookup_alloc_new (h : heap) o' : (h ++ [o'])%list !! length h = Some o'.
Proof. rewrite lookup_app_r by lia. now rewrite Nat.sub_diag. Qed.

Lemma lift_spec {A} (r : outcome A) (h : heap) : lift r h = (h, r).
Proof. reflexivity. Qed.





Lemma quantity_setitem_some h l o key x u :
  h !! l = Some o ->
  quantity_setitem l key x u h
    = (<[l := with_quantity o key x u (fresh_id h)]> h, Returns tt).
Proof.
  intros Hl. unfold quantity_setitem.
  now rewrite (bind_returns _ _ _ _ _ (deref_some _ _ _ Hl)).
Qed.

Lemma axis_set_quantity h l o key (axis_unit : klass -> Unit) x :
  h !! l = Some o ->
  axis_set key axis_unit l (VQuantity x (axis_unit (cls o))) h =
    (<[l := with_quantity o key x (axis_unit (cls o)) (fresh_id h)]> h,
     Returns tt).
Proof.
  intros Hl. unfold axis_set.
  rewrite (bind_returns _ _ _ _ _ (deref_some _ _ _ Hl)).
  rewrite quantity_to_same. now apply quantity_setitem_some.
Qed.
End ArrayTheorems.

(** ** Properties of the PSD estimators *)

Section PsdTheorems.
Context {U : UnitAlgebra} {NP : NumpyPower} {PF : PythonFloat}.

(** C10. [median] and [median_mean] return the same result and leave the
    same store on every input, with or without the LAL module: both are
    the call [lal_psd(timeseries, 'medianmean', segmentlength, overlap,
    window=window)]. *)
Theorem median_is_median_mean {Window LalSeries LalWindow : Type}
    (lal : option (lal_backend Window LalSeries LalWindow))
    (timeseries : loc) (segmentlength overlap : pyval)
    (window : option Window) (h : heap) :
  median lal timeseries segmentlength overlap window h
    = median_mean lal timeseries segmentlength overlap window h /\
  median lal timeseries segmentlength overlap window h
    = lal_psd lal timeseries "medianmean" segmentlength overlap window h.
Proof. split; reflexivity. Qed.

(** [median] does not depend on the median estimator of the LAL module:
    two modules that convert series and windows alike and agree on the
    method ['medianmean'] give the same result and the same store, however
    they differ on ['median'] or any other method. *)
Theorem median_never_uses_median_estimator
    {Window LalSeries LalWindow : Type}
    (lal1 lal2 : lal_backend Window LalSeries LalWindow)
    (timeseries : loc) (segmentlength overlap : pyval)
    (window : option Window) (h : heap) :
  timeseries_to_lal lal1 = timeseries_to_lal lal2 ->
  window_to_lal lal1 = window_to_lal lal2 ->
  averagespectrum_psd lal1 "medianmean" = averagespectrum_psd lal2 "medianmean" ->
  median (Some lal1) timeseries segmentlength overlap window h
    = median (Some lal2) timeseries segmentlength overlap window h.
Proof.
  intros Ht Hw Hp. unfold median, lal_psd. now rewrite Ht, Hw, Hp.
Qed.


End PsdTheorems.

(** ** Inversion of the primitives *)

Section Inversion.
Context {U : UnitAlgebra} {NP : NumpyPower} {PF : PythonFloat}.

Lemma ret_inv {A} (a b : A) (h h' : heap) :
  ret a h = (h', Returns b) -> h' = h /\ b = a.
Proof. unfold ret. intros E. inversion E. auto. Qed.

Lemma raise_inv {A} e (h h' : heap) (b : A) :
  raise e h = (h', Returns b) -> False.
Proof. unfold raise. discriminate. Qed.

Lemma metadata_getitem_inv h l key h' v :
  metadata_getitem l key h = (h', Returns v) ->
  h' = h /\ exists o, h !! l = Some o /\ metadata o !! key = Some v.
Proof.
  unfold metadata_getitem. intros E.
  apply bind_returns_inv in E as (h1 & o & E1 & E2).
  apply deref_inv in E1 as [-> Hl].
  destruct (metadata o !! key) eqn:Hk.
  - apply ret_inv in E2 as [-> ->]. eauto.
  - now apply raise_inv in E2.
Qed.

Lemma shape_getitem_inv h l i h' n :
  shape_getitem l i h = (h', Returns n) ->
  h' = h /\ exists o, h !! l = Some o /\ shape o !! i = Some n.
Proof.
  unfold shape_getitem. intros E.
  apply bind_returns_inv in E as (h1 & o & E1 & E2).
  apply deref_inv in E1 as [-> Hl].
  destruct (shape o !! i) eqn:Hk.
  - apply ret_inv in E2 as [-> ->]. eauto.
  - now apply raise_inv in E2.
Qed.

Lemma metadata_setitem_inv h l key v h' r :
  metadata_setitem l key v h = (h', Returns r) ->
  exists o, h !! l = Some o /\ h' = <[l := with_metadata o key v]> h.
Proof.
  unfold metadata_setitem. intros E.
  apply bind_returns_inv in E as (h1 & o & E1 & E2).
  apply deref_inv in E1 as [-> Hl].
  unfold store in E2. inversion E2. eauto.
Qed.

Lemma init_unit_set o v :
  metadata o !! "unit" = Some v -> init_unit o = o.
Proof. intros E. unfold init_unit. now rewrite E. Qed.

Lemma unit_of_init_unit o : unit_of (init_unit o) = unit_of o.
Proof.
  unfold init_unit, unit_of. destruct (metadata o !! "unit") eqn:E.
  - now rewrite E.
  - simpl. now rewrite lookup_insert_eq.
Qed.

Lemma init_unit_lookup_ne o key :
  key <> "unit" -> metadata (init_unit o) !! key = metadata o !! key.
Proof.
  intros Hne. unfold init_unit. destruct (metadata o !! "unit"); [easy|].
  simpl. now rewrite lookup_insert_ne.
Qed.

Lemma init_unit_lookup_unit o :
  metadata (init_unit o) !! "unit" = Some (unit_of o).
Proof.
  unfold init_unit, unit_of. destruct (metadata o !! "unit") eqn:E.
  - now rewrite E.
  - simpl. now rewrite lookup_insert_eq.
Qed.

Lemma init_unit_idem o : init_unit (init_unit o) = init_unit o.
Proof. eapply init_unit_set, init_unit_lookup_unit. Qed.

Lemma init_unit_shape o : shape (init_unit o) = shape o.
Proof. unfold init_unit. now destruct (metadata o !! "unit"). Qed.

Lemma init_unit_buf o : buf (init_unit o) = buf o.
Proof. unfold init_unit. now destruct (metadata o !! "unit"). Qed.

Lemma init_unit_cls o : cls (init_unit o) = cls o.
Proof. unfold init_unit. now destruct (metadata o !! "unit"). Qed.

Lemma init_unit_dtype o : dtype (init_unit o) = dtype o.
Proof. unfold init_unit. now destruct (metadata o !! "unit"). Qed.

Lemma init_unit_owndata o : owndata (init_unit o) = owndata o.
Proof. unfold init_unit. now destruct (metadata o !! "unit"). Qed.

Lemma init_unit_quantity_id o key i :
  quantity_id (init_unit o) !! key = Some i -> quantity_id o !! key = Some i.
Proof.
  unfold init_unit. destruct (metadata o !! "unit"); [easy|].
  cbn [with_metadata quantity_id]. intros E.
  now apply lookup_delete_Some in E as [_ E].
Qed.

Lemma init_unit_at_some h l o :
  h !! l = Some o -> init_unit_at l h = <[l := init_unit o]> h.
Proof. intros E. unfold init_unit_at. now rewrite E. Qed.

Lemma init_unit_at_length l (h : heap) :
  length (init_unit_at l h) = length h.
Proof.
  unfold init_unit_at. destruct (h !! l); [apply length_insert|reflexivity].
Qed.

Lemma init_unit_at_lookup_eq l (h : heap) :
  init_unit_at l h !! l = init_unit <$> h !! l.
Proof.
  unfold init_unit_at. destruct (h !! l) eqn:E; simpl.
  - eapply lookup_insert_heap, E.
  - exact E.
Qed.

Lemma init_unit_at_lookup_ne l l' (h : heap) :
  l <> l' -> init_unit_at l h !! l' = h !! l'.
Proof.
  intros Hne. unfold init_unit_at. destruct (h !! l); [|reflexivity].
  now apply list_lookup_insert_ne.
Qed.

(** Whatever was read, an object is still there and differs from the old
    one by the initialised unit at most. *)
Lemma init_unit_at_lookup l l' (h : heap) o :
  h !! l' = Some o ->
  init_unit_at l h !! l' = Some o \/ init_unit_at l h !! l' = Some (init_unit o).
Proof.
  intros E. destruct (decide (l = l')) as [->|Hne].
  - right. now rewrite init_unit_at_lookup_eq, E.
  - left. now rewrite init_unit_at_lookup_ne.
Qed.

(** The total behaviour of the [unit] getter. *)
Lemma Array_unit_spec h l o :
  h !! l = Some o ->
  Array_unit l h = (init_unit_at l h, Returns (unit_of o)).
Proof.
  intros Hl. rewrite (init_unit_at_some _ _ _ Hl).
  destruct (metadata o !! "unit") as [v|] eqn:Hk.
  - rewrite (Array_unit_set_already _ _ _ _ Hl Hk).
    rewrite (init_unit_set _ _ Hk), list_insert_id by exact Hl.
    unfold unit_of. now rewrite Hk.
  - rewrite (Array_unit_unset _ _ _ Hl Hk). unfold unit_of. now rewrite Hk.
Qed.

Lemma Array_unit_inv h l h' v :
  Array_unit l h = (h', Returns v) ->
  exists o, h !! l = Some o /\ h' = init_unit_at l h /\ v = unit_of o.
Proof.
  destruct (h !! l) as [o|] eqn:Hl.
  - rewrite (Array_unit_spec _ _ _ Hl). intros E. inversion E. eauto.
  - unfold Array_unit, except_KeyError, metadata_getitem, bind, deref.
    rewrite Hl. discriminate.
Qed.

End Inversion.


(** ** Compatibility and contiguity *)

Section Stitching.
Context {U : UnitAlgebra} {NP : NumpyPower} {PF : PythonFloat}.

Lemma reads_only_ret {A} (a : A) : reads_only (ret a).
Proof. intros h h' r E. now inversion E. Qed.

Lemma reads_only_raise {A} e : reads_only (@raise _ A e).
Proof. intros h h' r E. now inversion E. Qed.

Lemma reads_only_bind {A B} (m : M A) (k : A -> M B) :
  reads_only m -> (forall a, reads_only (k a)) -> reads_only (bind m k).
Proof.
  intros Hm Hk h h' r. unfold bind.
  destruct (m h) as [h1 [a|e]] eqn:E; apply Hm in E as ->.
  - apply Hk.
  - now intros [= <- _].
Qed.

Lemma reads_only_except {A} (m k : M A) :
  reads_only m -> reads_only k -> reads_only (except_KeyError m k).
Proof.
  intros Hm Hk h h' r. unfold except_KeyError.
  destruct (m h) as [h1 [a|e]] eqn:E; apply Hm in E as ->.
  - now intros [= <- _].
  - destruct e; try (now intros [= <- _]). apply Hk.
Qed.

Lemma reads_only_deref l : reads_only (deref l).
Proof.
  intros h h' r. unfold deref. destruct (h !! l); now intros [= <- _].
Qed.

Lemma reads_only_metadata_getitem l key : reads_only (metadata_getitem l key).
Proof.
  apply reads_only_bind; [apply reads_only_deref|]. intros o.
  destruct (metadata o !! key); [apply reads_only_ret|apply reads_only_raise].
Qed.

Lemma reads_only_shape_getitem l i : reads_only (shape_getitem l i).
Proof.
  apply reads_only_bind; [apply reads_only_deref|]. intros o.
  destruct (shape o !! i); [apply reads_only_ret|apply reads_only_raise].
Qed.

Lemma reads_only_epoch l : reads_only (Array_epoch l).
Proof.
  apply reads_only_except; [|apply reads_only_ret].
  apply reads_only_bind; [apply reads_only_metadata_getitem|]. intros v.
  destruct (Time_gps v); [apply reads_only_ret|apply reads_only_raise].
Qed.

Lemma reads_only_quantity_value v : reads_only (quantity_value v).
Proof. destruct v; first [apply reads_only_ret|apply reads_only_raise]. Qed.

Lemma span_frame l : reads_only (Spectrogram_span l).
Proof.
  apply reads_only_bind; [apply reads_only_epoch|]. intros e.
  destruct e; try apply reads_only_raise.
  apply reads_only_bind; [apply reads_only_shape_getitem|]. intros n.
  apply reads_only_bind; [apply reads_only_metadata_getitem|]. intros dt.
  apply reads_only_bind; [apply reads_only_quantity_value|]. intros d.
  apply reads_only_ret.
Qed.

Lemma Array_epoch_some h l o ve e :
  h !! l = Some o -> metadata o !! "epoch" = Some ve ->
  Time_gps ve = Some e ->
  Array_epoch l h = (h, Returns (VTime e)).
Proof.
  intros Hl Hk Ht. unfold Array_epoch, except_KeyError.
  rewrite (bind_returns _ _ _ _ _ (metadata_getitem_some _ _ _ _ _ Hl Hk)).
  now rewrite Ht.
Qed.

Lemma Array_epoch_inv h l h' e :
  Array_epoch l h = (h', Returns (VTime e)) ->
  exists o ve, h !! l = Some o /\ metadata o !! "epoch" = Some ve /\
               Time_gps ve = Some e.
Proof.
  unfold Array_epoch, except_KeyError. intros E.
  destruct (h !! l) as [o|] eqn:Hl.
  - destruct (metadata o !! "epoch") as [ve|] eqn:Hk.
    + rewrite (bind_returns _ _ _ _ _
                 (metadata_getitem_some _ _ _ _ _ Hl Hk)) in E.
      destruct (Time_gps ve) as [x|] eqn:Ht; [|discriminate].
      inversion E; subst. eauto.
    + rewrite (bind_raises _ _ _ _ _
                 (metadata_getitem_none _ _ _ _ Hl Hk)) in E.
      discriminate.
  - revert E. unfold metadata_getitem, bind, deref. rewrite Hl.
    discriminate.
Qed.

Lemma span_returns h l o s :
  h !! l = Some o -> span_view o = Some s ->
  Spectrogram_span l h = (h, Returns s).
Proof.
  intros Hl. unfold span_view.
  destruct (metadata o !! "epoch") as [ve|] eqn:He; [|discriminate].
  destruct (Time_gps ve) as [e|] eqn:Ht; [|discriminate].
  destruct (shape o !! 0%nat) as [n|] eqn:Hn; [|discriminate].
  destruct (metadata o !! "dx") as [vd|] eqn:Hd; [|discriminate].
  destruct vd; try discriminate. intros [= <-].
  unfold Spectrogram_span, Spectrogram_epoch, Spectrogram_dt, Array2D_dx.
  rewrite (bind_returns _ _ _ _ _ (Array_epoch_some _ _ _ _ _ Hl He Ht)).
  rewrite (bind_returns _ _ _ _ _ (shape_getitem_some _ _ _ _ _ Hl Hn)).
  rewrite (bind_returns _ _ _ _ _ (metadata_getitem_some _ _ _ _ _ Hl Hd)).
  reflexivity.
Qed.

Lemma span_inv h l h' s :
  Spectrogram_span l h = (h', Returns s) ->
  h' = h /\ exists o, h !! l = Some o /\ span_view o = Some s.
Proof.
  intros E. pose proof (span_frame _ _ _ _ E) as ->. split; [reflexivity|].
  unfold Spectrogram_span, Spectrogram_epoch, Spectrogram_dt, Array2D_dx in E.
  apply bind_returns_inv in E as (h1 & e & E1 & E).
  pose proof (reads_only_epoch _ _ _ _ E1) as ->.
  destruct e; try (now apply raise_inv in E).
  apply Array_epoch_inv in E1 as (o & ve & Hl & He & Ht).
  apply bind_returns_inv in E as (h1 & n & E1 & E).
  apply shape_getitem_inv in E1 as (-> & o1 & Hl1 & Hn).
  apply bind_returns_inv in E as (h1 & dt & E1 & E).
  apply metadata_getitem_inv in E1 as (-> & o2 & Hl2 & Hd).
  apply bind_returns_inv in E as (h1 & d & E1 & E).
  destruct dt; try (now apply raise_inv in E1).
  apply ret_inv in E1 as [-> ->]. apply ret_inv in E as [_ ->].
  assert (o1 = o) by congruence. assert (o2 = o) by congruence. subst.
  exists o. split; [exact Hl|]. unfold span_view.
  now rewrite He, Ht, Hn, Hd.
Qed.

Lemma span_view_spectrogram o n tl e dt f0 df :
  is_spectrogram o n tl e dt f0 df ->
  span_view o = Some (e, e + inject_Z (Z.of_nat n) * dt)%Q.
Proof.
  intros (_ & Hs & _ & He & Hd & _). unfold span_view.
  now rewrite He, Hs, Hd.
Qed.

Lemma span_view_init_unit o : span_view (init_unit o) = span_view o.
Proof.
  unfold span_view.
  rewrite !init_unit_lookup_ne by discriminate. now rewrite init_unit_shape.
Qed.

Lemma is_spectrogram_init_unit o n tl e dt f0 df :
  is_spectrogram o n tl e dt f0 df ->
  is_spectrogram (init_unit o) n tl e dt f0 df.
Proof.
  unfold is_spectrogram.
  rewrite init_unit_cls, init_unit_shape, init_unit_buf.
  now rewrite !init_unit_lookup_ne by discriminate.
Qed.

Lemma Array_unit_after_init h l l' o :
  h !! l' = Some o ->
  Array_unit l' (init_unit_at l h)
    = (init_unit_at l' (init_unit_at l h), Returns (unit_of o)).
Proof.
  intros Hl. destruct (init_unit_at_lookup l l' h o Hl) as [E|E];
    rewrite (Array_unit_spec _ _ _ E); [reflexivity|].
  now rewrite unit_of_init_unit.
Qed.

(** Reading the fields one after the other, as [is_compatible] does. *)
Lemma is_compatible_unfold h self other o1 o2 a1 a2 b1 b2 c1 c2 :
  h !! self = Some o1 -> h !! other = Some o2 ->
  metadata o1 !! "dx" = Some a1 -> metadata o2 !! "dx" = Some a2 ->
  metadata o1 !! "dy" = Some b1 -> metadata o2 !! "dy" = Some b2 ->
  metadata o1 !! "y0" = Some c1 -> metadata o2 !! "y0" = Some c2 ->
  Spectrogram_is_compatible self other h =
    if negb (py_eq a1 a2) then
      (h, Raises (ValueError "Spectrogram time resolutions do not match."))
    else if negb (py_eq b1 b2) then
      (h, Raises (ValueError
                    "Spectrogram frequency resolutios do not match."))
    else if negb (py_eq c1 c2) then
      (h, Raises (ValueError
                    "Spectrogram starting frequencies do not match."))
    else if negb (py_eq (unit_of o1) (unit_of o2)) then
      (checked self other h,
       Raises (ValueError "Spectrogram units do not match"))
    else (checked self other h, Returns true).
Proof.
  intros H1 H2 Ha1 Ha2 Hb1 Hb2 Hc1 Hc2.
  unfold Spectrogram_is_compatible, Spectrogram_dt, Spectrogram_df,
    Spectrogram_f0, Array2D_dx, Array2D_dy, Array2D_y0.
  rewrite (bind_returns _ _ _ _ _ (metadata_getitem_some _ _ _ _ _ H1 Ha1)).
  rewrite (bind_returns _ _ _ _ _ (metadata_getitem_some _ _ _ _ _ H2 Ha2)).
  destruct (negb (py_eq a1 a2)); [reflexivity|].
  rewrite (bind_returns _ _ _ _ _ (metadata_getitem_some _ _ _ _ _ H1 Hb1)).
  rewrite (bind_returns _ _ _ _ _ (metadata_getitem_some _ _ _ _ _ H2 Hb2)).
  destruct (negb (py_eq b1 b2)); [reflexivity|].
  rewrite (bind_returns _ _ _ _ _ (metadata_getitem_some _ _ _ _ _ H1 Hc1)).
  rewrite (bind_returns _ _ _ _ _ (metadata_getitem_some _ _ _ _ _ H2 Hc2)).
  destruct (negb (py_eq c1 c2)); [reflexivity|].
  rewrite (bind_returns _ _ _ _ _ (Array_unit_spec _ _ _ H1)).
  rewrite (bind_returns _ _ _ _ _ (Array_unit_after_init _ self _ _ H2)).
  now destruct (negb (py_eq (unit_of o1) (unit_of o2))).
Qed.

Lemma is_compatible_returns h self other o1 o2 :
  h !! self = Some o1 -> h !! other = Some o2 -> compatible o1 o2 ->
  Spectrogram_is_compatible self other h
    = (checked self other h, Returns true).
Proof.
  intros H1 H2 ((a1 & a2 & Ha1 & Ha2 & Ha) & (b1 & b2 & Hb1 & Hb2 & Hb)
                & (c1 & c2 & Hc1 & Hc2 & Hc) & Hu).
  rewrite (is_compatible_unfold _ _ _ _ _ _ _ _ _ _ _
             H1 H2 Ha1 Ha2 Hb1 Hb2 Hc1 Hc2).
  now rewrite Ha, Hb, Hc, Hu.
Qed.

Lemma is_compatible_inv h self other h' b :
  Spectrogram_is_compatible self other h = (h', Returns b) ->
  exists o1 o2,
    h !! self = Some o1 /\ h !! other = Some o2 /\ compatible o1 o2 /\
    b = true /\ h' = checked self other h.
Proof.
  intros E. pose proof E as E0.
  unfold Spectrogram_is_compatible, Spectrogram_dt, Spectrogram_df,
    Spectrogram_f0, Array2D_dx, Array2D_dy, Array2D_y0 in E.
  apply bind_returns_inv in E as (? & a1 & E1 & E).
  apply metadata_getitem_inv in E1 as (-> & o1 & H1 & Ha1).
  apply bind_returns_inv in E as (? & a2 & E1 & E).
  apply metadata_getitem_inv in E1 as (-> & o2 & H2 & Ha2).
  destruct (negb (py_eq a1 a2)) eqn:Ha; [now apply raise_inv in E|].
  apply bind_returns_inv in E as (? & b1 & E1 & E).
  apply metadata_getitem_inv in E1 as (-> & o1' & H1' & Hb1).
  apply bind_returns_inv in E as (? & b2 & E1 & E).
  apply metadata_getitem_inv in E1 as (-> & o2' & H2' & Hb2).
  destruct (negb (py_eq b1 b2)) eqn:Hb; [now apply raise_inv in E|].
  apply bind_returns_inv in E as (? & c1 & E1 & E).
  apply metadata_getitem_inv in E1 as (-> & o1'' & H1'' & Hc1).
  apply bind_returns_inv in E as (? & c2 & E1 & E).
  apply metadata_getitem_inv in E1 as (-> & o2'' & H2'' & Hc2).
  destruct (negb (py_eq c1 c2)) eqn:Hc; [now apply raise_inv in E|].
  assert (o1' = o1) by congruence. assert (o1'' = o1) by congruence.
  assert (o2' = o2) by congruence. assert (o2'' = o2) by congruence.
  subst. clear E.
  rewrite (is_compatible_unfold _ _ _ _ _ _ _ _ _ _ _
             H1 H2 Ha1 Ha2 Hb1 Hb2 Hc1 Hc2) in E0.
  rewrite Ha, Hb, Hc in E0.
  destruct (negb (py_eq (unit_of o1) (unit_of o2))) eqn:Hu;
    [discriminate|].
  inversion E0; subst. apply negb_false_iff in Ha, Hb, Hc, Hu.
  exists o1, o2. repeat split; auto; unfold same_field; eauto 10.
Qed.


Lemma checked_length self other (h : heap) :
  length (checked self other h) = length h.
Proof. unfold checked. now rewrite !init_unit_at_length. Qed.

Lemma checked_lookup_self self other (h : heap) o :
  h !! self = Some o -> checked self other h !! self = Some (init_unit o).
Proof.
  intros E. unfold checked. destruct (decide (other = self)) as [->|Hne].
  - rewrite !init_unit_at_lookup_eq, E. simpl. now rewrite init_unit_idem.
  - rewrite init_unit_at_lookup_ne by exact Hne.
    now rewrite init_unit_at_lookup_eq, E.
Qed.

Lemma checked_lookup_other self other (h : heap) o :
  h !! other = Some o -> checked self other h !! other = Some (init_unit o).
Proof.
  intros E. unfold checked. rewrite init_unit_at_lookup_eq.
  destruct (decide (self = other)) as [->|Hne].
  - rewrite init_unit_at_lookup_eq, E. simpl. now rewrite init_unit_idem.
  - rewrite init_unit_at_lookup_ne by exact Hne. now rewrite E.
Qed.

Lemma checked_lookup_ne self other (h : heap) l :
  l <> self -> l <> other -> checked self other h !! l = h !! l.
Proof.
  intros H1 H2. unfold checked.
  now rewrite !init_unit_at_lookup_ne by auto.
Qed.

Lemma init_unit_at_id l (h : heap) :
  (forall o, h !! l = Some o -> init_unit o = o) -> init_unit_at l h = h.
Proof.
  intros H. unfold init_unit_at. destruct (h !! l) as [o|] eqn:E; [|easy].
  rewrite (H o eq_refl). now apply list_insert_id.
Qed.

Lemma checked_id self other (h : heap) :
  (forall o, h !! self = Some o -> init_unit o = o) ->
  (forall o, h !! other = Some o -> init_unit o = o) ->
  checked self other h = h.
Proof.
  intros H1 H2. unfold checked.
  rewrite (init_unit_at_id self h H1). now apply init_unit_at_id.
Qed.

Lemma checked_idem self other (h : heap) :
  checked self other (checked self other h) = checked self other h.
Proof.
  apply checked_id; intros o E.
  - destruct (h !! self) as [o1|] eqn:E1.
    + rewrite (checked_lookup_self _ _ _ _ E1) in E.
      inversion E. apply init_unit_idem.
    + apply lookup_lt_Some in E. rewrite checked_length in E.
      apply lookup_ge_None in E1. lia.
  - destruct (h !! other) as [o2|] eqn:E2.
    + rewrite (checked_lookup_other _ _ _ _ E2) in E.
      inversion E. apply init_unit_idem.
    + apply lookup_lt_Some in E. rewrite checked_length in E.
      apply lookup_ge_None in E2. lia.
Qed.

Lemma compatible_init_unit_l o1 o2 :
  compatible o1 o2 -> compatible (init_unit o1) o2.
Proof.
  unfold compatible, same_field. rewrite unit_of_init_unit.
  now rewrite !init_unit_lookup_ne by discriminate.
Qed.

Lemma compatible_init_unit_r o1 o2 :
  compatible o1 o2 -> compatible o1 (init_unit o2).
Proof.
  unfold compatible, same_field. rewrite unit_of_init_unit.
  now rewrite !init_unit_lookup_ne by discriminate.
Qed.

(** The value of [is_contiguous] for two spans. *)
Lemma is_contiguous_returns h self other o1 o2 s1 s2 :
  h !! self = Some o1 -> h !! other = Some o2 -> compatible o1 o2 ->
  span_view o1 = Some s1 -> span_view o2 = Some s2 ->
  Spectrogram_is_contiguous self other h =
    (checked self other h,
     Returns (if Qeq_bool (snd s1) (fst s2) then 1%Z
              else if Qeq_bool (snd s2) (fst s1) then (-1)%Z else 0%Z)).
Proof.
  intros H1 H2 Hc Hs1 Hs2. unfold Spectrogram_is_contiguous.
  rewrite (bind_returns _ _ _ _ _ (is_compatible_returns _ _ _ _ _ H1 H2 Hc)).
  pose proof (checked_lookup_self self other h o1 H1) as H1'.
  pose proof (checked_lookup_other self other h o2 H2) as H2'.
  rewrite <- span_view_init_unit in Hs1, Hs2.
  rewrite (bind_returns _ _ _ _ _ (span_returns _ _ _ _ H1' Hs1)).
  rewrite (bind_returns _ _ _ _ _ (span_returns _ _ _ _ H2' Hs2)).
  destruct (Qeq_bool (snd s1) (fst s2)); [reflexivity|].
  rewrite (bind_returns _ _ _ _ _ (span_returns _ _ _ _ H2' Hs2)).
  rewrite (bind_returns _ _ _ _ _ (span_returns _ _ _ _ H1' Hs1)).
  now destruct (Qeq_bool (snd s2) (fst s1)).
Qed.

Lemma is_contiguous_inv h self other h' c :
  Spectrogram_is_contiguous self other h = (h', Returns c) ->
  exists o1 o2 s1 s2,
    h !! self = Some o1 /\ h !! other = Some o2 /\ compatible o1 o2 /\
    span_view o1 = Some s1 /\ span_view o2 = Some s2 /\
    h' = checked self other h /\
    c = (if Qeq_bool (snd s1) (fst s2) then 1%Z
         else if Qeq_bool (snd s2) (fst s1) then (-1)%Z else 0%Z).
Proof.
  intros E. pose proof E as E0. unfold Spectrogram_is_contiguous in E.
  apply bind_returns_inv in E as (h1 & b & E1 & E).
  apply is_compatible_inv in E1 as (o1 & o2 & H1 & H2 & Hc & -> & ->).
  apply bind_returns_inv in E as (? & s1 & E1 & E).
  apply span_inv in E1 as (-> & o1' & H1' & Hs1).
  apply bind_returns_inv in E as (? & s2 & E1 & E).
  apply span_inv in E1 as (-> & o2' & H2' & Hs2).
  rewrite (checked_lookup_self _ _ _ _ H1) in H1'.
  rewrite (checked_lookup_other _ _ _ _ H2) in H2'.
  inversion H1'; inversion H2'; subst. rewrite span_view_init_unit in Hs1, Hs2.
  rewrite (is_contiguous_returns _ _ _ _ _ _ _ H1 H2 Hc Hs1 Hs2) in E0.
  injection E0 as <- <-. exists o1, o2, s1, s2.
  do 5 (split; [assumption|]). split; reflexivity.
Qed.


(** C3. For two spectrograms whose time step, frequency step and first
    frequency are set, [is_compatible] returns only [True], and only when
    [dt], [df], [f0] and the unit of the data are each equal under [==];
    when all four are equal it does return [True].  On a mismatch it
    raises the error of the first field that disagrees, in the order
    [dt], [df], [f0], unit.  [append] and [prepend] call it first, so every
    failure of the check is the failure of the call, for every value of
    [gap] and of [inplace]. *)
Theorem is_compatible_compares_four_fields (h : heap) (self other : loc)
    (o1 o2 : ndobj) (dt1 dt2 df1 df2 f1 f2 : pyval) :
  h !! self = Some o1 -> h !! other = Some o2 ->
  metadata o1 !! "dx" = Some dt1 -> metadata o2 !! "dx" = Some dt2 ->
  metadata o1 !! "dy" = Some df1 -> metadata o2 !! "dy" = Some df2 ->
  metadata o1 !! "y0" = Some f1 -> metadata o2 !! "y0" = Some f2 ->
  (forall h' b,
     Spectrogram_is_compatible self other h = (h', Returns b) ->
     b = true /\ py_eq dt1 dt2 = true /\ py_eq df1 df2 = true /\
     py_eq f1 f2 = true /\ py_eq (unit_of o1) (unit_of o2) = true) /\
  (py_eq dt1 dt2 = true -> py_eq df1 df2 = true -> py_eq f1 f2 = true ->
   py_eq (unit_of o1) (unit_of o2) = true ->
   Spectrogram_is_compatible self other h
     = (checked self other h, Returns true)) /\
  (py_eq dt1 dt2 = false ->
   Spectrogram_is_compatible self other h
     = (h, Raises (ValueError
                     "Spectrogram time resolutions do not match."))) /\
  (py_eq dt1 dt2 = true -> py_eq df1 df2 = false ->
   Spectrogram_is_compatible self other h
     = (h, Raises (ValueError
                     "Spectrogram frequency resolutios do not match."))) /\
  (py_eq dt1 dt2 = true -> py_eq df1 df2 = true -> py_eq f1 f2 = false ->
   Spectrogram_is_compatible self other h
     = (h, Raises (ValueError
                     "Spectrogram starting frequencies do not match."))) /\
  (py_eq dt1 dt2 = true -> py_eq df1 df2 = true -> py_eq f1 f2 = true ->
   py_eq (unit_of o1) (unit_of o2) = false ->
   Spectrogram_is_compatible self other h
     = (checked self other h,
        Raises (ValueError "Spectrogram units do not match"))) /\
  (forall h' e gap inplace,
     Spectrogram_is_compatible self other h = (h', Raises e) ->
     Spectrogram_append self other gap inplace h = (h', Raises e) /\
     Spectrogram_prepend self other gap inplace h = (h', Raises e)).
Proof.
  intros H1 H2 Ha1 Ha2 Hb1 Hb2 Hc1 Hc2.
  pose proof (is_compatible_unfold _ _ _ _ _ _ _ _ _ _ _
                H1 H2 Ha1 Ha2 Hb1 Hb2 Hc1 Hc2) as E.
  split; [|split; [|split; [|split; [|split; [|split]]]]].
  - intros h' b Hr. rewrite E in Hr.
    destruct (py_eq dt1 dt2); [|discriminate].
    destruct (py_eq df1 df2); [|discriminate].
    destruct (py_eq f1 f2); [|discriminate].
    destruct (py_eq (unit_of o1) (unit_of o2)); [|discriminate].
    simpl in Hr. inversion Hr. auto.
  - intros Ha Hb Hc Hu. now rewrite E, Ha, Hb, Hc, Hu.
  - intros Ha. now rewrite E, Ha.
  - intros Ha Hb. now rewrite E, Ha, Hb.
  - intros Ha Hb Hc. now rewrite E, Ha, Hb, Hc.
  - intros Ha Hb Hc Hu. now rewrite E, Ha, Hb, Hc, Hu.
  - intros h' e gap inplace Hr. split.
    + unfold Spectrogram_append, Spectrogram_append_body.
      now apply bind_raises.
    + unfold Spectrogram_prepend, Spectrogram_prepend_body.
      now apply bind_raises.
Qed.

Lemma checked_swap_after self other (h : heap) :
  checked other self (checked self other h) = checked self other h.
Proof.
  apply checked_id; intros o E.
  - destruct (h !! other) as [o2|] eqn:E2.
    + rewrite (checked_lookup_other _ _ _ _ E2) in E.
      inversion E. apply init_unit_idem.
    + apply lookup_lt_Some in E. rewrite checked_length in E.
      apply lookup_ge_None in E2. lia.
  - destruct (h !! self) as [o1|] eqn:E1.
    + rewrite (checked_lookup_self _ _ _ _ E1) in E.
      inversion E. apply init_unit_idem.
    + apply lookup_lt_Some in E. rewrite checked_length in E.
      apply lookup_ge_None in E1. lia.
Qed.

(** C4 (amended). For two mutually compatible spectrograms with spans
    [sa] and [sb], [a.is_contiguous(b)] is [+1] when the end of [sa] equals
    the start of [sb]; it is [-1] when that is not so and the end of [sb]
    equals the start of [sa]; it is [0] otherwise.  Unless both equalities
    hold at once, [a.is_contiguous(b) == -b.is_contiguous(a)] evaluates to
    [True]; both cannot hold when neither span runs backwards and one of
    the two is not empty. *)
Theorem is_contiguous_antisymmetric_unless_both_touch (h : heap) (a b : loc)
    (oa ob : ndobj) (sa sb : Q * Q) :
  h !! a = Some oa -> h !! b = Some ob ->
  compatible oa ob -> compatible ob oa ->
  span_view oa = Some sa -> span_view ob = Some sb ->
  Spectrogram_is_contiguous a b h =
    (checked a b h,
     Returns (if Qeq_bool (snd sa) (fst sb) then 1%Z
              else if Qeq_bool (snd sb) (fst sa) then (-1)%Z else 0%Z)) /\
  (~ (snd sa == fst sb /\ snd sb == fst sa)%Q ->
   (r1 <- Spectrogram_is_contiguous a b ;;
    r2 <- Spectrogram_is_contiguous b a ;;
    ret (bool_decide (r1 = (- r2)%Z))) h
   = (checked a b h, Returns true)) /\
  ((fst sa <= snd sa)%Q -> (fst sb <= snd sb)%Q ->
   (fst sa < snd sa \/ fst sb < snd sb)%Q ->
   ~ (snd sa == fst sb /\ snd sb == fst sa)%Q).
Proof.
  intros Ha Hb Hab Hba Hsa Hsb.
  pose proof (is_contiguous_returns _ _ _ _ _ _ _ Ha Hb Hab Hsa Hsb) as E1.
  split; [exact E1|]. split.
  - intros Hnot. rewrite (bind_returns _ _ _ _ _ E1).
    pose proof (checked_lookup_self a b h oa Ha) as Ha'.
    pose proof (checked_lookup_other a b h ob Hb) as Hb'.
    assert (Hba' : compatible (init_unit ob) (init_unit oa))
      by now apply compatible_init_unit_l, compatible_init_unit_r.
    pose proof Hsa as Hsa'. pose proof Hsb as Hsb'.
    rewrite <- span_view_init_unit in Hsa', Hsb'.
    rewrite (bind_returns _ _ _ _ _
               (is_contiguous_returns _ _ _ _ _ _ _ Hb' Ha' Hba' Hsb' Hsa')).
    rewrite checked_swap_after. unfold ret. f_equal. f_equal.
    apply bool_decide_eq_true.
    destruct (Qeq_bool (snd sa) (fst sb)) eqn:X;
      destruct (Qeq_bool (snd sb) (fst sa)) eqn:Y; try reflexivity.
    exfalso. apply Hnot. split; now apply Qeq_bool_iff.
  - intros L1 L2 L3 [X Y]. rewrite X in L1, L3. rewrite Y in L2, L3.
    destruct L3 as [L3|L3].
    + apply (Qlt_irrefl (fst sa)). eapply Qlt_le_trans; eauto.
    + apply (Qlt_irrefl (fst sb)). eapply Qlt_le_trans; eauto.
Qed.


End Stitching.


(** ** The ndarray operations on equal shapes *)

Section NdarrayLemmas.

Lemma shape_size_cons n s : shape_size (n :: s) = (n * shape_size s)%nat.
Proof. reflexivity. Qed.

Lemma chunks_concat n sz (b : list Q) :
  length b = (n * sz)%nat -> concat (chunks n sz b) = b.
Proof.
  revert b. induction n as [|n IH]; intros b Hb; simpl.
  - destruct b; [reflexivity|discriminate].
  - rewrite IH; [apply take_drop|]. rewrite length_drop. lia.
Qed.

Lemma chunks_lengths n sz (b : list Q) :
  length b = (n * sz)%nat ->
  Forall (fun c => length c = sz) (chunks n sz b).
Proof.
  revert b. induction n as [|n IH]; intros b Hb; simpl; constructor.
  - rewrite length_take. lia.
  - apply IH. rewrite length_drop. lia.
Qed.

Lemma mapM_fixed {A} (f : A -> option A) (l : list A) :
  Forall (fun x => f x = Some x) l -> mapM f l = Some l.
Proof.
  induction 1 as [|x l Hx _ IH]; [reflexivity|].
  simpl. rewrite Hx. simpl. now rewrite IH.
Qed.

Lemma broadcast_same s : forall b : list Q,
  length b = shape_size s -> broadcast s s b = Some b.
Proof.
  induction s as [|n s IH]; intros b Hb; [reflexivity|].
  simpl. rewrite decide_True by reflexivity.
  rewrite shape_size_cons in Hb.
  rewrite mapM_fixed.
  - simpl. now rewrite chunks_concat.
  - eapply Forall_impl; [apply chunks_lengths, Hb|]. intros c Hc. now apply IH.
Qed.

Lemma align_rank_same fuel ss : align_rank fuel ss (length ss) = ss.
Proof.
  destruct fuel; [reflexivity|]. simpl.
  rewrite decide_False by lia. now rewrite decide_False by lia.
Qed.

Lemma broadcast_to_same s (b : list Q) :
  length b = shape_size s -> broadcast_to s b s = Some b.
Proof.
  intros Hb. unfold broadcast_to. rewrite align_rank_same.
  now apply broadcast_same.
Qed.

Lemma resize_buf_grow (b : list Q) n k tl :
  length b = (n * shape_size tl)%nat ->
  resize_buf b ((n + k)%nat :: tl)
    = (b ++ replicate (k * shape_size tl) 0%Q)%list.
Proof.
  intros Hb. unfold resize_buf. rewrite shape_size_cons, Hb.
  replace ((n + k) * shape_size tl - n * shape_size tl)%nat
    with (k * shape_size tl)%nat by lia.
  apply take_ge. rewrite length_app, length_replicate. lia.
Qed.

Lemma write_rows_tail (b src : list Q) n k sz :
  length b = (n * sz)%nat ->
  write_rows sz n (n + k) (b ++ replicate (k * sz) 0%Q) src
    = (b ++ src)%list.
Proof.
  intros Hb. unfold write_rows.
  rewrite take_app_length' by (symmetry; exact Hb).
  rewrite drop_ge; [now rewrite app_nil_r|].
  rewrite length_app, length_replicate. lia.
Qed.

Lemma slice_last_rows (n k : nat) :
  (1 <= k)%nat ->
  slice_indices (Some (- Z.of_nat k)%Z) None None (Z.of_nat (n + k))
    = Some (Z.of_nat n, Z.of_nat (n + k), 1%Z).
Proof.
  intros Hk. unfold slice_indices. cbn [default].
  repeat case_decide; try lia. do 3 f_equal. lia.
Qed.

End NdarrayLemmas.


(** ** Joining two spectrograms *)

Section Joining.
Context {U : UnitAlgebra} {NP : NumpyPower} {PF : PythonFloat}.

Lemma only_changes_refl l (h : heap) : only_changes l h h.
Proof. split; auto. Qed.

Lemma only_changes_insert l (h : heap) o :
  only_changes l h (<[l := o]> h).
Proof.
  split; [apply length_insert|]. intros l' Hne.
  now apply list_lookup_insert_ne.
Qed.

Lemma only_changes_trans l (h1 h2 h3 : heap) :
  only_changes l h1 h2 -> only_changes l h2 h3 -> only_changes l h1 h3.
Proof.
  intros [L1 F1] [L2 F2]. split; [congruence|].
  intros l' Hne. now rewrite F2, F1.
Qed.

Lemma shape_with_rows_some h l o m tl n :
  h !! l = Some o -> shape o = m :: tl ->
  shape_with_rows l n h = (h, Returns (n :: tl)).
Proof.
  intros Hl Hs. unfold shape_with_rows.
  rewrite (bind_returns _ _ _ _ _ (deref_some _ _ _ Hl)). now rewrite Hs.
Qed.

Lemma shape_with_rows_inv h l n h' s :
  shape_with_rows l n h = (h', Returns s) ->
  h' = h /\ exists o m tl, h !! l = Some o /\ shape o = m :: tl /\ s = n :: tl.
Proof.
  unfold shape_with_rows. intros E.
  apply bind_returns_inv in E as (h1 & o & E1 & E2).
  apply deref_inv in E1 as [-> Hl].
  destruct (shape o) as [|m tl] eqn:Hs.
  - now apply raise_inv in E2.
  - apply ret_inv in E2 as [-> ->]. eauto 10.
Qed.

Lemma ndarray_resize_some h l o s :
  h !! l = Some o ->
  owndata o = true \/ shape_size s = shape_size (shape o) ->
  ndarray_resize l s h
    = (<[l := with_array o s (resize_buf (buf o) s)]> h, Returns tt).
Proof.
  intros Hl Hown. unfold ndarray_resize.
  rewrite (bind_returns _ _ _ _ _ (deref_some _ _ _ Hl)).
  destruct (decide _) as [|Hne]; [reflexivity|].
  destruct Hown as [-> | ?]; [reflexivity|contradiction].
Qed.

(** numpy refuses to reallocate the memory of a view. *)
Lemma ndarray_resize_refused h l o s :
  h !! l = Some o -> owndata o = false ->
  shape_size s <> shape_size (shape o) ->
  ndarray_resize l s h
    = (h, Raises (ValueError
                    "cannot resize this array: it does not own its data")).
Proof.
  intros Hl Hown Hne. unfold ndarray_resize.
  rewrite (bind_returns _ _ _ _ _ (deref_some _ _ _ Hl)).
  rewrite decide_False by exact Hne. now rewrite Hown.
Qed.

Lemma ndarray_resize_inv h l s h' r :
  ndarray_resize l s h = (h', Returns r) ->
  exists o, h !! l = Some o /\
            h' = <[l := with_array o s (resize_buf (buf o) s)]> h /\
            (owndata o = true \/ shape_size s = shape_size (shape o)).
Proof.
  unfold ndarray_resize. intros E.
  apply bind_returns_inv in E as (h1 & o & E1 & E2).
  apply deref_inv in E1 as [-> Hl]. exists o. split; [exact Hl|].
  destruct (decide _) as [Hs|Hs].
  - unfold store in E2. inversion E2. auto.
  - destruct (owndata o) eqn:Hown; [|now apply raise_inv in E2].
    unfold store in E2. inversion E2. auto.
Qed.

Lemma ndarray_setitem_rows_inv h l a b ss sb h' r :
  ndarray_setitem_rows l a b ss sb h = (h', Returns r) ->
  exists o n tl x y z src,
    h !! l = Some o /\ shape o = n :: tl /\
    slice_indices a b None (Z.of_nat n) = Some (x, y, z) /\
    broadcast_to ss sb ((Z.to_nat (Z.max x y) - Z.to_nat x)%nat :: tl)
      = Some src /\
    h' = <[l := with_array o (shape o)
                  (write_rows (shape_size tl) (Z.to_nat x)
                              (Z.to_nat (Z.max x y)) (buf o)
                              (cast (dtype o) <$> src))]> h.
Proof.
  unfold ndarray_setitem_rows. intros E.
  apply bind_returns_inv in E as (h1 & o & E1 & E2).
  apply deref_inv in E1 as [-> Hl].
  destruct (shape o) as [|n tl] eqn:Hs; [now apply raise_inv in E2|].
  destruct (slice_indices a b None (Z.of_nat n)) as [[[x y] z]|] eqn:Hi;
    [|now apply raise_inv in E2].
  destruct (broadcast_to ss sb _) as [src|] eqn:Hb;
    [|now apply raise_inv in E2].
  unfold store in E2. inversion E2.
  exists o, n, tl, x, y, z, src. rewrite Hs. auto.
Qed.

Lemma ndarray_setitem_rows_some h l o a b ss sb n tl x y z src :
  h !! l = Some o -> shape o = n :: tl ->
  slice_indices a b None (Z.of_nat n) = Some (x, y, z) ->
  broadcast_to ss sb ((Z.to_nat (Z.max x y) - Z.to_nat x)%nat :: tl)
    = Some src ->
  ndarray_setitem_rows l a b ss sb h
    = (<[l := with_array o (shape o)
                (write_rows (shape_size tl) (Z.to_nat x)
                            (Z.to_nat (Z.max x y)) (buf o)
                            (cast (dtype o) <$> src))]> h,
       Returns tt).
Proof.
  intros Hl Hs Hi Hb. unfold ndarray_setitem_rows.
  rewrite (bind_returns _ _ _ _ _ (deref_some _ _ _ Hl)).
  rewrite Hs, Hi, Hb. reflexivity.
Qed.
Lemma ndarray_first_rows_frame l n : reads_only (ndarray_first_rows l n).
Proof.
  apply reads_only_bind; [apply reads_only_deref|]. intros o.
  destruct (shape o); [apply reads_only_raise|apply reads_only_ret].
Qed.

(** The block [# resize first] of [append] on an array that owns its data
    and another one with rows of the same shape: the rows of [other],
    converted to the element type of [new], follow those of [new]. *)
Lemma append_join_rows h new other o1 o2 n k tl :
  h !! new = Some o1 -> h !! other = Some o2 -> new <> other ->
  owndata o1 = true ->
  shape o1 = n :: tl -> shape o2 = k :: tl ->
  length (buf o1) = (n * shape_size tl)%nat ->
  length (buf o2) = (k * shape_size tl)%nat ->
  (1 <= k)%nat ->
  append_join new other h
    = (<[new := with_array o1 ((n + k)%nat :: tl)
                  (buf o1 ++ (cast (dtype o1) <$> buf o2))]> h,
       Returns new).
Proof.
  intros H1 H2 Hne Hown Hs1 Hs2 Hb1 Hb2 Hk. unfold append_join.
  assert (Hn1 : shape o1 !! 0%nat = Some n) by now rewrite Hs1.
  assert (Hn2 : shape o2 !! 0%nat = Some k) by now rewrite Hs2.
  rewrite (bind_returns _ _ _ _ _ (shape_getitem_some _ _ _ _ _ H1 Hn1)).
  rewrite (bind_returns _ _ _ _ _ (shape_getitem_some _ _ _ _ _ H2 Hn2)).
  rewrite (bind_returns _ _ _ _ _
             (shape_with_rows_some _ _ _ _ _ (n + k)%nat H1 Hs1)).
  rewrite (bind_returns _ _ _ _ _
             (ndarray_resize_some _ _ _ _ H1 (or_introl Hown))).
  rewrite (resize_buf_grow _ _ _ _ Hb1).
  set (o1' := with_array o1 _ _).
  assert (H1' : <[new := o1']> h !! new = Some o1')
    by (eapply lookup_insert_heap, H1).
  assert (H2' : <[new := o1']> h !! other = Some o2)
    by (rewrite list_lookup_insert_ne by exact Hne; exact H2).
  rewrite (bind_returns _ _ _ _ _ (shape_getitem_some _ _ _ _ _ H2' Hn2)).
  rewrite (bind_returns _ _ _ _ _ (deref_some _ _ _ H2')).
  assert (Hs1' : shape o1' = (n + k)%nat :: tl) by reflexivity.
  assert (Hbc : broadcast_to (shape o2) (buf o2)
                  ((Z.to_nat (Z.max (Z.of_nat n) (Z.of_nat (n + k)))
                    - Z.to_nat (Z.of_nat n))%nat :: tl) = Some (buf o2)).
  { rewrite Z.max_r by lia. rewrite !Nat2Z.id.
    replace (n + k - n)%nat with k by lia.
    rewrite Hs2. now apply broadcast_to_same. }
  rewrite (bind_returns _ _ _ _ _
             (ndarray_setitem_rows_some _ _ _ _ _ _ _ _ _ _ _ _ _
                H1' Hs1' (slice_last_rows n k Hk) Hbc)).
  rewrite Z.max_r by lia. rewrite !Nat2Z.id.
  cbn [o1' with_array shape buf cls metadata dtype owndata quantity_id].
  rewrite (write_rows_tail _ _ _ _ _ Hb1).
  unfold ret. rewrite list_insert_insert_eq. reflexivity.
Qed.

(** Whatever the shapes, the block only changes [new]: it returns [new],
    keeps everything but the shape and the elements, and the first length
    of [new] becomes the sum of the two first lengths.  The memory is
    reallocated, so [new] owns its data unless no element is added.  When
    [other] is another object with at least one row, the new rows hold
    its data, broadcast to the rows of [new] and converted to the element
    type of [new]. *)
Lemma append_join_inv h new other h' r :
  append_join new other h = (h', Returns r) ->
  r = new /\
  exists o1 o2 n k tl b,
    h !! new = Some o1 /\ h !! other = Some o2 /\
    shape o1 = n :: tl /\ shape o2 !! 0%nat = Some k /\
    h' = <[new := with_array o1 ((n + k)%nat :: tl) b]> h /\
    (owndata o1 = true \/
     shape_size ((n + k)%nat :: tl) = shape_size (n :: tl)) /\
    (new <> other -> length (buf o1) = (n * shape_size tl)%nat ->
     (1 <= k)%nat ->
     exists src,
       broadcast_to (shape o2) (buf o2) (k :: tl) = Some src /\
       b = (buf o1 ++ (cast (dtype o1) <$> src))%list).
Proof.
  unfold append_join. intros E.
  apply bind_returns_inv in E as (? & n & E1 & E).
  apply shape_getitem_inv in E1 as (-> & o1 & H1 & Hn).
  apply bind_returns_inv in E as (? & k & E1 & E).
  apply shape_getitem_inv in E1 as (-> & o2 & H2 & Hk).
  apply bind_returns_inv in E as (? & s & E1 & E).
  apply shape_with_rows_inv in E1 as (-> & o1a & m & tl & H1a & Hs & ->).
  apply bind_returns_inv in E as (h1 & ? & E1 & E).
  apply ndarray_resize_inv in E1 as (o1b & H1b & -> & Hown).
  apply bind_returns_inv in E as (? & k' & E1 & E).
  apply shape_getitem_inv in E1 as (-> & o2' & H2' & Hk').
  apply bind_returns_inv in E as (? & src & E1 & E).
  apply deref_inv in E1 as (-> & Hsrc).
  apply bind_returns_inv in E as (h2 & ? & E1 & E).
  apply ndarray_setitem_rows_inv in E1
    as (o1c & n' & tl' & lo & hi & st & sr & H1c & Hs' & Hi & Hb & ->).
  apply ret_inv in E as [-> ->].
  assert (o1a = o1) by congruence. assert (o1b = o1) by congruence. subst.
  assert (m = n) by (rewrite Hs in Hn; now injection Hn). subst m.
  rewrite (lookup_insert_heap _ _ _ _ H1) in H1c. injection H1c as <-.
  cbn [with_array shape] in Hs'. injection Hs' as <- <-.
  split; [reflexivity|].
  eexists o1, o2, n, k, tl, _.
  split; [exact H1|]. split; [exact H2|]. split; [exact Hs|].
  split; [exact Hk|].
  split. { rewrite list_insert_insert_eq. reflexivity. }
  split. { rewrite Hs in Hown. exact Hown. }
  intros Hne Hlen Hk1.
  rewrite list_lookup_insert_ne in H2', Hsrc by exact Hne.
  assert (o2' = o2) by congruence. subst o2'.
  assert (k' = k) by congruence. subst k'.
  assert (src = o2) by congruence. subst src.
  rewrite (slice_last_rows n k Hk1) in Hi. injection Hi as <- <- <-.
  rewrite Z.max_r in Hb |- * by lia. rewrite !Nat2Z.id in Hb |- *.
  replace (n + k - n)%nat with k in Hb by lia.
  exists sr. split; [exact Hb|].
  cbn [with_array buf dtype]. rewrite (resize_buf_grow _ _ _ _ Hlen).
  apply write_rows_tail. exact Hlen.
Qed.

Lemma quantity_setitem_inv h l key x u h' r :
  quantity_setitem l key x u h = (h', Returns r) ->
  exists o, h !! l = Some o /\
            h' = <[l := with_quantity o key x u (fresh_id h)]> h.
Proof.
  unfold quantity_setitem. intros E.
  apply bind_returns_inv in E as (h1 & o & E1 & E2).
  apply deref_inv in E1 as [-> Hl].
  unfold bind, fresh, store in E2. inversion E2. eauto.
Qed.

Lemma axis_set_inv key (axis_unit : klass -> Unit) l v h h' r :
  axis_set key axis_unit l v h = (h', Returns r) ->
  exists o x, h !! l = Some o /\
    h' = <[l := with_quantity o key x (axis_unit (cls o)) (fresh_id h)]> h.
Proof.
  unfold axis_set. intros E.
  apply bind_returns_inv in E as (h1 & o & E1 & E).
  apply deref_inv in E1 as [-> Hl].
  destruct v; try (now apply raise_inv in E).
  - apply quantity_setitem_inv in E as (o' & Hl' & ->).
    assert (o' = o) by congruence. subst. eauto.
  - destruct (quantity_to x u (axis_unit (cls o)));
      [|now apply raise_inv in E].
    apply quantity_setitem_inv in E as (o' & Hl' & ->).
    assert (o' = o) by congruence. subst. eauto.
Qed.
Lemma append_raise_needs_df : needs_df Spectrogram_append_raise.
Proof.
  intros a b h h' r E.
  unfold Spectrogram_append_raise, Spectrogram_append_body in E.
  apply bind_returns_inv in E as (h1 & x & E1 & _).
  apply is_compatible_inv in E1
    as (o1 & o2 & _ & H2 & (_ & (? & v & _ & Hv & _) & _) & _).
  eauto.
Qed.

Lemma prepend_raise_needs_df : needs_df Spectrogram_prepend_raise.
Proof.
  intros a b h h' r E.
  unfold Spectrogram_prepend_raise, Spectrogram_prepend_body in E.
  apply bind_returns_inv in E as (h1 & x & E1 & _).
  apply is_compatible_inv in E1
    as (o1 & o2 & _ & H2 & (_ & (? & v & _ & Hv & _) & _) & _).
  eauto.
Qed.

(** The zero block is built with an epoch and a time step only, so a
    method that needs the frequency step of its argument does not return
    on it. *)
Lemma zero_block_rejected rec c gapshape from new h h' (u : unit) :
  needs_df rec ->
  (zeros <- zeros_view c gapshape ;;
   ns <- Spectrogram_span from ;;
   Spectrogram_epoch_set zeros (VFloat (snd ns)) ;;;
   dt <- Spectrogram_dt new ;;
   Spectrogram_dt_set zeros dt ;;;
   rec new zeros ;;;
   ret tt) h = (h', Returns u) -> False.
Proof.
  intros Hrec E.
  apply bind_returns_inv in E as (h1 & zeros & E1 & E).
  unfold zeros_view in E1. rewrite alloc_spec in E1.
  injection E1 as <- <-.
  apply bind_returns_inv in E as (? & ns & E1 & E).
  apply span_frame in E1 as ->.
  apply bind_returns_inv in E as (h2 & ? & E1 & E).
  unfold Spectrogram_epoch_set, Array_epoch_set in E1.
  apply metadata_setitem_inv in E1 as (z0 & Hz0 & ->).
  rewrite lookup_alloc_new in Hz0. injection Hz0 as <-.
  apply bind_returns_inv in E as (? & dt & E1 & E).
  apply reads_only_metadata_getitem in E1 as ->.
  apply bind_returns_inv in E as (h3 & ? & E1 & E).
  apply axis_set_inv in E1 as (z1 & w & Hz1 & ->).
  rewrite list_lookup_insert_eq in Hz1
    by (rewrite length_app; simpl; lia).
  injection Hz1 as <-.
  apply bind_returns_inv in E as (h4 & r & E1 & _).
  apply Hrec in E1 as (ob & v & Hob & Hv).
  rewrite list_lookup_insert_eq in Hob
    by (rewrite length_insert, length_app; simpl; lia).
  injection Hob as <-. simpl in Hv.
  rewrite !lookup_insert_ne in Hv by discriminate.
  now rewrite lookup_empty in Hv.
Qed.

(** A successful [# fill gap] block of [append] is a successful
    [is_contiguous] that found the two contiguous, or a gap that is
    ignored; the padding branch never completes. *)
Lemma append_fill_gap_inv rec new other gap h h' (u : unit) :
  needs_df rec ->
  append_fill_gap rec new other gap h = (h', Returns u) ->
  exists c, Spectrogram_is_contiguous new other h = (h', Returns c) /\
            (c = 1%Z \/ (c <> 1%Z /\ gap = "ignore")).
Proof.
  intros Hrec E. unfold append_fill_gap in E.
  apply bind_returns_inv in E as (h1 & c & E1 & E).
  exists c. destruct (decide (c <> 1%Z)) as [Hc|Hc].
  - destruct (decide (gap = "pad")) as [Hp|Hp].
    + exfalso.
      apply bind_returns_inv in E as (? & os & X & E).
      apply span_frame in X as ->.
      apply bind_returns_inv in E as (? & ns & X & E).
      apply span_frame in X as ->.
      apply bind_returns_inv in E as (? & dt & X & E).
      apply reads_only_metadata_getitem in X as ->.
      apply bind_returns_inv in E as (? & d & X & E).
      apply reads_only_quantity_value in X as ->.
      destruct (Qeq_bool d 0); [now apply raise_inv in E|].
      destruct (negb _); [now apply raise_inv in E|].
      apply bind_returns_inv in E as (? & gs & X & E).
      apply shape_with_rows_inv in X as (-> & _).
      apply bind_returns_inv in E as (? & o & X & E).
      apply deref_inv in X as (-> & _).
      eapply zero_block_rejected; eauto.
    + destruct (decide (gap = "ignore")) as [Hi|Hi].
      * apply ret_inv in E as [-> _]. auto.
      * now apply raise_inv in E.
  - apply ret_inv in E as [-> _]. split; [exact E1|]. left.
    destruct (decide (c = 1%Z)); [assumption|contradiction].
Qed.

Lemma prepend_fill_gap_inv rec new other gap h h' (u : unit) :
  needs_df rec ->
  prepend_fill_gap rec new other gap h = (h', Returns u) ->
  exists c, Spectrogram_is_contiguous new other h = (h', Returns c) /\
            (c = (-1)%Z \/ (c <> (-1)%Z /\ gap = "ignore")).
Proof.
  intros Hrec E. unfold prepend_fill_gap in E.
  apply bind_returns_inv in E as (h1 & c & E1 & E).
  exists c. destruct (decide (c <> (-1)%Z)) as [Hc|Hc].
  - destruct (decide (gap = "pad")) as [Hp|Hp].
    + exfalso.
      apply bind_returns_inv in E as (? & ns & X & E).
      apply span_frame in X as ->.
      apply bind_returns_inv in E as (? & os & X & E).
      apply span_frame in X as ->.
      apply bind_returns_inv in E as (? & dt & X & E).
      apply reads_only_metadata_getitem in X as ->.
      apply bind_returns_inv in E as (? & d & X & E).
      apply reads_only_quantity_value in X as ->.
      destruct (Qeq_bool d 0); [now apply raise_inv in E|].
      destruct (decide _); [now apply raise_inv in E|].
      apply bind_returns_inv in E as (? & gs & X & E).
      apply shape_with_rows_inv in X as (-> & _).
      apply bind_returns_inv in E as (? & o & X & E).
      apply deref_inv in X as (-> & _).
      eapply zero_block_rejected; eauto.
    + destruct (decide (gap = "ignore")) as [Hi|Hi].
      * apply ret_inv in E as [-> _]. auto.
      * now apply raise_inv in E.
  - apply ret_inv in E as [-> _]. split; [exact E1|]. left.
    destruct (decide (c = (-1)%Z)); [assumption|contradiction].
Qed.


Lemma checked_lookup_fixed a b (h : heap) l o :
  h !! l = Some o -> init_unit o = o -> checked a b h !! l = Some o.
Proof.
  intros Hl Hi. unfold checked.
  destruct (init_unit_at_lookup a l h o Hl) as [E|E];
    rewrite ?Hi in E;
    destruct (init_unit_at_lookup b l _ o E) as [E'|E'];
    rewrite ?Hi in E'; exact E'.
Qed.

(** The contiguity test on a store that has been checked already. *)
Lemma is_contiguous_checked h self other o1 o2 s1 s2 :
  h !! self = Some o1 -> h !! other = Some o2 -> compatible o1 o2 ->
  span_view o1 = Some s1 -> span_view o2 = Some s2 ->
  Spectrogram_is_contiguous self other (checked self other h) =
    (checked self other h,
     Returns (if Qeq_bool (snd s1) (fst s2) then 1%Z
              else if Qeq_bool (snd s2) (fst s1) then (-1)%Z else 0%Z)).
Proof.
  intros H1 H2 Hc Hs1 Hs2.
  pose proof (checked_lookup_self self other h o1 H1) as H1'.
  pose proof (checked_lookup_other self other h o2 H2) as H2'.
  assert (Hc' : compatible (init_unit o1) (init_unit o2))
    by now apply compatible_init_unit_l, compatible_init_unit_r.
  rewrite <- span_view_init_unit in Hs1, Hs2.
  rewrite (is_contiguous_returns _ _ _ _ _ _ _ H1' H2' Hc' Hs1 Hs2).
  now rewrite checked_idem.
Qed.

(** Let [self] be a spectrogram that owns its data (a copy, or one built
    with [copy=True]) and [other] another spectrogram with the same
    number of frequency bins and at least one row.  Under [gap='raise'],
    when they are compatible and the span of [self] ends where the span of
    [other] starts, [self.append(other)] returns [self], which then holds
    the samples of [self] followed by those of [other] (converted to the
    element type of [self]) and spans from the start of [self] over the
    rows of both.  When they are compatible and the two spans do not touch
    in this way, the call raises the error for a discontiguous
    spectrogram.  The call returns only if the two are compatible and
    contiguous. *)
Theorem append_raise_joins_contiguous (h : heap) (self other : loc)
    (o1 o2 : ndobj) (n k : nat) (tl : list nat)
    (e1 e2 dt1 dt2 f1 f2 g1 g2 : Q) :
  h !! self = Some o1 -> h !! other = Some o2 -> self <> other ->
  owndata o1 = true ->
  is_spectrogram o1 n tl e1 dt1 f1 g1 ->
  is_spectrogram o2 k tl e2 dt2 f2 g2 ->
  (1 <= k)%nat ->
  (compatible o1 o2 -> (e1 + inject_Z (Z.of_nat n) * dt1 == e2)%Q ->
   let joined :=
     with_array (init_unit o1) ((n + k)%nat :: tl)
                (buf o1 ++ (cast (dtype o1) <$> buf o2)) in
   let h' := <[self := joined]> (checked self other h) in
   Spectrogram_append self other "raise" true h = (h', Returns self) /\
   Spectrogram_span self h'
     = (h', Returns (e1, e1 + inject_Z (Z.of_nat (n + k)) * dt1)%Q)) /\
  (compatible o1 o2 -> ~ (e1 + inject_Z (Z.of_nat n) * dt1 == e2)%Q ->
   Spectrogram_append self other "raise" true h
     = (checked self other h,
        Raises (ValueError "Cannot append discontiguous Spectrogram"))) /\
  (forall h' r,
     Spectrogram_append self other "raise" true h = (h', Returns r) ->
     compatible o1 o2 /\ (e1 + inject_Z (Z.of_nat n) * dt1 == e2)%Q).
Proof.
  intros H1 H2 Hne Hown Hsp1 Hsp2 Hk.
  pose proof (span_view_spectrogram _ _ _ _ _ _ _ Hsp1) as Hs1.
  pose proof (span_view_spectrogram _ _ _ _ _ _ _ Hsp2) as Hs2.
  pose proof (checked_lookup_self self other h o1 H1) as H1'.
  pose proof (checked_lookup_other self other h o2 H2) as H2'.
  rewrite <- (init_unit_owndata o1) in Hown.
  split; [|split].
  - intros Hc Hcont. cbv zeta. split.
    + unfold Spectrogram_append, Spectrogram_append_body.
      rewrite (bind_returns _ _ _ _ _
                 (is_compatible_returns _ _ _ _ _ H1 H2 Hc)).
      rewrite (bind_returns _ _ _ _ _ (eq_refl : ret self _ = _)).
      assert (Hgap : append_fill_gap Spectrogram_append_raise self other
                       "raise" (checked self other h)
                     = (checked self other h, Returns tt)).
      { unfold append_fill_gap.
        rewrite (bind_returns _ _ _ _ _
                   (is_contiguous_checked _ _ _ _ _ _ _ H1 H2 Hc Hs1 Hs2)).
        cbn [fst snd]. apply Qeq_bool_iff in Hcont. rewrite Hcont.
        now rewrite decide_False by auto. }
      rewrite (bind_returns _ _ _ _ _ Hgap).
      destruct Hsp1 as (_ & Hsh1 & Hb1 & _).
      destruct Hsp2 as (_ & Hsh2 & Hb2 & _).
      rewrite <- init_unit_shape in Hsh1, Hsh2.
      rewrite <- init_unit_buf in Hb1, Hb2.
      rewrite (append_join_rows _ _ _ _ _ _ _ _
                 H1' H2' Hne Hown Hsh1 Hsh2 Hb1 Hb2 Hk).
      now rewrite !init_unit_buf, init_unit_dtype.
    + eapply span_returns; [eapply lookup_insert_heap, H1'|].
      apply is_spectrogram_init_unit in Hsp1.
      destruct Hsp1 as (_ & _ & _ & He & Hd & _).
      unfold span_view, with_array. cbn [metadata shape].
      now rewrite He, Hd.
  - intros Hc Hcont.
    unfold Spectrogram_append, Spectrogram_append_body.
    rewrite (bind_returns _ _ _ _ _
               (is_compatible_returns _ _ _ _ _ H1 H2 Hc)).
    rewrite (bind_returns _ _ _ _ _ (eq_refl : ret self _ = _)).
    apply bind_raises. unfold append_fill_gap.
    rewrite (bind_returns _ _ _ _ _
               (is_contiguous_checked _ _ _ _ _ _ _ H1 H2 Hc Hs1 Hs2)).
    cbn [fst snd].
    destruct (Qeq_bool (e1 + inject_Z (Z.of_nat n) * dt1) e2) eqn:X.
    { apply Qeq_bool_iff in X. contradiction. }
    destruct (Qeq_bool (e2 + inject_Z (Z.of_nat k) * dt2) e1);
      (destruct (decide (_ <> 1%Z)) as [_|X']; [reflexivity|]);
      exfalso; apply X'; lia.
  - intros h' r E.
    unfold Spectrogram_append, Spectrogram_append_body in E.
    apply bind_returns_inv in E as (hc & b & E1 & E).
    apply is_compatible_inv in E1 as (o1' & o2' & X1 & X2 & Hc & _ & ->).
    assert (o1' = o1) by congruence. assert (o2' = o2) by congruence. subst.
    split; [exact Hc|].
    apply bind_returns_inv in E as (? & new & E1 & E).
    apply ret_inv in E1 as [-> ->].
    apply bind_returns_inv in E as (h2 & u & E1 & _).
    apply (append_fill_gap_inv _ _ _ _ _ _ _ append_raise_needs_df) in E1
      as (c & Ec & [->|[_ Hg]]); [|discriminate].
    rewrite (is_contiguous_checked _ _ _ _ _ _ _ H1 H2 Hc Hs1 Hs2) in Ec.
    cbn [fst snd] in Ec.
    destruct (Qeq_bool (e1 + inject_Z (Z.of_nat n) * dt1) e2) eqn:X.
    + now apply Qeq_bool_iff in X.
    + destruct (Qeq_bool _ _) in Ec; discriminate.
Qed.

(** With [gap='pad'] a gap is never filled: when [append] or [prepend]
    returns, the spans were contiguous already. *)
Lemma pad_returns_only_when_contiguous (h : heap) (self other : loc)
    (inplace : bool) (h' : heap) (r : loc) :
  (Spectrogram_append self other "pad" inplace h = (h', Returns r) ->
   exists hc new h2,
     Spectrogram_is_contiguous new other hc = (h2, Returns 1%Z)) /\
  (Spectrogram_prepend self other "pad" inplace h = (h', Returns r) ->
   exists hc new h2,
     Spectrogram_is_contiguous new other hc = (h2, Returns (-1)%Z)).
Proof.
  split; intros E.
  - unfold Spectrogram_append, Spectrogram_append_body in E.
    apply bind_returns_inv in E as (hc & b & _ & E).
    apply bind_returns_inv in E as (h1 & new & _ & E).
    apply bind_returns_inv in E as (h2 & u & E1 & _).
    apply (append_fill_gap_inv _ _ _ _ _ _ _ append_raise_needs_df) in E1
      as (c & Ec & [->|[_ Hg]]); [eauto|discriminate].
  - unfold Spectrogram_prepend, Spectrogram_prepend_body in E.
    apply bind_returns_inv in E as (hc & b & _ & E).
    apply bind_returns_inv in E as (h1 & new & _ & E).
    apply bind_returns_inv in E as (h2 & u & E1 & _).
    apply (prepend_fill_gap_inv _ _ _ _ _ _ _ prepend_raise_needs_df) in E1
      as (c & Ec & [->|[_ Hg]]); [eauto|discriminate].
Qed.


Lemma ndarray_first_rows_inv h l n h' hd :
  ndarray_first_rows l n h = (h', Returns hd) ->
  h' = h /\
  exists o m tl, h !! l = Some o /\ shape o = m :: tl /\
    hd = (Nat.min n m :: tl, take (Nat.min n m * shape_size tl) (buf o)).
Proof.
  unfold ndarray_first_rows. intros E.
  apply bind_returns_inv in E as (h1 & o & E1 & E2).
  apply deref_inv in E1 as [-> Hl].
  destruct (shape o) as [|m tl] eqn:Hs; [now apply raise_inv in E2|].
  apply ret_inv in E2 as [-> ->]. eauto 10.
Qed.

Lemma slice_first_rows (n k : nat) :
  slice_indices None (Some (Z.of_nat k)) None (Z.of_nat (n + k))
    = Some (0%Z, Z.of_nat k, 1%Z).
Proof.
  unfold slice_indices. cbn [default].
  repeat case_decide; try lia. do 3 f_equal. lia.
Qed.

(** The two assignments of [prepend] on the resized buffer [R] of
    [n + k] rows: the old rows go to the end, the rows [src] to the
    front. *)
Lemma write_rows_front (sz n k : nat) (R own src : list Q) :
  length R = ((n + k) * sz)%nat ->
  write_rows sz (Z.to_nat 0) k
    (write_rows sz k (k + n) R own) src
  = (src ++ own)%list.
Proof.
  intros LR. unfold write_rows. change (Z.to_nat 0 * sz)%nat with 0%nat.
  rewrite take_0. cbn [app]. f_equal.
  rewrite (drop_ge R) by lia. rewrite app_nil_r.
  rewrite drop_app_length'; [reflexivity|].
  rewrite length_take. lia.
Qed.

(** The block [# resize first] of [prepend], whatever the shapes: as for
    [append], and when [new] has rows and [other] is another object with
    at least one row, the rows of [other] come first and the old rows of
    [new] last, both converted to the element type of [new]. *)
Lemma prepend_join_inv h new other h' r :
  prepend_join new other h = (h', Returns r) ->
  r = new /\
  exists o1 o2 n k tl b,
    h !! new = Some o1 /\ h !! other = Some o2 /\
    shape o1 = n :: tl /\ shape o2 !! 0%nat = Some k /\
    h' = <[new := with_array o1 ((n + k)%nat :: tl) b]> h /\
    (owndata o1 = true \/
     shape_size ((n + k)%nat :: tl) = shape_size (n :: tl)) /\
    (new <> other -> length (buf o1) = (n * shape_size tl)%nat ->
     (1 <= n)%nat /\ (1 <= k)%nat ->
     exists src,
       broadcast_to (shape o2) (buf o2) (k :: tl) = Some src /\
       b = ((cast (dtype o1) <$> src)
            ++ (cast (dtype o1) <$> buf o1))%list).
Proof.
  unfold prepend_join. intros E.
  apply bind_returns_inv in E as (? & n' & E1 & E).
  apply shape_getitem_inv in E1 as (-> & o1' & H1' & Hn').
  apply bind_returns_inv in E as (? & n & E1 & E).
  apply shape_getitem_inv in E1 as (-> & o1 & H1 & Hn).
  apply bind_returns_inv in E as (? & k & E1 & E).
  apply shape_getitem_inv in E1 as (-> & o2 & H2 & Hk).
  apply bind_returns_inv in E as (? & s & E1 & E).
  apply shape_with_rows_inv in E1 as (-> & o1a & m & tl & H1a & Hs & ->).
  apply bind_returns_inv in E as (h1 & ? & E1 & E).
  apply ndarray_resize_inv in E1 as (o1b & H1b & -> & Hown).
  apply bind_returns_inv in E as (? & head & E1 & E).
  apply ndarray_first_rows_inv in E1
    as (-> & oh & mh & tlh & Hh & Hsh & ->).
  apply bind_returns_inv in E as (h2 & ? & E1 & E).
  apply ndarray_setitem_rows_inv in E1
    as (o1c & nc & tlc & lo1 & hi1 & st1 & src1 & H1c & Hsc & Hi1 & Hb1 & ->).
  apply bind_returns_inv in E as (? & k' & E1 & E).
  apply shape_getitem_inv in E1 as (-> & o2' & H2' & Hk').
  apply bind_returns_inv in E as (? & src & E1 & E).
  apply deref_inv in E1 as (-> & Hsrc).
  apply bind_returns_inv in E as (h3 & ? & E1 & E).
  apply ndarray_setitem_rows_inv in E1
    as (o1d & nd & tld & lo2 & hi2 & st2 & src2 & H1d & Hsd & Hi2 & Hb2 & ->).
  apply ret_inv in E as [-> ->].
  assert (o1' = o1) by congruence. assert (o1a = o1) by congruence.
  assert (o1b = o1) by congruence. subst.
  assert (m = n) by (rewrite Hs in Hn; now injection Hn). subst m.
  assert (n' = n) by congruence. subst n'.
  rewrite (lookup_insert_heap _ _ _ _ H1) in Hh, H1c.
  injection Hh as <-. injection H1c as <-.
  cbn [with_array shape] in Hsh, Hsc. injection Hsh as <- <-.
  injection Hsc as <- <-.
  rewrite (lookup_insert_heap _ _ _ _ (lookup_insert_heap _ _ _ _ H1)) in H1d.
  injection H1d as <-.
  cbn [with_array shape] in Hsd. injection Hsd as <- <-.
  split; [reflexivity|].
  eexists o1, o2, n, k, tl, _.
  split; [exact H1|]. split; [exact H2|]. split; [exact Hs|].
  split; [exact Hk|].
  split. { rewrite !list_insert_insert_eq. reflexivity. }
  split. { rewrite Hs in Hown. exact Hown. }
  intros Hne Hlen [Hn1 Hk1].
  rewrite !list_lookup_insert_ne in H2', Hsrc by exact Hne.
  assert (o2' = o2) by congruence. subst o2'.
  assert (k' = k) by congruence. subst k'.
  assert (src = o2) by congruence. subst src.
  cbn [with_array buf dtype shape fst snd] in *.
  rewrite (resize_buf_grow _ _ _ _ Hlen) in *.
  set (sz := shape_size tl) in *.
  set (R := (buf o1 ++ replicate (k * sz) 0%Q)%list) in *.
  assert (LR : length R = ((n + k) * sz)%nat).
  { unfold R. rewrite length_app, length_replicate, Hlen. lia. }
  replace (Nat.min n (n + k)) with n in Hb1 by lia.
  assert (Hhead : take (n * sz) R = buf o1)
    by (unfold R; now rewrite take_app_length' by (symmetry; exact Hlen)).
  rewrite Hhead in Hb1.
  assert (Hi1' : slice_indices (Some (- Z.of_nat n)%Z) None None
                   (Z.of_nat (n + k))
                 = Some (Z.of_nat k, Z.of_nat (k + n), 1%Z)).
  { replace (n + k)%nat with (k + n)%nat by lia.
    now apply slice_last_rows. }
  rewrite Hi1' in Hi1. injection Hi1 as <- <- <-.
  rewrite (slice_first_rows n k) in Hi2. injection Hi2 as <- <- <-.
  rewrite Z.max_r in Hb1 by lia. rewrite !Nat2Z.id in Hb1.
  replace (k + n - k)%nat with n in Hb1 by lia.
  rewrite broadcast_to_same in Hb1 by exact Hlen. injection Hb1 as <-.
  rewrite Z.max_r in Hb2 by lia. rewrite Nat2Z.id in Hb2.
  replace (k - Z.to_nat 0)%nat with k in Hb2 by lia.
  rewrite !Z.max_r by lia. rewrite !Nat2Z.id.
  exists src2. split; [exact Hb2|].
  now apply write_rows_front.
Qed.

Lemma Array_copy_inv h self h' new :
  Array_copy self h = (h', Returns new) ->
  exists o, h !! self = Some o /\
            h' = (h ++ [copy_as o (fresh_id h)])%list /\ new = length h.
Proof.
  unfold Array_copy. intros E.
  apply bind_returns_inv in E as (h1 & o & E1 & E).
  apply deref_inv in E1 as [-> Hl].
  unfold bind, fresh in E. rewrite alloc_spec in E.
  injection E as <- <-. eauto.
Qed.

Lemma init_unit_copy_as o i :
  init_unit (copy_as (init_unit o) i) = copy_as (init_unit o) i.
Proof.
  apply (init_unit_set _ (unit_of o)). cbn [copy_as metadata].
  apply init_unit_lookup_unit.
Qed.

(** What a successful [append] or [prepend] has done before its block
    [# resize first], for either value of [inplace]: the compatibility
    check, the copy when one is asked for, and a contiguity test that
    changes nothing any more. *)
Lemma join_body_inv (fill : loc -> loc -> string -> M unit)
    (join : loc -> loc -> M loc) (h : heap) (self other : loc)
    (gap : string) (inplace : bool) (h' : heap) (r : loc) (o : ndobj) :
  (forall new other gap h h' u,
     fill new other gap h = (h', Returns u) ->
     exists c, Spectrogram_is_contiguous new other h = (h', Returns c)) ->
  h !! self = Some o ->
  (Spectrogram_is_compatible self other ;;;
   new <- (if inplace then ret self else Array_copy self) ;;
   fill new other gap ;;;
   join new other) h = (h', Returns r) ->
  exists o2,
    h !! other = Some o2 /\ compatible o o2 /\
    join (if inplace then self else length h) other
         (if inplace then checked self other h
          else (checked self other h
                ++ [copy_as (init_unit o)
                      (fresh_id (checked self other h))])%list)
    = (h', Returns r).
Proof.
  intros Hfill Hself E.
  apply bind_returns_inv in E as (hc & b & E1 & E).
  apply is_compatible_inv in E1 as (o1 & o2 & X1 & X2 & Hc & _ & ->).
  assert (o1 = o) by congruence. subst o1.
  pose proof (checked_lookup_self self other h o X1) as H1c.
  pose proof (checked_lookup_other self other h o2 X2) as H2c.
  apply bind_returns_inv in E as (h1 & new & E1 & E).
  apply bind_returns_inv in E as (h2 & u & E2 & E).
  apply Hfill in E2 as (c & Ec).
  apply is_contiguous_inv in Ec as (_ & _ & _ & _ & _ & _ & _ & _ & _ & -> & _).
  exists o2. split; [exact X2|]. split; [exact Hc|].
  destruct inplace.
  - apply ret_inv in E1 as [-> ->]. now rewrite checked_idem in E.
  - apply Array_copy_inv in E1 as (oc & Hoc & -> & ->).
    assert (oc = init_unit o) by congruence. subst oc.
    rewrite checked_length in E. rewrite checked_id in E; [exact E| |].
    + intros x Hx. rewrite <- (checked_length self other h) in Hx.
      rewrite lookup_alloc_new in Hx. injection Hx as <-.
      apply init_unit_copy_as.
    + intros x Hx. rewrite (lookup_alloc_old _ _ _ _ H2c) in Hx.
      injection Hx as <-. apply init_unit_idem.
Qed.

Lemma append_fill_gap_tests new other gap h h' (u : unit) :
  append_fill_gap Spectrogram_append_raise new other gap h
    = (h', Returns u) ->
  exists c, Spectrogram_is_contiguous new other h = (h', Returns c).
Proof.
  intros E.
  apply (append_fill_gap_inv _ _ _ _ _ _ _ append_raise_needs_df) in E
    as (c & Ec & _).
  eauto.
Qed.

Lemma prepend_fill_gap_tests new other gap h h' (u : unit) :
  prepend_fill_gap Spectrogram_prepend_raise new other gap h
    = (h', Returns u) ->
  exists c, Spectrogram_is_contiguous new other h = (h', Returns c).
Proof.
  intros E.
  apply (prepend_fill_gap_inv _ _ _ _ _ _ _ prepend_raise_needs_df) in E
    as (c & Ec & _).
  eauto.
Qed.

Lemma max_quantity_id_ge o key i :
  quantity_id o !! key = Some i -> (i <= max_quantity_id o)%nat.
Proof.
  intros E. unfold max_quantity_id. apply max_list_elem_of_le.
  apply list_elem_of_fmap. exists (key, i). split; [reflexivity|].
  now apply elem_of_map_to_list.
Qed.

(** No [Quantity] of the store has the identity [fresh_id]. *)
Lemma fresh_id_gt (h : heap) l o key i :
  h !! l = Some o -> quantity_id o !! key = Some i -> (i < fresh_id h)%nat.
Proof.
  intros Hl Hk. unfold fresh_id. apply Nat.lt_succ_r.
  etransitivity; [eapply max_quantity_id_ge, Hk|].
  apply max_list_elem_of_le. apply list_elem_of_fmap.
  exists o. split; [reflexivity|]. eapply list_elem_of_lookup_2, Hl.
Qed.
End Joining.


(** ** Setters, getters and deleters *)

Section Accessors.
Context {U : UnitAlgebra} {NP : NumpyPower} {PF : PythonFloat}.

Lemma metadata_setitem_total h l key v :
  metadata_setitem l key v h =
    match h !! l with
    | Some o => (<[l := with_metadata o key v]> h, Returns tt)
    | None => (h, Raises (SystemError "dangling reference"))
    end.
Proof.
  destruct (h !! l) as [o|] eqn:Hl.
  - now apply metadata_setitem_some.
  - unfold metadata_setitem, bind, deref. now rewrite Hl.
Qed.

Lemma metadata_getitem_after_set (h : heap) l o key v :
  h !! l = Some o ->
  metadata_getitem l key (<[l := with_metadata o key v]> h)
    = (<[l := with_metadata o key v]> h, Returns v).
Proof.
  intros Hl. eapply metadata_getitem_some.
  - eapply lookup_insert_heap, Hl.
  - simpl. apply lookup_insert_eq.
Qed.

(** The unit setter stores [None] or a unit object and nothing else: text
    is stored as the unit it parses to.  A read after a successful
    assignment returns what was stored; a failed assignment changes
    nothing. *)
Theorem unit_setter_stores_unit_objects (self : loc) (val : pyval)
    (h : heap) :
  match Array_unit_set self val h with
  | (h', Returns _) =>
      exists o w,
        h !! self = Some o /\
        h' = <[self := with_metadata o "unit" w]> h /\
        (w = VNone \/ exists u, w = VUnit u) /\
        (forall s, val = VStr s ->
                   exists u, Unit_new (UText s) = Some u /\ w = VUnit u) /\
        Array_unit self h' = (h', Returns w)
  | (h', Raises _) => h' = h
  end.
Proof.
  assert (Hget : forall o w, h !! self = Some o ->
            Array_unit self (<[self := with_metadata o "unit" w]> h)
            = (<[self := with_metadata o "unit" w]> h, Returns w)).
  { intros o w Hl. eapply Array_unit_set_already.
    - eapply lookup_insert_heap, Hl.
    - simpl. apply lookup_insert_eq. }
  unfold Array_unit_set.
  destruct val as [|s|b|x|u|x u|g|c]; try reflexivity.
  - rewrite metadata_setitem_total.
    destruct (h !! self) as [o|] eqn:Hl; [|reflexivity].
    exists o, VNone. repeat split; auto. discriminate.
  - destruct (Unit_new (UText s)) as [u|] eqn:Hu; [|reflexivity].
    rewrite metadata_setitem_total.
    destruct (h !! self) as [o|] eqn:Hl; [|reflexivity].
    exists o, (VUnit u). repeat split; eauto.
    intros s' [= <-]. eauto.
  - destruct (Unit_new (UNumber x)) as [u|] eqn:Hu; [|reflexivity].
    rewrite metadata_setitem_total.
    destruct (h !! self) as [o|] eqn:Hl; [|reflexivity].
    exists o, (VUnit u). repeat split; eauto. discriminate.
  - rewrite metadata_setitem_total.
    destruct (h !! self) as [o|] eqn:Hl; [|reflexivity].
    exists o, (VUnit u). repeat split; eauto. discriminate.
Qed.

(** The epoch setter stores a bare GPS number, whatever it is given: the
    [gps] of a [Time], the [value] of a [Quantity], a number or a flag as
    a float, and for text the number that [float] reads from it.  The
    getter then returns the [Time] at that GPS value.  A failed
    assignment changes nothing, and text fails only when [float] rejects
    it. *)
Theorem epoch_setter_stores_gps (self : loc) (val : pyval) (h : heap) :
  match Array_epoch_set self val h with
  | (h', Returns _) =>
      exists o x,
        h !! self = Some o /\
        h' = <[self := with_metadata o "epoch" (VFloat x)]> h /\
        (val = VTime x \/ (exists u, val = VQuantity x u) \/ val = VFloat x \/
         (exists b : bool, val = VBool b /\ x = (if b then 1 else 0)%Q) \/
         (exists s, val = VStr s /\ float_of_text s = Some x)) /\
        Array_epoch self h' = (h', Returns (VTime x))
  | (h', Raises _) =>
      h' = h /\
      (forall s, val = VStr s -> is_Some (h !! self) ->
                 float_of_text s = None)
  end.
Proof.
  assert (Hget : forall o x, h !! self = Some o ->
            Array_epoch self (<[self := with_metadata o "epoch" (VFloat x)]> h)
            = (<[self := with_metadata o "epoch" (VFloat x)]> h,
               Returns (VTime x))).
  { intros o x Hl. eapply Array_epoch_some.
    - eapply lookup_insert_heap, Hl.
    - simpl. apply lookup_insert_eq.
    - reflexivity. }
  assert (Hset : forall x,
            (val = VTime x \/ (exists u, val = VQuantity x u) \/
             val = VFloat x \/
             (exists b : bool, val = VBool b /\ x = (if b then 1 else 0)%Q) \/
             (exists s, val = VStr s /\ float_of_text s = Some x)) ->
            match metadata_setitem self "epoch" (VFloat x) h with
            | (h', Returns _) =>
                exists o x,
                  h !! self = Some o /\
                  h' = <[self := with_metadata o "epoch" (VFloat x)]> h /\
                  (val = VTime x \/ (exists u, val = VQuantity x u) \/
                   val = VFloat x \/
                   (exists b : bool,
                      val = VBool b /\ x = (if b then 1 else 0)%Q) \/
                   (exists s, val = VStr s /\ float_of_text s = Some x)) /\
                  Array_epoch self h' = (h', Returns (VTime x))
            | (h', Raises _) =>
                h' = h /\
                (forall s, val = VStr s -> is_Some (h !! self) ->
                           float_of_text s = None)
            end).
  { intros x Hval. rewrite metadata_setitem_total.
    destruct (h !! self) as [o|] eqn:Hl.
    - exists o, x. auto.
    - split; [reflexivity|]. now intros s _ [? ?]. }
  unfold Array_epoch_set.
  destruct val as [|s|b|x|u|x u|g|c];
    try (split; [reflexivity|discriminate]);
    try (apply Hset; eauto 10; fail).
  destruct (float_of_text s) as [x|] eqn:Hs.
  - apply Hset. eauto 10.
  - split; [reflexivity|]. now intros s' [= <-] _.
Qed.

Lemma metadata_getitem_after_quantity (h : heap) l o key x u i :
  h !! l = Some o ->
  metadata_getitem l key (<[l := with_quantity o key x u i]> h)
    = (<[l := with_quantity o key x u i]> h, Returns (VQuantity x u)).
Proof.
  intros Hl. eapply metadata_getitem_some.
  - eapply lookup_insert_heap, Hl.
  - simpl. apply lookup_insert_eq.
Qed.

(** The axis setters ([x0], [dx], [y0], [dy] are [axis_set] at their key
    and axis unit) store a quantity in the unit of the axis: a bare number
    is wrapped in it, a quantity is converted to it.  What is stored is a
    new object, which no metadata entry of the store held before.  The
    getter returns what was stored; a failed assignment changes
    nothing. *)
Theorem axis_setter_stores_axis_unit (key : string)
    (axis_unit : klass -> Unit) (self : loc) (val : pyval) (h : heap) :
  match axis_set key axis_unit self val h with
  | (h', Returns _) =>
      exists o x,
        h !! self = Some o /\
        h' = <[self := with_quantity o key x (axis_unit (cls o))
                         (fresh_id h)]> h /\
        (val = VFloat x \/
         exists y u, val = VQuantity y u /\
                     quantity_to y u (axis_unit (cls o)) = Some x) /\
        metadata_getitem self key h'
          = (h', Returns (VQuantity x (axis_unit (cls o)))) /\
        (forall l ol key', h !! l = Some ol ->
                           quantity_id ol !! key' <> Some (fresh_id h))
  | (h', Raises _) => h' = h
  end.
Proof.
  assert (Hnew : forall l ol key', h !! l = Some ol ->
                   quantity_id ol !! key' <> Some (fresh_id h)).
  { intros l ol key' Hl Hk. pose proof (fresh_id_gt _ _ _ _ _ Hl Hk). lia. }
  unfold axis_set, bind at 1, deref.
  destruct (h !! self) as [o|] eqn:Hl; [|reflexivity].
  destruct val as [|s|b|x|u|x u|g|c]; try reflexivity.
  - rewrite (quantity_setitem_some _ _ _ _ _ _ Hl).
    exists o, x. repeat split; auto.
    now apply metadata_getitem_after_quantity.
  - destruct (quantity_to x u (axis_unit (cls o))) as [x'|] eqn:Hq;
      [|reflexivity].
    rewrite (quantity_setitem_some _ _ _ _ _ _ Hl).
    exists o, x'. repeat split; eauto.
    now apply metadata_getitem_after_quantity.
Qed.

(** The deleters ([del g.x0] and the like): deleting a set key succeeds
    and the next read and the next delete raise [KeyError]; deleting an
    unset key raises and changes nothing. *)
Theorem axis_deleter_removes_key (key : string) (self : loc) (h : heap) :
  match metadata_delitem self key h with
  | (h', Returns _) =>
      (exists o v, h !! self = Some o /\ metadata o !! key = Some v) /\
      metadata_getitem self key h' = (h', Raises (KeyError key)) /\
      metadata_delitem self key h' = (h', Raises (KeyError key))
  | (h', Raises _) => h' = h
  end.
Proof.
  unfold metadata_delitem at 1. unfold bind, deref.
  destruct (h !! self) as [o|] eqn:Hl; [|reflexivity].
  destruct (metadata o !! key) as [v|] eqn:Hk; [|reflexivity].
  unfold store.
  set (o' := without_metadata o key).
  assert (Hl' : <[self := o']> h !! self = Some o')
    by (eapply lookup_insert_heap, Hl).
  assert (Hk' : metadata o' !! key = None) by apply lookup_delete_eq.
  split; [eauto|]. split.
  - now apply (metadata_getitem_none _ _ _ _ Hl').
  - unfold metadata_delitem.
    rewrite (bind_returns _ _ _ _ _ (deref_some _ _ _ Hl')).
    now rewrite Hk'.
Qed.

(** Once the key ['logx'] is in the metadata, no true value can be
    assigned to [logx]: the setter raises [AttributeError] and changes
    nothing.  A first read of an unset [logx] stores [False] and returns
    it, so after that read the flag cannot be switched on any more; on an
    object whose flag was never read or set, the assignment works. *)
Theorem logx_cannot_be_set_once_present (h : heap) (self : loc) (o : ndobj) :
  h !! self = Some o ->
  (forall v, is_Some (metadata o !! "logx") -> py_truthy v = true ->
     Array2D_logx_set self v h
       = (h, Raises (AttributeError
                       "'Array2D' object has no attribute 'metdata'"))) /\
  (metadata o !! "logx" = None ->
   let h' := <[self := with_metadata o "logx" (VBool false)]> h in
   Array2D_logx self h = (h', Returns (VBool false)) /\
   (forall v, py_truthy v = true ->
      Array2D_logx_set self v h'
        = (h', Raises (AttributeError
                         "'Array2D' object has no attribute 'metdata'"))) /\
   (forall v, py_truthy v = true ->
      Array2D_logx_set self v h
        = (<[self := with_metadata o "logx" (VBool true)]> h, Returns tt))).
Proof.
  intros Hl.
  assert (Hset : forall (h0 : heap) o0 v, h0 !! self = Some o0 ->
            is_Some (metadata o0 !! "logx") -> py_truthy v = true ->
            Array2D_logx_set self v h0
            = (h0, Raises (AttributeError
                             "'Array2D' object has no attribute 'metdata'"))).
  { intros h0 o0 v H0 Hk Hv. unfold Array2D_logx_set.
    rewrite (bind_returns _ _ _ _ _ (deref_some _ _ _ H0)).
    now rewrite Hv, bool_decide_eq_true_2. }
  split; [intros v; apply Hset, Hl|].
  intros Hk h'.
  assert (Hl' : h' !! self = Some (with_metadata o "logx" (VBool false)))
    by (eapply lookup_insert_heap, Hl).
  assert (Hfalse : Array2D_logx_set self (VBool false) h = (h', Returns tt)).
  { unfold Array2D_logx_set.
    rewrite (bind_returns _ _ _ _ _ (deref_some _ _ _ Hl)). simpl.
    now apply metadata_setitem_some. }
  split; [|split].
  - unfold Array2D_logx, except_KeyError.
    rewrite (metadata_getitem_none _ _ _ _ Hl Hk).
    rewrite (bind_returns _ _ _ _ _ Hfalse).
    unfold h'. now rewrite (metadata_getitem_after_set _ _ _ _ _ Hl).
  - intros v Hv. apply (Hset _ _ _ Hl'); [|exact Hv].
    simpl. rewrite lookup_insert_eq. eauto.
  - intros v Hv. unfold Array2D_logx_set.
    rewrite (bind_returns _ _ _ _ _ (deref_some _ _ _ Hl)).
    rewrite Hv, Hk. rewrite bool_decide_eq_false_2 by (intros [? [=]]).
    simpl. now apply metadata_setitem_some.
Qed.

End Accessors.


(** ** Powers and slices *)

Section PowersAndSlices.
Context {U : UnitAlgebra} {NP : NumpyPower} {PF : PythonFloat}.

Lemma with_metadata_twice o key v w :
  with_metadata (with_metadata o key v) key w = with_metadata o key w.
Proof.
  unfold with_metadata.
  cbn [cls dtype owndata shape buf metadata quantity_id].
  now rewrite insert_insert_eq, delete_delete_eq.
Qed.

Lemma with_metadata_init_unit o w :
  metadata o !! "unit" = None ->
  with_metadata (init_unit o) "unit" w = with_metadata o "unit" w.
Proof.
  intros Hk. unfold init_unit. rewrite Hk. apply with_metadata_twice.
Qed.

(** What [a ** y] and [a **= y] do once numpy has computed the power as
    an array of type [d] with the elements [b], whether the unit of [a] is
    set or not. *)
Lemma Array_pow_spec (h : heap) (self : loc) (o : ndobj) (u : Unit)
    (y : pynumber) (d : npdtype) (b : list Q) :
  h !! self = Some o -> unit_of o = VUnit u ->
  ndarray_power (dtype o) (buf o) y = Returns (d, b) ->
  exists h2,
    Array_pow self y None h = (h2, Returns (length h)) /\
    h2 !! length h
      = Some (with_metadata (view_as o d (shape o) b) "unit"
                (VUnit (unit_pow u (number_value y)))) /\
    h2 !! self = Some (init_unit o).
Proof.
  intros Hl Hu Hp.
  assert (Hne : self <> length h) by (apply lookup_lt_Some in Hl; lia).
  set (r := view_as o d (shape o) b).
  assert (Hold : (h ++ [r])%list !! self = Some o)
    by now apply lookup_alloc_old.
  set (h1 := init_unit_at self (h ++ [r])%list).
  assert (Hnew1 : h1 !! length h = Some r).
  { unfold h1. rewrite init_unit_at_lookup_ne by exact Hne.
    apply lookup_alloc_new. }
  exists (<[length h := with_metadata r "unit"
                          (VUnit (unit_pow u (number_value y)))]> h1).
  split; [|split].
  - unfold Array_pow.
    rewrite (bind_returns _ _ _ _ _ (deref_some _ _ _ Hl)).
    rewrite Hp, (bind_returns _ _ _ _ _ (lift_spec _ _)). cbn [fst snd].
    rewrite (bind_returns _ _ _ _ _ (alloc_spec _ _)). fold r.
    rewrite (bind_returns _ _ _ _ _ (Array_unit_spec _ _ _ Hold)).
    rewrite Hu. fold h1. unfold Array_unit_set.
    now rewrite (bind_returns _ _ _ _ _
                   (metadata_setitem_some _ _ _ _ _ Hnew1)).
  - eapply lookup_insert_heap, Hnew1.
  - rewrite list_lookup_insert_ne by auto.
    unfold h1. now rewrite init_unit_at_lookup_eq, Hold.
Qed.

Lemma Array_ipow_spec (h : heap) (self : loc) (o : ndobj) (u : Unit)
    (y : pynumber) (b : list Q) :
  h !! self = Some o -> unit_of o = VUnit u ->
  ndarray_power (dtype o) (buf o) y = Returns (dtype o, b) ->
  Array_ipow self y h
  = (<[self := with_metadata (init_unit (with_array o (shape o) b)) "unit"
                 (VUnit (unit_pow u (number_value y)))]> h,
     Returns self).
Proof.
  intros Hl Hu Hp. unfold Array_ipow.
  rewrite (bind_returns _ _ _ _ _ (deref_some _ _ _ Hl)).
  rewrite Hp, (bind_returns _ _ _ _ _ (lift_spec _ _)). cbn [fst snd].
  set (o1 := with_array o (shape o) b).
  assert (Hu1 : unit_of o1 = VUnit u) by exact Hu.
  assert (Hstore : store self o1 h = (<[self := o1]> h, Returns tt))
    by reflexivity.
  assert (Hl1 : <[self := o1]> h !! self = Some o1)
    by (eapply lookup_insert_heap, Hl).
  assert (Hl2 : <[self := init_unit o1]> h !! self = Some (init_unit o1))
    by (eapply lookup_insert_heap, Hl).
  assert (Hrest :
    (store self o1 ;;;
     u0 <- Array_unit self ;;
     match u0 with
     | VUnit u1 =>
         Array_unit_set self (VUnit (unit_pow u1 (number_value y))) ;;;
         ret self
     | _ => raise (TypeError "unsupported operand type(s) for ** or pow()")
     end) h
    = (<[self := with_metadata (init_unit o1) "unit"
                   (VUnit (unit_pow u (number_value y)))]> h,
       Returns self)).
  { rewrite (bind_returns _ _ _ _ _ Hstore).
    rewrite (bind_returns _ _ _ _ _ (Array_unit_spec _ _ _ Hl1)).
    rewrite Hu1, (init_unit_at_some _ _ _ Hl1), list_insert_insert_eq.
    unfold Array_unit_set.
    rewrite (bind_returns _ _ _ _ _ (metadata_setitem_some _ _ _ _ _ Hl2)).
    now rewrite list_insert_insert_eq. }
  destruct (dtype o); exact Hrest.
Qed.

(** [a **= y] and [a ** y] compute the same array whenever the power has
    the element type of [a], unit set or not: the first leaves it in [a]
    and returns [a], the second returns it as a new object.  That is so
    for a float array with any exponent (elements: numpy's power) and for
    an [int64] array with a non-negative integer [n] (elements: [x ^ n]
    reduced to the [int64] range).  The unit is the unit that a read of
    [a.unit] returns, raised to [y]; [a ** y] changes [a] only by that
    first read of its unit.  For an [int64] array and a float exponent
    the two differ: [a ** y] returns a float array, [a **= y] raises
    [TypeError] and changes nothing. *)
Theorem ipow_and_pow_agree (h : heap) (self : loc) (o : ndobj) (u : Unit)
    (y : pynumber) :
  h !! self = Some o -> unit_of o = VUnit u ->
  let agree (elem : Q -> Q) :=
    exists h1 h2 o1 o2,
      Array_ipow self y h = (h1, Returns self) /\
      h1 !! self = Some o1 /\
      Array_pow self y None h = (h2, Returns (length h)) /\
      h2 !! length h = Some o2 /\
      h2 !! self = Some (init_unit o) /\
      buf o1 = elem <$> buf o /\ buf o2 = elem <$> buf o /\
      dtype o1 = dtype o /\ dtype o2 = dtype o /\
      shape o1 = shape o /\ shape o2 = shape o /\
      cls o1 = cls o /\ cls o2 = cls o /\
      metadata o1
        = <["unit" := VUnit (unit_pow u (number_value y))]> (metadata o) /\
      metadata o2 = metadata o1 in
  (dtype o = float64 -> agree (fun x => float_power x (number_value y))) /\
  (forall n : Z, dtype o = int64 -> y = PInt n -> (0 <= n <= int64_max)%Z ->
     agree (fun x => inject_Z (wrap64 (py_int x ^ n)))) /\
  (forall x : Q, dtype o = int64 -> y = PFloat x ->
     Array_ipow self y h
       = (h, Raises (TypeError
                       "Cannot cast ufunc 'power' output to dtype('int64')")) /\
     exists h2 o2,
       Array_pow self y None h = (h2, Returns (length h)) /\
       h2 !! length h = Some o2 /\ dtype o2 = float64 /\
       buf o2 = (fun x0 => float_power x0 x) <$> buf o).
Proof.
  intros Hl Hu agree.
  assert (Hagree : forall elem,
            ndarray_power (dtype o) (buf o) y
              = Returns (dtype o, elem <$> buf o) ->
            agree elem).
  { intros elem Hp.
    destruct (Array_pow_spec h self o u y _ _ Hl Hu Hp)
      as (h2 & E2 & Hnew & Hold).
    eexists _, h2, _, _.
    split; [apply (Array_ipow_spec h self o u y _ Hl Hu Hp)|].
    split; [eapply lookup_insert_heap, Hl|].
    split; [exact E2|]. split; [exact Hnew|]. split; [exact Hold|].
    split; [exact (init_unit_buf _)|]. split; [reflexivity|].
    split; [exact (init_unit_dtype _)|]. split; [reflexivity|].
    split; [exact (init_unit_shape _)|]. split; [reflexivity|].
    split; [exact (init_unit_cls _)|]. split; [reflexivity|].
    cbn [with_metadata metadata view_as].
    assert (Hm : <["unit" := VUnit (unit_pow u (number_value y))]>
                   (metadata (init_unit (with_array o (shape o)
                                           (elem <$> buf o))))
                 = <["unit" := VUnit (unit_pow u (number_value y))]>
                     (metadata o)).
    { unfold init_unit. cbn [with_array metadata].
      destruct (metadata o !! "unit"); [reflexivity|].
      cbn [with_metadata metadata with_array]. apply insert_insert_eq. }
    now rewrite Hm. }
  split; [|split].
  - intros Hd. apply Hagree. unfold ndarray_power. rewrite Hd.
    now destruct y.
  - intros n Hd -> [Hn Hmax]. apply Hagree. unfold ndarray_power.
    rewrite Hd. rewrite decide_True by (unfold int64_min; lia).
    now rewrite decide_False by lia.
  - intros x Hd ->. split.
    + unfold Array_ipow.
      rewrite (bind_returns _ _ _ _ _ (deref_some _ _ _ Hl)).
      unfold ndarray_power. rewrite Hd.
      now rewrite (bind_returns _ _ _ _ _ (lift_spec _ _)).
    + assert (Hp : ndarray_power (dtype o) (buf o) (PFloat x)
                   = Returns (float64,
                              (fun x0 => float_power x0 x) <$> buf o))
        by (unfold ndarray_power; now rewrite Hd).
      destruct (Array_pow_spec h self o u _ _ _ Hl Hu Hp)
        as (h2 & E2 & Hnew & _).
      eexists h2, _. split; [exact E2|]. split; [exact Hnew|].
      split; reflexivity.
Qed.

Lemma ndarray_getitem_slice_some h self o item n tl a b s :
  h !! self = Some o -> shape o = n :: tl ->
  slice_indices (slice_start item) (slice_stop item) (slice_step item)
                (Z.of_nat n) = Some (a, b, s) ->
  ndarray_getitem_slice self item h
  = ((h ++ [view_as o (dtype o) (length (range_list a b s) :: tl)
                    (concat (row (shape_size tl) (buf o)
                               <$> range_list a b s))])%list,
     Returns (length h)).
Proof.
  intros Hl Hs Hi. unfold ndarray_getitem_slice.
  rewrite (bind_returns _ _ _ _ _ (deref_some _ _ _ Hl)).
  now rewrite Hs, Hi.
Qed.

Lemma quantity_inplace_some h l o key x u i v :
  h !! l = Some o -> metadata o !! key = Some (VQuantity x u) ->
  quantity_id o !! key = Some i ->
  quantity_inplace l key v h = (assign_quantity i v <$> h, Returns tt).
Proof.
  intros Hl Hk Hi. unfold quantity_inplace.
  rewrite (bind_returns _ _ _ _ _ (deref_some _ _ _ Hl)).
  now rewrite Hk, Hi.
Qed.

(** The entries of an object after an in-place update of the quantity
    number [i]: those that hold it show the new value, the others are
    unchanged. *)
Lemma assign_quantity_lookup i v o key :
  metadata (assign_quantity i v o) !! key
  = (fun w => if decide (quantity_id o !! key = Some i) then v else w)
      <$> metadata o !! key.
Proof.
  cbn [assign_quantity metadata]. rewrite map_lookup_imap.
  now destruct (metadata o !! key).
Qed.

Lemma assign_quantity_held i v o key w :
  metadata o !! key = Some w -> quantity_id o !! key = Some i ->
  metadata (assign_quantity i v o) !! key = Some v.
Proof.
  intros Hk Hi. rewrite assign_quantity_lookup, Hk. cbn.
  now rewrite decide_True.
Qed.

Lemma assign_quantity_not_held i v o key :
  quantity_id o !! key <> Some i ->
  metadata (assign_quantity i v o) !! key = metadata o !! key.
Proof.
  intros Hi. rewrite assign_quantity_lookup.
  destruct (metadata o !! key); [|reflexivity]. cbn.
  now rewrite decide_False.
Qed.

(** An object that does not hold the quantity is not changed. *)
Lemma assign_quantity_absent i v o :
  (forall key, quantity_id o !! key <> Some i) -> assign_quantity i v o = o.
Proof.
  intros Hi. destruct o as [c d w s b m q]. unfold assign_quantity.
  cbn [cls dtype owndata shape buf metadata quantity_id] in *. f_equal.
  apply map_eq. intros key. rewrite map_lookup_imap.
  destruct (m !! key); [|reflexivity]. cbn.
  now rewrite decide_False by apply Hi.
Qed.

(** The store after an augmented assignment to the axis attribute [key]
    of the object at [new], whose value is the quantity number [i] and
    becomes [VQuantity x u] in the unit [u] of the axis: every object
    shows the new value where it holds that quantity, and [new] then
    holds a new quantity of the same value. *)
Lemma augmented_assignment (h : heap) new o key (axis_unit : klass -> Unit)
    x0 x i :
  h !! new = Some o ->
  metadata o !! key = Some (VQuantity x0 (axis_unit (cls o))) ->
  quantity_id o !! key = Some i ->
  let v := VQuantity x (axis_unit (cls o)) in
  let h1 := assign_quantity i v <$> h in
  (quantity_inplace new key v ;;; axis_set key axis_unit new v) h
  = (<[new := with_quantity (assign_quantity i v o) key x
                 (axis_unit (cls o)) (fresh_id h1)]> h1,
     Returns tt).
Proof.
  intros Hl Hk Hi v h1.
  rewrite (bind_returns _ _ _ _ _
             (quantity_inplace_some _ _ _ _ _ _ _ v Hl Hk Hi)).
  fold h1.
  assert (Hl1 : h1 !! new = Some (assign_quantity i v o))
    by (unfold h1; now rewrite list_lookup_fmap, Hl).
  apply (axis_set_quantity h1 new (assign_quantity i v o) key axis_unit x Hl1).
Qed.

(** A slice whose start is absent or zero.  Without a slice step the new
    grid is a view of the selected rows with the metadata of the sliced
    grid, whose origin and step need not even be set, and nothing else
    changes.  With a slice step the step of the new grid is [step * dx];
    the product is taken in place on the quantity that the view shares
    with the sliced grid, so the step of the sliced grid, and of every
    object that holds this quantity, becomes [step * dx] as well. *)
Theorem getitem_slice_without_start (h : heap) (self : loc) (o : ndobj)
    (item : pyslice) (n : nat) (tl : list nat) (a b s : Z) :
  h !! self = Some o -> shape o = n :: tl ->
  slice_indices (slice_start item) (slice_stop item) (slice_step item)
                (Z.of_nat n) = Some (a, b, s) ->
  truthy (slice_start item) = None ->
  let view :=
    view_as o (dtype o) (length (range_list a b s) :: tl)
            (concat (row (shape_size tl) (buf o) <$> range_list a b s)) in
  (truthy (slice_step item) = None ->
   Array2D_getitem_slice self item h
     = ((h ++ [view])%list, Returns (length h))) /\
  (forall step dx i,
     truthy (slice_step item) = Some step ->
     metadata o !! "dx" = Some (VQuantity dx (xunit (cls o))) ->
     quantity_id o !! "dx" = Some i ->
     let v := VQuantity (inject_Z step * dx) (xunit (cls o)) in
     exists h' o',
       Array2D_getitem_slice self item h = (h', Returns (length h)) /\
       length h' = S (length h) /\
       h' !! length h = Some o' /\
       shape o' = shape view /\ buf o' = buf view /\
       metadata o' !! "dx" = Some v /\
       (forall key, key <> "dx" ->
          metadata o' !! key = metadata (assign_quantity i v o) !! key) /\
       (forall l ol, h !! l = Some ol ->
          h' !! l = Some (assign_quantity i v ol)) /\
       metadata (assign_quantity i v o) !! "dx" = Some v).
Proof.
  intros Hl Hs Hi Hstart view.
  pose proof (ndarray_getitem_slice_some _ _ _ _ _ _ _ _ _ Hl Hs Hi) as Hget.
  fold view in Hget.
  assert (Hnew : (h ++ [view])%list !! length h = Some view)
    by apply lookup_alloc_new.
  split.
  - intros Hstep. unfold Array2D_getitem_slice.
    rewrite (bind_returns _ _ _ _ _ Hget). now rewrite Hstart, Hstep.
  - intros step dx i Hstep Hd Hid v.
    set (h1 := assign_quantity i v <$> (h ++ [view])%list).
    set (o' := with_quantity (assign_quantity i v view) "dx"
                 (inject_Z step * dx) (xunit (cls o)) (fresh_id h1)).
    exists (<[length h := o']> h1), o'.
    assert (Hlen1 : length h1 = S (length h)).
    { unfold h1. rewrite length_fmap, length_app. cbn. lia. }
    assert (Hset :
      (old <- Array2D_dx (length h) ;;
       w <- py_mul_int step old ;;
       quantity_inplace (length h) "dx" w ;;;
       Array2D_dx_set (length h) w) (h ++ [view])%list
      = (<[length h := o']> h1, Returns tt)).
    { unfold Array2D_dx.
      rewrite (bind_returns _ _ _ _ _
                 (metadata_getitem_some _ _ _ _ _ Hnew Hd)).
      unfold py_mul_int. rewrite (bind_returns _ _ _ _ _ eq_refl).
      apply (augmented_assignment (h ++ [view])%list (length h) view "dx"
               xunit dx (inject_Z step * dx) i Hnew Hd Hid). }
    split.
    { unfold Array2D_getitem_slice.
      rewrite (bind_returns _ _ _ _ _ Hget). rewrite Hstart, Hstep.
      rewrite (bind_returns _ _ _ _ _ (eq_refl : ret tt _ = _)).
      now rewrite (bind_returns _ _ _ _ _ Hset). }
    split; [now rewrite length_insert|].
    split. { apply list_lookup_insert_eq. lia. }
    split; [reflexivity|]. split; [reflexivity|].
    split. { cbn [o' with_quantity metadata]. apply lookup_insert_eq. }
    split.
    { intros key Hne. cbn [o' with_quantity metadata].
      now rewrite lookup_insert_ne by auto. }
    split.
    { intros l ol Hol.
      assert (l <> length h) by (apply lookup_lt_Some in Hol; lia).
      rewrite list_lookup_insert_ne by auto. unfold h1.
      rewrite list_lookup_fmap, (lookup_alloc_old _ _ _ _ Hol).
      reflexivity. }
    eapply assign_quantity_held; eauto.
Qed.

(** A slice with a start that is not zero and no step, on a grid whose
    origin and step are set.  The origin of the new grid is
    [x0 + (x0 + start * dx)], the old origin counted twice.  The sum is
    taken in place on the quantity that the view shares with the sliced
    grid, so the origin of the sliced grid, and of every object that holds
    this quantity, becomes that value as well. *)
Theorem getitem_slice_with_start (h : heap) (self : loc) (o : ndobj)
    (item : pyslice) (n : nat) (tl : list nat) (a b s start : Z)
    (x0 dx : Q) (i : nat) :
  h !! self = Some o -> shape o = n :: tl ->
  slice_indices (slice_start item) (slice_stop item) (slice_step item)
                (Z.of_nat n) = Some (a, b, s) ->
  truthy (slice_start item) = Some start ->
  truthy (slice_step item) = None ->
  metadata o !! "x0" = Some (VQuantity x0 (xunit (cls o))) ->
  metadata o !! "dx" = Some (VQuantity dx (xunit (cls o))) ->
  quantity_id o !! "x0" = Some i ->
  let v := VQuantity (x0 + (x0 + inject_Z start * dx)) (xunit (cls o)) in
  exists h' o',
    Array2D_getitem_slice self item h = (h', Returns (length h)) /\
    length h' = S (length h) /\
    h' !! length h = Some o' /\
    shape o' = length (range_list a b s) :: tl /\
    buf o' = concat (row (shape_size tl) (buf o) <$> range_list a b s) /\
    metadata o' !! "x0" = Some v /\
    (forall key, key <> "x0" ->
       metadata o' !! key = metadata (assign_quantity i v o) !! key) /\
    (forall l ol, h !! l = Some ol ->
       h' !! l = Some (assign_quantity i v ol)) /\
    metadata (assign_quantity i v o) !! "x0" = Some v.
Proof.
  intros Hl Hs Hi Hstart Hstep H0 Hd Hid v.
  pose proof (ndarray_getitem_slice_some _ _ _ _ _ _ _ _ _ Hl Hs Hi) as Hget.
  set (view := view_as o (dtype o) (length (range_list a b s) :: tl)
                 (concat (row (shape_size tl) (buf o)
                            <$> range_list a b s))) in *.
  assert (Hnew : (h ++ [view])%list !! length h = Some view)
    by apply lookup_alloc_new.
  assert (Hold : (h ++ [view])%list !! self = Some o)
    by now apply lookup_alloc_old.
  set (h1 := assign_quantity i v <$> (h ++ [view])%list).
  set (o' := with_quantity (assign_quantity i v view) "x0"
               (x0 + (x0 + inject_Z start * dx)) (xunit (cls o))
               (fresh_id h1)).
  exists (<[length h := o']> h1), o'.
  assert (Hlen1 : length h1 = S (length h)).
  { unfold h1. rewrite length_fmap, length_app. cbn. lia. }
  assert (Hset :
    (old <- Array2D_x0 (length h) ;;
     x <- Array2D_x0 (length h) ;;
     d <- Array2D_dx self ;;
     off <- py_mul_int start d ;;
     rhs <- py_add x off ;;
     w <- py_add old rhs ;;
     quantity_inplace (length h) "x0" w ;;;
     Array2D_x0_set (length h) w) (h ++ [view])%list
    = (<[length h := o']> h1, Returns tt)).
  { unfold Array2D_x0, Array2D_dx.
    rewrite (bind_returns _ _ _ _ _
               (metadata_getitem_some _ _ _ _ _ Hnew H0)).
    rewrite (bind_returns _ _ _ _ _
               (metadata_getitem_some _ _ _ _ _ Hnew H0)).
    rewrite (bind_returns _ _ _ _ _
               (metadata_getitem_some _ _ _ _ _ Hold Hd)).
    unfold py_mul_int. rewrite (bind_returns _ _ _ _ _ eq_refl).
    unfold py_add. rewrite quantity_to_same.
    rewrite (bind_returns _ _ _ _ _ eq_refl).
    rewrite quantity_to_same.
    rewrite (bind_returns _ _ _ _ _ eq_refl).
    apply (augmented_assignment (h ++ [view])%list (length h) view "x0"
             xunit x0 (x0 + (x0 + inject_Z start * dx)) i Hnew H0 Hid). }
  split.
  { unfold Array2D_getitem_slice.
    rewrite (bind_returns _ _ _ _ _ Hget). rewrite Hstart, Hstep.
    rewrite (bind_returns _ _ _ _ _ Hset). reflexivity. }
  split; [now rewrite length_insert|].
  split. { apply list_lookup_insert_eq. lia. }
  split; [reflexivity|]. split; [reflexivity|].
  split. { cbn [o' with_quantity metadata]. apply lookup_insert_eq. }
  split.
  { intros key Hne. cbn [o' with_quantity metadata].
    now rewrite lookup_insert_ne by auto. }
  split.
  { intros l ol Hol.
    assert (l <> length h) by (apply lookup_lt_Some in Hol; lia).
    rewrite list_lookup_insert_ne by auto. unfold h1.
    rewrite list_lookup_fmap, (lookup_alloc_old _ _ _ _ Hol).
    reflexivity. }
  eapply assign_quantity_held; eauto.
Qed.

(** A slice with a start that is not zero reads the origin: when [x0] is
    not set the call raises [KeyError], after the new view was made. *)
Theorem getitem_slice_needs_origin (h : heap) (self : loc) (o : ndobj)
    (item : pyslice) (n : nat) (tl : list nat) (a b s start : Z) :
  h !! self = Some o -> shape o = n :: tl ->
  slice_indices (slice_start item) (slice_stop item) (slice_step item)
                (Z.of_nat n) = Some (a, b, s) ->
  truthy (slice_start item) = Some start ->
  metadata o !! "x0" = None ->
  Array2D_getitem_slice self item h
  = ((h ++ [view_as o (dtype o) (length (range_list a b s) :: tl)
                    (concat (row (shape_size tl) (buf o)
                               <$> range_list a b s))])%list,
     Raises (KeyError "x0")).
Proof.
  intros Hl Hs Hi Hstart Hk.
  pose proof (ndarray_getitem_slice_some _ _ _ _ _ _ _ _ _ Hl Hs Hi) as Hget.
  unfold Array2D_getitem_slice.
  rewrite (bind_returns _ _ _ _ _ Hget). rewrite Hstart.
  apply bind_raises. apply bind_raises. unfold Array2D_x0.
  eapply metadata_getitem_none; [apply lookup_alloc_new|exact Hk].
Qed.
End PowersAndSlices.


(** ** More on joining *)

Section MoreJoining.
Context {U : UnitAlgebra} {NP : NumpyPower} {PF : PythonFloat}.

Lemma units_initialised_refl (h : heap) : units_initialised h h.
Proof. split; auto. Qed.

Lemma units_initialised_step l (h h' : heap) :
  units_initialised h h' -> units_initialised h (init_unit_at l h').
Proof.
  intros [Hlen Hobj]. split; [now rewrite init_unit_at_length|].
  intros l' o Hl. destruct (Hobj l' o Hl) as [E|E];
    destruct (init_unit_at_lookup l l' h' _ E) as [E'|E'];
    rewrite ?init_unit_idem in E'; auto.
Qed.

(** Whatever its outcome, a read of the unit leaves the store that
    [init_unit_at] describes. *)
Lemma Array_unit_frame l h :
  fst (Array_unit l h) = init_unit_at l h.
Proof.
  destruct (h !! l) as [o|] eqn:Hl.
  - now rewrite (Array_unit_spec _ _ _ Hl).
  - unfold init_unit_at. rewrite Hl.
    unfold Array_unit, except_KeyError, metadata_getitem, bind, deref.
    now rewrite Hl.
Qed.

Lemma is_compatible_frame self other h :
  units_initialised h (fst (Spectrogram_is_compatible self other h)).
Proof.
  unfold Spectrogram_is_compatible, Spectrogram_dt, Spectrogram_df,
    Spectrogram_f0, Array2D_dx, Array2D_dy, Array2D_y0.
  repeat
    (unfold bind at 1;
     match goal with
     | |- context [metadata_getitem ?l ?k h] =>
         let E := fresh "E" in
         destruct (metadata_getitem l k h) as [? [?|?]] eqn:E;
         apply reads_only_metadata_getitem in E as ->;
         [|apply units_initialised_refl]
     end;
     try match goal with
         | |- context [negb ?c] =>
             destruct (negb c); [apply units_initialised_refl|]
         end).
  unfold bind at 1.
  pose proof (Array_unit_frame self h) as F1.
  destruct (Array_unit self h) as [h1 [ua|ue]]; simpl in F1; subst h1;
    [|apply units_initialised_step, units_initialised_refl].
  unfold bind at 1.
  pose proof (Array_unit_frame other (init_unit_at self h)) as F2.
  destruct (Array_unit other (init_unit_at self h)) as [h2 [ub|ue]];
    simpl in F2; subst h2;
    [|apply units_initialised_step, units_initialised_step,
        units_initialised_refl].
  destruct (negb _);
    apply units_initialised_step, units_initialised_step,
      units_initialised_refl.
Qed.

Lemma is_contiguous_frame self other h :
  units_initialised h (fst (Spectrogram_is_contiguous self other h)).
Proof.
  unfold Spectrogram_is_contiguous. unfold bind at 1.
  pose proof (is_compatible_frame self other h) as F.
  destruct (Spectrogram_is_compatible self other h) as [h1 [b|e]];
    simpl in F; [|exact F].
  assert (R : forall r : heap * outcome Z,
            r = (s <- Spectrogram_span self ;;
                 o <- Spectrogram_span other ;;
                 if Qeq_bool (snd s) (fst o) then ret 1%Z
                 else
                   o <- Spectrogram_span other ;;
                   s <- Spectrogram_span self ;;
                   if Qeq_bool (snd o) (fst s) then ret (-1)%Z
                   else ret 0%Z) h1 ->
            fst r = h1).
  { intros [h2 r] E. symmetry in E. simpl. revert E.
    apply reads_only_bind; [apply span_frame|]. intros s.
    apply reads_only_bind; [apply span_frame|]. intros o.
    destruct (Qeq_bool _ _); [apply reads_only_ret|].
    apply reads_only_bind; [apply span_frame|]. intros o'.
    apply reads_only_bind; [apply span_frame|]. intros s'.
    destruct (Qeq_bool _ _); apply reads_only_ret. }
  rewrite (R _ eq_refl). exact F.
Qed.

(** The compatibility and contiguity checks never change data, shape or
    any metadata entry, whatever their outcome (value or exception): all
    they can do to an object is store the dimensionless default for an
    unset unit. *)
Theorem checks_only_initialise_units (self other : loc) (h : heap) :
  units_initialised h (fst (Spectrogram_is_compatible self other h)) /\
  units_initialised h (fst (Spectrogram_is_contiguous self other h)).
Proof.
  split; [apply is_compatible_frame|apply is_contiguous_frame].
Qed.

Lemma append_fill_gap_skips rec new other gap h h1 c :
  Spectrogram_is_contiguous new other h = (h1, Returns c) ->
  c = 1%Z \/ gap = "ignore" ->
  append_fill_gap rec new other gap h = (h1, Returns tt).
Proof.
  intros E Hc. unfold append_fill_gap. rewrite (bind_returns _ _ _ _ _ E).
  destruct (decide (c <> 1%Z)) as [Hne|_]; [|reflexivity].
  destruct Hc as [-> | ->]; [contradiction|reflexivity].
Qed.

Lemma prepend_fill_gap_skips rec new other gap h h1 c :
  Spectrogram_is_contiguous new other h = (h1, Returns c) ->
  c = (-1)%Z \/ gap = "ignore" ->
  prepend_fill_gap rec new other gap h = (h1, Returns tt).
Proof.
  intros E Hc. unfold prepend_fill_gap. rewrite (bind_returns _ _ _ _ _ E).
  destruct (decide (c <> (-1)%Z)) as [Hne|_]; [|reflexivity].
  destruct Hc as [-> | ->]; [contradiction|reflexivity].
Qed.

Lemma compatible_metadata o1 o1' o2 :
  metadata o1' = metadata o1 -> compatible o1 o2 -> compatible o1' o2.
Proof.
  intros Hm. unfold compatible, same_field, unit_of. now rewrite Hm.
Qed.

Lemma compatible_same_dt o1 o2 n k tl1 tl2 e1 e2 dt1 dt2 f1 f2 g1 g2 :
  is_spectrogram o1 n tl1 e1 dt1 f1 g1 ->
  is_spectrogram o2 k tl2 e2 dt2 f2 g2 ->
  compatible o1 o2 -> (dt1 == dt2)%Q.
Proof.
  intros (_ & _ & _ & _ & Hd1 & _) (_ & _ & _ & _ & Hd2 & _)
         ((a & b & Ha & Hb & Hab) & _).
  rewrite Hd1 in Ha. rewrite Hd2 in Hb. injection Ha as <-.
  injection Hb as <-. simpl in Hab. rewrite quantity_to_same in Hab.
  now apply Qeq_bool_iff.
Qed.

Lemma joined_is_spectrogram o1 n k tl e dt f g (b : list Q) :
  is_spectrogram o1 n tl e dt f g ->
  length b = ((n + k) * shape_size tl)%nat ->
  is_spectrogram (with_array (init_unit o1) ((n + k)%nat :: tl) b)
                 (n + k) tl e dt f g.
Proof.
  intros Hs Hb. apply is_spectrogram_init_unit in Hs.
  destruct Hs as (Hc & _ & _ & He & Hd & Hf & Hg).
  repeat split; assumption.
Qed.

(** [append] in place when the gap test lets the join happen: the spans
    touch, or the gap is ignored. *)
Lemma append_inplace_joins (h : heap) (self other : loc) (o1 o2 : ndobj)
    (n k : nat) (tl : list nat) (e1 e2 dt1 dt2 f1 f2 g1 g2 : Q)
    (gap : string) :
  h !! self = Some o1 -> h !! other = Some o2 -> self <> other ->
  owndata o1 = true ->
  is_spectrogram o1 n tl e1 dt1 f1 g1 ->
  is_spectrogram o2 k tl e2 dt2 f2 g2 ->
  (1 <= k)%nat -> compatible o1 o2 ->
  (e1 + inject_Z (Z.of_nat n) * dt1 == e2)%Q \/ gap = "ignore" ->
  Spectrogram_append self other gap true h
  = (<[self := with_array (init_unit o1) ((n + k)%nat :: tl)
                          (buf o1 ++ (cast (dtype o1) <$> buf o2))]>
       (checked self other h),
     Returns self).
Proof.
  intros H1 H2 Hne Hown Hsp1 Hsp2 Hk Hc Hgap.
  rewrite <- (init_unit_owndata o1) in Hown.
  pose proof (span_view_spectrogram _ _ _ _ _ _ _ Hsp1) as Hs1.
  pose proof (span_view_spectrogram _ _ _ _ _ _ _ Hsp2) as Hs2.
  pose proof (checked_lookup_self self other h o1 H1) as H1'.
  pose proof (checked_lookup_other self other h o2 H2) as H2'.
  unfold Spectrogram_append, Spectrogram_append_body.
  rewrite (bind_returns _ _ _ _ _ (is_compatible_returns _ _ _ _ _ H1 H2 Hc)).
  rewrite (bind_returns _ _ _ _ _ (eq_refl : ret self _ = _)).
  assert (Hfill : append_fill_gap Spectrogram_append_raise self other gap
                    (checked self other h)
                  = (checked self other h, Returns tt)).
  { eapply append_fill_gap_skips.
    - apply (is_contiguous_checked _ _ _ _ _ _ _ H1 H2 Hc Hs1 Hs2).
    - destruct Hgap as [Hg|Hg]; [left|now right].
      cbn [fst snd]. apply Qeq_bool_iff in Hg. now rewrite Hg. }
  rewrite (bind_returns _ _ _ _ _ Hfill).
  destruct Hsp1 as (_ & Hsh1 & Hb1 & _).
  destruct Hsp2 as (_ & Hsh2 & Hb2 & _).
  rewrite <- init_unit_shape in Hsh1, Hsh2.
  rewrite <- init_unit_buf in Hb1, Hb2.
  rewrite (append_join_rows _ _ _ _ _ _ _ _
             H1' H2' Hne Hown Hsh1 Hsh2 Hb1 Hb2 Hk).
  now rewrite !init_unit_buf, init_unit_dtype.
Qed.

(** With [gap='ignore'] the rows of [other] are appended whatever the two
    spans are: for a spectrogram that owns its data and another, compatible
    one with the same number of frequency bins and at least one row,
    [self] holds its samples followed by those of [other] (converted to
    the element type of [self]), and its span still starts at its own
    epoch and covers the rows of both, so the times of [other] are lost. *)
Theorem append_ignore_concatenates (h : heap) (self other : loc)
    (o1 o2 : ndobj) (n k : nat) (tl : list nat)
    (e1 e2 dt1 dt2 f1 f2 g1 g2 : Q) :
  h !! self = Some o1 -> h !! other = Some o2 -> self <> other ->
  owndata o1 = true ->
  is_spectrogram o1 n tl e1 dt1 f1 g1 ->
  is_spectrogram o2 k tl e2 dt2 f2 g2 ->
  (1 <= k)%nat -> compatible o1 o2 ->
  let h' := <[self := with_array (init_unit o1) ((n + k)%nat :: tl)
                        (buf o1 ++ (cast (dtype o1) <$> buf o2))]>
              (checked self other h) in
  Spectrogram_append self other "ignore" true h = (h', Returns self) /\
  Spectrogram_span self h'
    = (h', Returns (e1, e1 + inject_Z (Z.of_nat (n + k)) * dt1)%Q).
Proof.
  intros H1 H2 Hne Hown Hsp1 Hsp2 Hk Hc h'. split.
  - eapply append_inplace_joins; eauto.
  - eapply span_returns.
    + eapply lookup_insert_heap, checked_lookup_self, H1.
    + apply span_view_spectrogram with (tl := tl) (f0 := f1) (df := g1).
      apply joined_is_spectrogram; [exact Hsp1|].
      destruct Hsp1 as (_ & _ & Hb1 & _). destruct Hsp2 as (_ & _ & Hb2 & _).
      rewrite length_app, length_fmap, Hb1, Hb2. lia.
Qed.

(** Appending [b] and then [c] to [a], each where the one before ends,
    [a] owning its data: [a] holds the samples of the three in that order
    (those of [b] and [c] converted to its element type) and spans
    them. *)
Theorem append_twice_chains (h : heap) (a b c : loc) (oa ob oc : ndobj)
    (n k m : nat) (tl : list nat)
    (e1 e2 e3 dt1 dt2 dt3 f1 f2 f3 g1 g2 g3 : Q) :
  h !! a = Some oa -> h !! b = Some ob -> h !! c = Some oc ->
  a <> b -> a <> c -> b <> c ->
  owndata oa = true ->
  is_spectrogram oa n tl e1 dt1 f1 g1 ->
  is_spectrogram ob k tl e2 dt2 f2 g2 ->
  is_spectrogram oc m tl e3 dt3 f3 g3 ->
  (1 <= k)%nat -> (1 <= m)%nat ->
  compatible oa ob -> compatible oa oc ->
  (e1 + inject_Z (Z.of_nat n) * dt1 == e2)%Q ->
  (e2 + inject_Z (Z.of_nat k) * dt2 == e3)%Q ->
  exists h' o',
    (Spectrogram_append a b "raise" true ;;;
     Spectrogram_append a c "raise" true) h = (h', Returns a) /\
    h' !! a = Some o' /\
    shape o' = (n + k + m)%nat :: tl /\
    buf o' = (buf oa ++ (cast (dtype oa) <$> buf ob)
                     ++ (cast (dtype oa) <$> buf oc))%list /\
    Spectrogram_span a h'
      = (h', Returns (e1, e1 + inject_Z (Z.of_nat (n + k + m)) * dt1)%Q).
Proof.
  intros Ha Hb Hc Hab Hac Hbc Hown Hsa Hsb Hsc Hk Hm Cab Cac T1 T2.
  set (j1 := with_array (init_unit oa) ((n + k)%nat :: tl)
                        (buf oa ++ (cast (dtype oa) <$> buf ob))).
  set (h1 := <[a := j1]> (checked a b h)).
  assert (E1 : Spectrogram_append a b "raise" true h = (h1, Returns a))
    by (eapply append_inplace_joins; eauto).
  assert (Lab : length (buf oa ++ (cast (dtype oa) <$> buf ob))
                = ((n + k) * shape_size tl)%nat).
  { destruct Hsa as (_ & _ & X1 & _). destruct Hsb as (_ & _ & X2 & _).
    rewrite length_app, length_fmap, X1, X2. lia. }
  assert (Hj1 : is_spectrogram j1 (n + k) tl e1 dt1 f1 g1)
    by now apply joined_is_spectrogram.
  assert (Hown1 : owndata j1 = true)
    by (cbn [j1 with_array owndata]; now rewrite init_unit_owndata).
  assert (Hd1 : dtype j1 = dtype oa)
    by (cbn [j1 with_array dtype]; apply init_unit_dtype).
  assert (Ha1 : h1 !! a = Some j1)
    by (eapply lookup_insert_heap, checked_lookup_self, Ha).
  assert (Hc1 : h1 !! c = Some oc).
  { unfold h1. rewrite list_lookup_insert_ne by auto.
    rewrite checked_lookup_ne by auto. exact Hc. }
  assert (Cj : compatible j1 oc).
  { apply (compatible_metadata (init_unit oa)); [reflexivity|].
    now apply compatible_init_unit_l. }
  assert (T3 : (e1 + inject_Z (Z.of_nat (n + k)) * dt1 == e3)%Q).
  { pose proof (compatible_same_dt _ _ _ _ _ _ _ _ _ _ _ _ _ _
                  Hsa Hsb Cab) as Hdt.
    rewrite Nat2Z.inj_add, inject_Z_plus. rewrite <- T2, <- T1, <- Hdt.
    ring. }
  pose proof (append_inplace_joins h1 a c j1 oc (n + k) m tl
                e1 e3 dt1 dt3 f1 f3 g1 g3 "raise"
                Ha1 Hc1 Hac Hown1 Hj1 Hsc Hm Cj (or_introl T3)) as E2.
  set (j2 := with_array (init_unit j1) ((n + k + m)%nat :: tl)
                        (buf j1 ++ (cast (dtype j1) <$> buf oc))) in E2.
  exists (<[a := j2]> (checked a c h1)), j2.
  split; [now rewrite (bind_returns _ _ _ _ _ E1)|].
  assert (Ha2 : <[a := j2]> (checked a c h1) !! a = Some j2)
    by (eapply lookup_insert_heap, checked_lookup_self, Ha1).
  split; [exact Ha2|]. split; [reflexivity|].
  split.
  { cbn [j2 with_array buf]. rewrite Hd1. cbn [j1 with_array buf].
    now rewrite <- app_assoc. }
  eapply span_returns; [exact Ha2|].
  apply span_view_spectrogram with (tl := tl) (f0 := f1) (df := g1).
  apply joined_is_spectrogram; [exact Hj1|].
  destruct Hsc as (_ & _ & X3 & _).
  rewrite length_app, length_fmap. cbn [buf j1 with_array].
  rewrite Lab, X3. lia.
Qed.


Lemma ndarray_first_rows_some h l o m tl n :
  h !! l = Some o -> shape o = m :: tl ->
  ndarray_first_rows l n h
    = (h, Returns (Nat.min n m :: tl,
                   take (Nat.min n m * shape_size tl) (buf o))).
Proof.
  intros Hl Hs. unfold ndarray_first_rows.
  rewrite (bind_returns _ _ _ _ _ (deref_some _ _ _ Hl)). now rewrite Hs.
Qed.

(** The block [# resize first] of [prepend] on an array that owns its
    data and another one with rows of the same shape: the rows of [other]
    come before those of [new], both written through an assignment and so
    converted to the element type of [new]. *)
Lemma prepend_join_rows h new other o1 o2 n k tl :
  h !! new = Some o1 -> h !! other = Some o2 -> new <> other ->
  owndata o1 = true ->
  shape o1 = n :: tl -> shape o2 = k :: tl ->
  length (buf o1) = (n * shape_size tl)%nat ->
  length (buf o2) = (k * shape_size tl)%nat ->
  (1 <= n)%nat -> (1 <= k)%nat ->
  prepend_join new other h
    = (<[new := with_array o1 ((n + k)%nat :: tl)
                  ((cast (dtype o1) <$> buf o2)
                   ++ (cast (dtype o1) <$> buf o1))]> h,
       Returns new).
Proof.
  intros H1 H2 Hne Hown Hs1 Hs2 Hb1 Hb2 Hn Hk. unfold prepend_join.
  set (sz := shape_size tl) in *.
  assert (Hn1 : shape o1 !! 0%nat = Some n) by now rewrite Hs1.
  assert (Hn2 : shape o2 !! 0%nat = Some k) by now rewrite Hs2.
  rewrite (bind_returns _ _ _ _ _ (shape_getitem_some _ _ _ _ _ H1 Hn1)).
  rewrite (bind_returns _ _ _ _ _ (shape_getitem_some _ _ _ _ _ H1 Hn1)).
  rewrite (bind_returns _ _ _ _ _ (shape_getitem_some _ _ _ _ _ H2 Hn2)).
  rewrite (bind_returns _ _ _ _ _
             (shape_with_rows_some _ _ _ _ _ (n + k)%nat H1 Hs1)).
  rewrite (bind_returns _ _ _ _ _
             (ndarray_resize_some _ _ _ _ H1 (or_introl Hown))).
  rewrite (resize_buf_grow _ _ _ _ Hb1). fold sz.
  set (R := (buf o1 ++ replicate (k * sz) 0%Q)%list).
  set (oa := with_array o1 ((n + k)%nat :: tl) R).
  assert (Ha : <[new := oa]> h !! new = Some oa)
    by (eapply lookup_insert_heap, H1).
  assert (Hsa : shape oa = (n + k)%nat :: tl) by reflexivity.
  rewrite (bind_returns _ _ _ _ _
             (ndarray_first_rows_some _ _ _ _ _ n Ha Hsa)).
  replace (Nat.min n (n + k)) with n by lia. cbn [fst snd buf oa with_array].
  assert (Hhead : take (n * sz) R = buf o1)
    by (unfold R; now rewrite take_app_length' by (symmetry; exact Hb1)).
  fold sz. rewrite Hhead.
  (* move the old rows to the end *)
  assert (Hi1 : slice_indices (Some (- Z.of_nat n)%Z) None None
                  (Z.of_nat (n + k))
                = Some (Z.of_nat k, Z.of_nat (k + n), 1%Z)).
  { replace (n + k)%nat with (k + n)%nat by lia.
    now apply slice_last_rows. }
  assert (Hbc1 : broadcast_to (n :: tl) (buf o1)
                   ((Z.to_nat (Z.max (Z.of_nat k) (Z.of_nat (k + n)))
                     - Z.to_nat (Z.of_nat k))%nat :: tl) = Some (buf o1)).
  { rewrite Z.max_r by lia. rewrite !Nat2Z.id.
    replace (k + n - k)%nat with n by lia. now apply broadcast_to_same. }
  rewrite (bind_returns _ _ _ _ _
             (ndarray_setitem_rows_some _ _ _ _ _ _ _ _ _ _ _ _ _
                Ha Hsa Hi1 Hbc1)).
  rewrite Z.max_r by lia. rewrite !Nat2Z.id.
  cbn [oa with_array shape buf cls metadata dtype owndata quantity_id].
  rewrite list_insert_insert_eq. fold sz.
  set (X := write_rows sz k (k + n) R (cast (dtype o1) <$> buf o1)).
  set (ob := with_array oa ((n + k)%nat :: tl) X).
  assert (Hb : <[new := ob]> h !! new = Some ob)
    by (eapply lookup_insert_heap, H1).
  assert (H2' : <[new := ob]> h !! other = Some o2)
    by (rewrite list_lookup_insert_ne by exact Hne; exact H2).
  assert (Hsb : shape ob = (n + k)%nat :: tl) by reflexivity.
  change (with_array (with_array o1 ((n + k)%nat :: tl) R)
                     ((n + k)%nat :: tl) X) with ob.
  rewrite (bind_returns _ _ _ _ _ (shape_getitem_some _ _ _ _ _ H2' Hn2)).
  rewrite (bind_returns _ _ _ _ _ (deref_some _ _ _ H2')).
  assert (Hbc2 : broadcast_to (shape o2) (buf o2)
                   ((Z.to_nat (Z.max 0 (Z.of_nat k)) - Z.to_nat 0)%nat :: tl)
                 = Some (buf o2)).
  { rewrite Z.max_r by lia. rewrite Nat2Z.id.
    replace (k - Z.to_nat 0)%nat with k by lia.
    rewrite Hs2. now apply broadcast_to_same. }
  rewrite (bind_returns _ _ _ _ _
             (ndarray_setitem_rows_some _ _ _ _ _ _ _ _ _ _ _ _ _
                Hb Hsb (slice_first_rows n k) Hbc2)).
  rewrite Z.max_r by lia. rewrite Nat2Z.id.
  cbn [ob with_array shape buf cls metadata oa dtype owndata quantity_id].
  rewrite list_insert_insert_eq. unfold ret. f_equal. f_equal.
  unfold with_array. f_equal. fold sz. unfold X.
  apply write_rows_front.
  unfold R. rewrite length_app, length_replicate, Hb1. lia.
Qed.

(** [prepend] under [gap='raise'] when [other] ends where [self] starts
    ([self] owns its data; two different compatible spectrograms with the
    same number of frequency bins, neither empty): [self] holds the
    samples of [other] followed by its own, all converted to its element
    type, but its epoch is not moved, so its span still starts at its old
    start and not at the start of [other]. *)
Theorem prepend_raise_keeps_epoch (h : heap) (self other : loc)
    (o1 o2 : ndobj) (n k : nat) (tl : list nat)
    (e1 e2 dt1 dt2 f1 f2 g1 g2 : Q) :
  h !! self = Some o1 -> h !! other = Some o2 -> self <> other ->
  owndata o1 = true ->
  is_spectrogram o1 n tl e1 dt1 f1 g1 ->
  is_spectrogram o2 k tl e2 dt2 f2 g2 ->
  (1 <= n)%nat -> (1 <= k)%nat -> compatible o1 o2 ->
  (e2 + inject_Z (Z.of_nat k) * dt2 == e1)%Q ->
  ~ (e1 + inject_Z (Z.of_nat n) * dt1 == e2)%Q ->
  let h' := <[self := with_array (init_unit o1) ((n + k)%nat :: tl)
                        ((cast (dtype o1) <$> buf o2)
                         ++ (cast (dtype o1) <$> buf o1))]>
              (checked self other h) in
  Spectrogram_prepend self other "raise" true h = (h', Returns self) /\
  Spectrogram_span self h'
    = (h', Returns (e1, e1 + inject_Z (Z.of_nat (n + k)) * dt1)%Q).
Proof.
  intros H1 H2 Hne Hown Hsp1 Hsp2 Hn Hk Hc T1 T2 h'.
  pose proof (span_view_spectrogram _ _ _ _ _ _ _ Hsp1) as Hs1.
  pose proof (span_view_spectrogram _ _ _ _ _ _ _ Hsp2) as Hs2.
  pose proof (checked_lookup_self self other h o1 H1) as H1'.
  pose proof (checked_lookup_other self other h o2 H2) as H2'.
  rewrite <- (init_unit_owndata o1) in Hown.
  split.
  - unfold Spectrogram_prepend, Spectrogram_prepend_body.
    rewrite (bind_returns _ _ _ _ _
               (is_compatible_returns _ _ _ _ _ H1 H2 Hc)).
    rewrite (bind_returns _ _ _ _ _ (eq_refl : ret self _ = _)).
    assert (Hfill : prepend_fill_gap Spectrogram_prepend_raise self other
                      "raise" (checked self other h)
                    = (checked self other h, Returns tt)).
    { eapply prepend_fill_gap_skips.
      - apply (is_contiguous_checked _ _ _ _ _ _ _ H1 H2 Hc Hs1 Hs2).
      - left. cbn [fst snd].
        destruct (Qeq_bool (e1 + inject_Z (Z.of_nat n) * dt1) e2) eqn:X.
        { apply Qeq_bool_iff in X. contradiction. }
        apply Qeq_bool_iff in T1. now rewrite T1. }
    rewrite (bind_returns _ _ _ _ _ Hfill).
    destruct Hsp1 as (_ & Hsh1 & Hb1 & _).
    destruct Hsp2 as (_ & Hsh2 & Hb2 & _).
    rewrite <- init_unit_shape in Hsh1, Hsh2.
    rewrite <- init_unit_buf in Hb1, Hb2.
    rewrite (prepend_join_rows _ _ _ _ _ _ _ _
               H1' H2' Hne Hown Hsh1 Hsh2 Hb1 Hb2 Hn Hk).
    now rewrite !init_unit_buf, init_unit_dtype.
  - eapply span_returns.
    + eapply lookup_insert_heap, H1'.
    + apply span_view_spectrogram with (tl := tl) (f0 := f1) (df := g1).
      apply joined_is_spectrogram; [exact Hsp1|].
      destruct Hsp1 as (_ & _ & Hb1 & _). destruct Hsp2 as (_ & _ & Hb2 & _).
      rewrite length_app, !length_fmap, Hb1, Hb2. lia.
Qed.




(** In-place joins need an array that owns its memory.  [Array.__new__]
    with its default [copy=False] returns a view, as do slicing and
    arithmetic; on such a [self], with another compatible spectrogram of
    the same number of frequency bins and at least one row each of at
    least one bin, the in-place call passes the checks and the gap test
    and then raises at [resize]: [append] when the spans touch or the gap
    is ignored, [prepend] likewise.  Nothing but unset units has changed
    then. *)
Theorem inplace_join_refused_on_view (h : heap) (self other : loc)
    (o1 o2 : ndobj) (n k : nat) (tl : list nat)
    (e1 e2 dt1 dt2 f1 f2 g1 g2 : Q) (gap : string) :
  h !! self = Some o1 -> h !! other = Some o2 ->
  owndata o1 = false ->
  is_spectrogram o1 n tl e1 dt1 f1 g1 ->
  is_spectrogram o2 k tl e2 dt2 f2 g2 ->
  (1 <= k)%nat -> (1 <= shape_size tl)%nat -> compatible o1 o2 ->
  let refused :=
    (checked self other h,
     @Raises loc (ValueError
                    "cannot resize this array: it does not own its data")) in
  ((e1 + inject_Z (Z.of_nat n) * dt1 == e2)%Q \/ gap = "ignore" ->
   Spectrogram_append self other gap true h = refused) /\
  ((~ (e1 + inject_Z (Z.of_nat n) * dt1 == e2)%Q /\
    (e2 + inject_Z (Z.of_nat k) * dt2 == e1)%Q) \/ gap = "ignore" ->
   Spectrogram_prepend self other gap true h = refused).
Proof.
  intros H1 H2 Hown Hsp1 Hsp2 Hk Htl Hc refused.
  pose proof (span_view_spectrogram _ _ _ _ _ _ _ Hsp1) as Hs1.
  pose proof (span_view_spectrogram _ _ _ _ _ _ _ Hsp2) as Hs2.
  pose proof (checked_lookup_self self other h o1 H1) as H1'.
  pose proof (checked_lookup_other self other h o2 H2) as H2'.
  rewrite <- (init_unit_owndata o1) in Hown.
  destruct Hsp1 as (_ & Hsh1 & Hb1 & _).
  destruct Hsp2 as (_ & Hsh2 & Hb2 & _).
  rewrite <- init_unit_shape in Hsh1, Hsh2.
  assert (Hn1 : shape (init_unit o1) !! 0%nat = Some n) by now rewrite Hsh1.
  assert (Hn2 : shape (init_unit o2) !! 0%nat = Some k) by now rewrite Hsh2.
  assert (Hres : ndarray_resize self ((n + k)%nat :: tl)
                   (checked self other h)
                 = (checked self other h,
                    Raises (ValueError
                      "cannot resize this array: it does not own its data"))).
  { apply (ndarray_resize_refused _ _ _ _ H1' Hown).
    rewrite Hsh1, !shape_size_cons. nia. }
  split; intros Hgap.
  - unfold Spectrogram_append, Spectrogram_append_body.
    rewrite (bind_returns _ _ _ _ _
               (is_compatible_returns _ _ _ _ _ H1 H2 Hc)).
    rewrite (bind_returns _ _ _ _ _ (eq_refl : ret self _ = _)).
    assert (Hfill : append_fill_gap Spectrogram_append_raise self other gap
                      (checked self other h)
                    = (checked self other h, Returns tt)).
    { eapply append_fill_gap_skips.
      - apply (is_contiguous_checked _ _ _ _ _ _ _ H1 H2 Hc Hs1 Hs2).
      - destruct Hgap as [Hg|Hg]; [left|now right].
        cbn [fst snd]. apply Qeq_bool_iff in Hg. now rewrite Hg. }
    rewrite (bind_returns _ _ _ _ _ Hfill). unfold append_join.
    rewrite (bind_returns _ _ _ _ _ (shape_getitem_some _ _ _ _ _ H1' Hn1)).
    rewrite (bind_returns _ _ _ _ _ (shape_getitem_some _ _ _ _ _ H2' Hn2)).
    rewrite (bind_returns _ _ _ _ _
               (shape_with_rows_some _ _ _ _ _ (n + k)%nat H1' Hsh1)).
    now apply bind_raises.
  - unfold Spectrogram_prepend, Spectrogram_prepend_body.
    rewrite (bind_returns _ _ _ _ _
               (is_compatible_returns _ _ _ _ _ H1 H2 Hc)).
    rewrite (bind_returns _ _ _ _ _ (eq_refl : ret self _ = _)).
    assert (Hfill : prepend_fill_gap Spectrogram_prepend_raise self other gap
                      (checked self other h)
                    = (checked self other h, Returns tt)).
    { eapply prepend_fill_gap_skips.
      - apply (is_contiguous_checked _ _ _ _ _ _ _ H1 H2 Hc Hs1 Hs2).
      - destruct Hgap as [[Hg1 Hg2]|Hg]; [left|now right].
        cbn [fst snd].
        destruct (Qeq_bool (e1 + inject_Z (Z.of_nat n) * dt1) e2) eqn:X.
        { apply Qeq_bool_iff in X. contradiction. }
        apply Qeq_bool_iff in Hg2. now rewrite Hg2. }
    rewrite (bind_returns _ _ _ _ _ Hfill). unfold prepend_join.
    rewrite (bind_returns _ _ _ _ _ (shape_getitem_some _ _ _ _ _ H1' Hn1)).
    rewrite (bind_returns _ _ _ _ _ (shape_getitem_some _ _ _ _ _ H1' Hn1)).
    rewrite (bind_returns _ _ _ _ _ (shape_getitem_some _ _ _ _ _ H2' Hn2)).
    rewrite (bind_returns _ _ _ _ _
               (shape_with_rows_some _ _ _ _ _ (n + k)%nat H1' Hsh1)).
    now apply bind_raises.
Qed.

(** With [gap='pad'] a gap is never filled: [append] returns only when
    the span of [self] ends where the span of [other] starts, [prepend]
    only when [other] ends where [self] starts; in every other case the
    call raises. *)
Theorem pad_joins_only_contiguous (h : heap) (self other : loc)
    (o1 o2 : ndobj) (s1 s2 : Q * Q) :
  h !! self = Some o1 -> h !! other = Some o2 ->
  span_view o1 = Some s1 -> span_view o2 = Some s2 ->
  (forall inplace h' r,
     Spectrogram_append self other "pad" inplace h = (h', Returns r) ->
     (snd s1 == fst s2)%Q) /\
  (forall inplace h' r,
     Spectrogram_prepend self other "pad" inplace h = (h', Returns r) ->
     (snd s2 == fst s1)%Q).
Proof.
  intros H1 H2 Hs1 Hs2.
  assert (Hnew : forall (inplace : bool) hc new h1 c h2,
            hc = checked self other h ->
            (if inplace then ret self else Array_copy self) hc
              = (h1, Returns new) ->
            Spectrogram_is_contiguous new other h1 = (h2, Returns c) ->
            c = (if Qeq_bool (snd s1) (fst s2) then 1%Z
                 else if Qeq_bool (snd s2) (fst s1) then (-1)%Z else 0%Z)).
  { intros inplace hc new h1 c h2 -> En Ec.
    pose proof (checked_lookup_self self other h o1 H1) as H1'.
    pose proof (checked_lookup_other self other h o2 H2) as H2'.
    apply is_contiguous_inv in Ec
      as (oa & ob & sa & sb & Ha & Hb & _ & Hsa & Hsb & _ & ->).
    assert (span_view oa = Some s1 /\ span_view ob = Some s2) as [Xa Xb].
    { destruct inplace.
      - apply ret_inv in En as [-> ->].
        assert (oa = init_unit o1) by congruence.
        assert (ob = init_unit o2) by congruence. subst.
        now rewrite !span_view_init_unit.
      - apply Array_copy_inv in En as (oc & Hoc & -> & ->).
        rewrite lookup_alloc_new in Ha.
        rewrite (lookup_alloc_old _ _ _ _ H2') in Hb.
        assert (oc = init_unit o1) by congruence. subst oc.
        injection Ha as <-. injection Hb as <-.
        split; [|now rewrite span_view_init_unit].
        change (span_view (init_unit o1) = Some s1).
        now rewrite span_view_init_unit. }
    assert (sa = s1) by congruence. assert (sb = s2) by congruence.
    now subst. }
  split; intros inplace h' r E.
  - unfold Spectrogram_append, Spectrogram_append_body in E.
    apply bind_returns_inv in E as (hc & b & E1 & E).
    apply is_compatible_inv in E1 as (_ & _ & _ & _ & _ & _ & ->).
    apply bind_returns_inv in E as (h1 & new & En & E).
    apply bind_returns_inv in E as (h2 & u & E1 & _).
    apply (append_fill_gap_inv _ _ _ _ _ _ _ append_raise_needs_df) in E1
      as (c & Ec & [->|[_ Hg]]); [|discriminate].
    pose proof (Hnew _ _ _ _ _ _ eq_refl En Ec) as X.
    destruct (Qeq_bool (snd s1) (fst s2)) eqn:Y.
    + now apply Qeq_bool_iff.
    + destruct (Qeq_bool _ _) in X; discriminate.
  - unfold Spectrogram_prepend, Spectrogram_prepend_body in E.
    apply bind_returns_inv in E as (hc & b & E1 & E).
    apply is_compatible_inv in E1 as (_ & _ & _ & _ & _ & _ & ->).
    apply bind_returns_inv in E as (h1 & new & En & E).
    apply bind_returns_inv in E as (h2 & u & E1 & _).
    apply (prepend_fill_gap_inv _ _ _ _ _ _ _ prepend_raise_needs_df) in E1
      as (c & Ec & [->|[_ Hg]]); [|discriminate].
    pose proof (Hnew _ _ _ _ _ _ eq_refl En Ec) as X.
    destruct (Qeq_bool (snd s1) (fst s2)); [discriminate|].
    destruct (Qeq_bool (snd s2) (fst s1)) eqn:Y; [|discriminate].
    now apply Qeq_bool_iff.
Qed.

Lemma range_list_prefix (n : nat) :
  range_list 0 (Z.of_nat n) 1 = seq 0 n.
Proof.
  unfold range_list, range_length. rewrite decide_True by lia.
  replace ((Z.of_nat n - 0 + 1 - 1) / 1)%Z with (Z.of_nat n)
    by (rewrite Z.div_1_r; lia).
  rewrite Nat2Z.id. rewrite <- (list_fmap_id (seq 0 n)) at 2.
  apply list_fmap_ext. intros i x _. unfold id. lia.
Qed.

Lemma rows_prefix (sz n : nat) (b : list Q) :
  concat (row sz b <$> seq 0 n) = take (n * sz) b.
Proof.
  induction n as [|n IH]; [reflexivity|].
  rewrite seq_S, fmap_app, concat_app, IH. cbn [fmap list_fmap concat].
  rewrite app_nil_r. unfold row. cbn [Nat.add].
  replace (S n * sz)%nat with (n * sz + sz)%nat by lia.
  apply take_take_drop.
Qed.


(** Appending and slicing back: after [self.append(other)] on a [self]
    that owns its data (contiguous, or with the gap ignored), the slice
    [self[slice(None, n)]] over the old number of rows is a new grid, a
    view, with exactly the old samples of [self]. *)
Theorem append_then_slice_recovers_data (h : heap) (self other : loc)
    (o1 o2 : ndobj) (n k : nat) (tl : list nat)
    (e1 e2 dt1 dt2 f1 f2 g1 g2 : Q) (gap : string) :
  h !! self = Some o1 -> h !! other = Some o2 -> self <> other ->
  owndata o1 = true ->
  is_spectrogram o1 n tl e1 dt1 f1 g1 ->
  is_spectrogram o2 k tl e2 dt2 f2 g2 ->
  (1 <= k)%nat -> compatible o1 o2 ->
  (e1 + inject_Z (Z.of_nat n) * dt1 == e2)%Q \/ gap = "ignore" ->
  exists h' view,
    (Spectrogram_append self other gap true ;;;
     Array2D_getitem_slice self
       {| slice_start := None; slice_stop := Some (Z.of_nat n);
          slice_step := None |}) h = (h', Returns (length h)) /\
    h' !! length h = Some view /\
    shape view = n :: tl /\ buf view = buf o1 /\
    owndata view = false /\
    metadata view = metadata (init_unit o1).
Proof.
  intros H1 H2 Hne Hown Hsp1 Hsp2 Hk Hc Hgap.
  pose proof (append_inplace_joins h self other o1 o2 n k tl
                e1 e2 dt1 dt2 f1 f2 g1 g2 gap
                H1 H2 Hne Hown Hsp1 Hsp2 Hk Hc Hgap) as E1.
  set (j := with_array (init_unit o1) ((n + k)%nat :: tl)
                       (buf o1 ++ (cast (dtype o1) <$> buf o2))) in E1.
  set (h1 := <[self := j]> (checked self other h)) in E1.
  assert (Hj : h1 !! self = Some j)
    by (eapply lookup_insert_heap, checked_lookup_self, H1).
  assert (Hlen : length h1 = length h)
    by (unfold h1; now rewrite length_insert, checked_length).
  assert (Hi : slice_indices None (Some (Z.of_nat n)) None (Z.of_nat (n + k))
               = Some (0%Z, Z.of_nat n, 1%Z)).
  { replace (n + k)%nat with (k + n)%nat by lia. apply slice_first_rows. }
  pose proof (ndarray_getitem_slice_some h1 self j
                {| slice_start := None; slice_stop := Some (Z.of_nat n);
                   slice_step := None |} (n + k) tl _ _ _
                Hj eq_refl Hi) as Hget.
  rewrite range_list_prefix, rows_prefix, length_seq in Hget.
  cbn [buf j with_array] in Hget.
  destruct Hsp1 as (_ & _ & Hb1 & _).
  rewrite take_app_length' in Hget by (symmetry; exact Hb1).
  eexists _, _. split; [|split; [|split; [|split; [|split]]]].
  - rewrite (bind_returns _ _ _ _ _ E1). unfold Array2D_getitem_slice.
    rewrite (bind_returns _ _ _ _ _ Hget). cbn [truthy slice_start slice_step].
    rewrite Hlen. reflexivity.
  - rewrite <- Hlen. apply lookup_alloc_new.
  - reflexivity.
  - reflexivity.
  - reflexivity.
  - reflexivity.
Qed.


End MoreJoining.


(** ** Copies and in-place joins *)

Section Copies.
Context {U : UnitAlgebra} {NP : NumpyPower} {PF : PythonFloat}.

Lemma stable_refl b (h : heap) : stable b h h.
Proof. split; auto. Qed.

Lemma stable_trans b (h1 h2 h3 : heap) :
  stable b h1 h2 -> stable b h2 h3 -> stable b h1 h3.
Proof.
  intros [L1 F1] [L2 F2]. split; [lia|]. intros l o Hl Ho.
  destruct (F1 l o Hl Ho) as [E|E]; destruct (F2 l _ Hl E) as [E'|E'];
    rewrite ?init_unit_idem in E'; auto.
Qed.

Lemma stable_units_initialised b (h h' : heap) :
  units_initialised h h' -> stable b h h'.
Proof. intros [L F]. split; [lia|]. intros l o _. apply F. Qed.

Lemma stable_insert b (h : heap) l o :
  (b <= l)%nat -> stable b h (<[l := o]> h).
Proof.
  intros Hl. split; [now rewrite length_insert|]. intros l' o' Hl' Ho.
  left. rewrite list_lookup_insert_ne by lia. exact Ho.
Qed.

Lemma stable_alloc b (h : heap) o : stable b h (h ++ [o])%list.
Proof.
  split; [rewrite length_app; lia|]. intros l o' _ Ho.
  left. now apply lookup_alloc_old.
Qed.

Lemma spares_ret {A} b (a : A) (P : A -> Prop) : P a -> spares b (ret a) P.
Proof.
  intros Ha h h' r _ E. injection E as <- <-.
  split; [apply stable_refl|]. intros a' X. now injection X as <-.
Qed.

Lemma spares_raise {A} b e (P : A -> Prop) : spares b (raise e) P.
Proof.
  intros h h' r _ E. injection E as <- <-.
  split; [apply stable_refl|]. intros a' X. discriminate X.
Qed.

Lemma spares_bind {A B} b (m : M A) (k : A -> M B) (P : A -> Prop)
    (Q : B -> Prop) :
  spares b m P -> (forall a, P a -> spares b (k a) Q) ->
  spares b (bind m k) Q.
Proof.
  intros Hm Hk h h' r Hb E. unfold bind in E.
  destruct (m h) as [h1 [a|e]] eqn:Em.
  - destruct (Hm _ _ _ Hb Em) as [S1 P1].
    assert (Hb1 : (b <= length h1)%nat) by (destruct S1; lia).
    destruct (Hk a (P1 a eq_refl) _ _ _ Hb1 E) as [S2 Q2].
    split; [eapply stable_trans; eauto|exact Q2].
  - injection E as <- <-. destruct (Hm _ _ _ Hb Em) as [S1 _].
    split; [exact S1|]. intros a' X. discriminate X.
Qed.

Lemma spares_weaken {A} b (m : M A) (P Q : A -> Prop) :
  spares b m P -> (forall a, P a -> Q a) -> spares b m Q.
Proof.
  intros Hm HPQ h h' r Hb E. destruct (Hm _ _ _ Hb E) as [S1 P1].
  split; [exact S1|]. intros a X. apply HPQ, P1, X.
Qed.

Lemma spares_reads {A} b (m : M A) :
  reads_only m -> spares b m (fun _ => True).
Proof.
  intros Hm h h' r _ E. apply Hm in E as ->.
  split; [apply stable_refl|auto].
Qed.

(** A step that only reads, followed by [k]. *)
Lemma spares_after_read {A B} b (m : M A) (k : A -> M B) (Q : B -> Prop) :
  reads_only m -> (forall a, spares b (k a) Q) -> spares b (bind m k) Q.
Proof.
  intros Hm Hk. eapply spares_bind; [apply spares_reads, Hm|].
  intros a _. apply Hk.
Qed.

Lemma spares_store b l o :
  (b <= l)%nat -> spares b (store l o) (fun _ => True).
Proof.
  intros Hl h h' r _ E. injection E as <- <-.
  split; [now apply stable_insert|auto].
Qed.

Lemma spares_alloc b o : spares b (alloc o) (fun l => (b <= l)%nat).
Proof.
  intros h h' r Hb E. injection E as <- <-.
  split; [apply stable_alloc|]. intros a X. injection X as <-. exact Hb.
Qed.

Lemma spares_units {A} b (m : M A) :
  (forall h, units_initialised h (fst (m h))) ->
  spares b m (fun _ => True).
Proof.
  intros Hm h h' r _ E. specialize (Hm h). rewrite E in Hm.
  split; [now apply stable_units_initialised|auto].
Qed.

Lemma reads_only_fresh : reads_only fresh.
Proof. intros h h' r E. now injection E as <- _. Qed.

Lemma reads_only_shape_with_rows l n : reads_only (shape_with_rows l n).
Proof.
  apply reads_only_bind; [apply reads_only_deref|]. intros o.
  destruct (shape o); [apply reads_only_raise|apply reads_only_ret].
Qed.

Lemma spares_Array_copy b self :
  spares b (Array_copy self) (fun l => (b <= l)%nat).
Proof.
  unfold Array_copy.
  apply spares_after_read; [apply reads_only_deref|]. intros o.
  apply spares_after_read; [apply reads_only_fresh|]. intros i.
  apply spares_alloc.
Qed.

Lemma spares_metadata_setitem b l key v :
  (b <= l)%nat -> spares b (metadata_setitem l key v) (fun _ => True).
Proof.
  intros Hl. unfold metadata_setitem.
  apply spares_after_read; [apply reads_only_deref|]. intros o.
  now apply spares_store.
Qed.

Lemma spares_quantity_setitem b l key x u :
  (b <= l)%nat -> spares b (quantity_setitem l key x u) (fun _ => True).
Proof.
  intros Hl. unfold quantity_setitem.
  apply spares_after_read; [apply reads_only_deref|]. intros o.
  apply spares_after_read; [apply reads_only_fresh|]. intros i.
  now apply spares_store.
Qed.

Lemma spares_axis_set b key (axis_unit : klass -> Unit) l v :
  (b <= l)%nat -> spares b (axis_set key axis_unit l v) (fun _ => True).
Proof.
  intros Hl. unfold axis_set.
  apply spares_after_read; [apply reads_only_deref|]. intros o.
  destruct v; try apply spares_raise.
  - now apply spares_quantity_setitem.
  - destruct (quantity_to _ _ _); [|apply spares_raise].
    now apply spares_quantity_setitem.
Qed.

Lemma spares_epoch_set b l v :
  (b <= l)%nat -> spares b (Array_epoch_set l v) (fun _ => True).
Proof.
  intros Hl. unfold Array_epoch_set.
  destruct v; try apply spares_raise;
    try (now apply spares_metadata_setitem).
  destruct (float_of_text _); [|apply spares_raise].
  now apply spares_metadata_setitem.
Qed.

Lemma spares_resize b l s :
  (b <= l)%nat -> spares b (ndarray_resize l s) (fun _ => True).
Proof.
  intros Hl. unfold ndarray_resize.
  apply spares_after_read; [apply reads_only_deref|]. intros o.
  destruct (decide _); [now apply spares_store|].
  destruct (owndata o); [now apply spares_store|apply spares_raise].
Qed.

Lemma spares_setitem_rows b l x y ss sb :
  (b <= l)%nat ->
  spares b (ndarray_setitem_rows l x y ss sb) (fun _ => True).
Proof.
  intros Hl. unfold ndarray_setitem_rows.
  apply spares_after_read; [apply reads_only_deref|]. intros o.
  destruct (shape o); [apply spares_raise|].
  destruct (slice_indices _ _ _ _) as [[[? ?] ?]|]; [|apply spares_raise].
  destruct (broadcast_to _ _ _); [|apply spares_raise].
  now apply spares_store.
Qed.

Lemma spares_append_join b new other :
  (b <= new)%nat -> spares b (append_join new other) (fun _ => True).
Proof.
  intros Hl. unfold append_join.
  apply spares_after_read; [apply reads_only_shape_getitem|]. intros n0.
  apply spares_after_read; [apply reads_only_shape_getitem|]. intros k.
  apply spares_after_read; [apply reads_only_shape_with_rows|]. intros s.
  eapply spares_bind; [now apply spares_resize|]. intros _ _.
  apply spares_after_read; [apply reads_only_shape_getitem|]. intros k'.
  apply spares_after_read; [apply reads_only_deref|]. intros src.
  eapply spares_bind; [now apply spares_setitem_rows|]. intros _ _.
  now apply spares_ret.
Qed.

Lemma spares_prepend_join b new other :
  (b <= new)%nat -> spares b (prepend_join new other) (fun _ => True).
Proof.
  intros Hl. unfold prepend_join.
  apply spares_after_read; [apply reads_only_shape_getitem|]. intros n.
  apply spares_after_read; [apply reads_only_shape_getitem|]. intros n0.
  apply spares_after_read; [apply reads_only_shape_getitem|]. intros k.
  apply spares_after_read; [apply reads_only_shape_with_rows|]. intros s.
  eapply spares_bind; [now apply spares_resize|]. intros _ _.
  apply spares_after_read; [apply ndarray_first_rows_frame|]. intros hd.
  eapply spares_bind; [now apply spares_setitem_rows|]. intros _ _.
  apply spares_after_read; [apply reads_only_shape_getitem|]. intros k'.
  apply spares_after_read; [apply reads_only_deref|]. intros src.
  eapply spares_bind; [now apply spares_setitem_rows|]. intros _ _.
  now apply spares_ret.
Qed.

(** The zero block is a new object, and the inner call works on [new]
    and on the block. *)
Lemma spares_zero_block b rec (c : klass) gapshape from new :
  (b <= new)%nat ->
  (forall z, (b <= z)%nat -> spares b (rec new z) (fun _ : loc => True)) ->
  spares b
    (zeros <- zeros_view c gapshape ;;
     ns <- Spectrogram_span from ;;
     Spectrogram_epoch_set zeros (VFloat (snd ns)) ;;;
     dt <- Spectrogram_dt new ;;
     Spectrogram_dt_set zeros dt ;;;
     rec new zeros ;;;
     ret tt) (fun _ => True).
Proof.
  intros Hl Hrec.
  eapply spares_bind; [apply spares_alloc|]. intros zeros Hz.
  apply spares_after_read; [apply span_frame|]. intros ns.
  eapply spares_bind; [now apply spares_epoch_set|]. intros _ _.
  apply spares_after_read; [apply reads_only_metadata_getitem|]. intros dt.
  eapply spares_bind; [now apply spares_axis_set|]. intros _ _.
  eapply spares_bind; [now apply Hrec|]. intros _ _.
  now apply spares_ret.
Qed.

Lemma spares_append_fill_gap b rec new other gap :
  (b <= new)%nat ->
  (forall z, (b <= z)%nat -> spares b (rec new z) (fun _ : loc => True)) ->
  spares b (append_fill_gap rec new other gap) (fun _ => True).
Proof.
  intros Hl Hrec. unfold append_fill_gap.
  eapply spares_bind; [apply spares_units, is_contiguous_frame|].
  intros c _.
  destruct (decide (c <> 1%Z)); [|now apply spares_ret].
  destruct (decide (gap = "pad")).
  - apply spares_after_read; [apply span_frame|]. intros os.
    apply spares_after_read; [apply span_frame|]. intros ns.
    apply spares_after_read; [apply reads_only_metadata_getitem|].
    intros dt.
    apply spares_after_read; [apply reads_only_quantity_value|]. intros d.
    destruct (Qeq_bool d 0); [apply spares_raise|].
    destruct (negb _); [apply spares_raise|].
    apply spares_after_read; [apply reads_only_shape_with_rows|]. intros gs.
    apply spares_after_read; [apply reads_only_deref|]. intros o.
    now apply spares_zero_block.
  - destruct (decide (gap = "ignore"));
      [now apply spares_ret|apply spares_raise].
Qed.

Lemma spares_prepend_fill_gap b rec new other gap :
  (b <= new)%nat ->
  (forall z, (b <= z)%nat -> spares b (rec new z) (fun _ : loc => True)) ->
  spares b (prepend_fill_gap rec new other gap) (fun _ => True).
Proof.
  intros Hl Hrec. unfold prepend_fill_gap.
  eapply spares_bind; [apply spares_units, is_contiguous_frame|].
  intros c _.
  destruct (decide (c <> (-1)%Z)); [|now apply spares_ret].
  destruct (decide (gap = "pad")).
  - apply spares_after_read; [apply span_frame|]. intros ns.
    apply spares_after_read; [apply span_frame|]. intros os.
    apply spares_after_read; [apply reads_only_metadata_getitem|].
    intros dt.
    apply spares_after_read; [apply reads_only_quantity_value|]. intros d.
    destruct (Qeq_bool d 0); [apply spares_raise|].
    destruct (decide _); [apply spares_raise|].
    apply spares_after_read; [apply reads_only_shape_with_rows|]. intros gs.
    apply spares_after_read; [apply reads_only_deref|]. intros o.
    now apply spares_zero_block.
  - destruct (decide (gap = "ignore"));
      [now apply spares_ret|apply spares_raise].
Qed.

(** The body of a join leaves the objects below [b] alone when the
    object it grows is not one of them: a copy never is. *)
Lemma spares_join_body b (fill : loc -> loc -> string -> M unit)
    (join : loc -> loc -> M loc) self other gap inplace :
  (inplace = true -> (b <= self)%nat) ->
  (forall new, (b <= new)%nat ->
     spares b (fill new other gap) (fun _ => True)) ->
  (forall new, (b <= new)%nat ->
     spares b (join new other) (fun _ => True)) ->
  spares b
    (Spectrogram_is_compatible self other ;;;
     new <- (if inplace then ret self else Array_copy self) ;;
     fill new other gap ;;;
     join new other) (fun _ => True).
Proof.
  intros Hself Hfill Hjoin.
  eapply spares_bind; [apply spares_units, is_compatible_frame|].
  intros _ _.
  eapply (spares_bind _ _ _ (fun l => (b <= l)%nat)).
  { destruct inplace; [apply spares_ret; auto|apply spares_Array_copy]. }
  intros new Hnew.
  eapply spares_bind; [now apply Hfill|]. intros _ _.
  now apply Hjoin.
Qed.

Lemma spares_append b self other gap inplace :
  (inplace = true -> (b <= self)%nat) ->
  spares b (Spectrogram_append self other gap inplace) (fun _ => True).
Proof.
  intros Hself. unfold Spectrogram_append, Spectrogram_append_body.
  apply (spares_join_body b (append_fill_gap Spectrogram_append_raise)
           append_join);
    [exact Hself| |intros; now apply spares_append_join].
  intros new Hnew. apply spares_append_fill_gap; [exact Hnew|].
  intros z Hz. unfold Spectrogram_append_raise, Spectrogram_append_body.
  apply (spares_join_body b
           (append_fill_gap
              (fun _ _ =>
                 raise (RuntimeError "maximum recursion depth exceeded")))
           append_join new z "raise" true);
    [auto| |intros; now apply spares_append_join].
  intros new' Hnew'. apply spares_append_fill_gap; [exact Hnew'|].
  intros. apply spares_raise.
Qed.

Lemma spares_prepend b self other gap inplace :
  (inplace = true -> (b <= self)%nat) ->
  spares b (Spectrogram_prepend self other gap inplace) (fun _ => True).
Proof.
  intros Hself. unfold Spectrogram_prepend, Spectrogram_prepend_body.
  apply (spares_join_body b (prepend_fill_gap Spectrogram_prepend_raise)
           prepend_join);
    [exact Hself| |intros; now apply spares_prepend_join].
  intros new Hnew. apply spares_prepend_fill_gap; [exact Hnew|].
  intros z Hz. unfold Spectrogram_prepend_raise, Spectrogram_prepend_body.
  apply (spares_join_body b
           (prepend_fill_gap
              (fun _ _ =>
                 raise (RuntimeError "maximum recursion depth exceeded")))
           prepend_join new z "raise" true);
    [auto| |intros; now apply spares_prepend_join].
  intros new' Hnew'. apply spares_prepend_fill_gap; [exact Hnew'|].
  intros. apply spares_raise.
Qed.

(** What a successful [append] or [prepend] leaves, for either value of
    [inplace]: the store after the compatibility check, in which the
    object [base] (that is [self], or a new deep copy of it) has been
    replaced by itself with more rows.  [rows] and [data] say when and how
    the elements are known. *)
Lemma join_grows (fill : loc -> loc -> string -> M unit)
    (join : loc -> loc -> M loc) (rows : nat -> nat -> Prop)
    (data : npdtype -> list Q -> list Q -> list Q)
    (h : heap) (self other : loc) (gap : string) (inplace : bool)
    (h' : heap) (r : loc) (o : ndobj) :
  (forall new other gap h h' u,
     fill new other gap h = (h', Returns u) ->
     exists c, Spectrogram_is_contiguous new other h = (h', Returns c)) ->
  (forall h new other h' r,
     join new other h = (h', Returns r) ->
     r = new /\
     exists o1 o2 n k tl b,
       h !! new = Some o1 /\ h !! other = Some o2 /\
       shape o1 = n :: tl /\ shape o2 !! 0%nat = Some k /\
       h' = <[new := with_array o1 ((n + k)%nat :: tl) b]> h /\
       (owndata o1 = true \/
        shape_size ((n + k)%nat :: tl) = shape_size (n :: tl)) /\
       (new <> other -> length (buf o1) = (n * shape_size tl)%nat ->
        rows n k ->
        exists src,
          broadcast_to (shape o2) (buf o2) (k :: tl) = Some src /\
          b = data (dtype o1) (buf o1) src)) ->
  h !! self = Some o ->
  (Spectrogram_is_compatible self other ;;;
   new <- (if inplace then ret self else Array_copy self) ;;
   fill new other gap ;;;
   join new other) h = (h', Returns r) ->
  exists o2 n k tl b,
    let hc := checked self other h in
    let base := if inplace then init_unit o
                else copy_as (init_unit o) (fresh_id hc) in
    let o' := with_array base ((n + k)%nat :: tl) b in
    h !! other = Some o2 /\ compatible o o2 /\
    shape o = n :: tl /\ shape o2 !! 0%nat = Some k /\
    r = (if inplace then self else length h) /\
    h' = (if inplace then <[self := o']> hc else (hc ++ [o'])%list) /\
    (inplace = true ->
     owndata o = true \/
     shape_size ((n + k)%nat :: tl) = shape_size (n :: tl)) /\
    ((inplace = true -> self <> other) ->
     length (buf o) = (n * shape_size tl)%nat -> rows n k ->
     exists src,
       broadcast_to (shape o2) (buf o2) (k :: tl) = Some src /\
       b = data (dtype o) (buf o) src).
Proof.
  intros Hfill Hjoin Hself E.
  apply (join_body_inv _ _ _ _ _ _ _ _ _ _ Hfill Hself) in E
    as (o2 & H2 & Hc & E).
  pose proof (checked_lookup_self self other h o Hself) as H1c.
  pose proof (checked_lookup_other self other h o2 H2) as H2c.
  pose proof (lookup_lt_Some _ _ _ H2) as Hlt.
  apply Hjoin in E
    as (-> & o1 & o2' & n & k & tl & b & X1 & X2 & Hs & Hk & -> & Hown & Hd).
  exists o2, n, k, tl, b. cbv zeta.
  destruct inplace.
  - assert (o1 = init_unit o) by congruence.
    assert (o2' = init_unit o2) by congruence. subst o1 o2'.
    rewrite init_unit_shape in Hs, Hk. rewrite init_unit_owndata in Hown.
    rewrite init_unit_buf, init_unit_dtype, init_unit_shape in Hd.
    rewrite init_unit_buf in Hd.
    split; [exact H2|]. split; [exact Hc|]. split; [exact Hs|].
    split; [exact Hk|]. split; [reflexivity|]. split; [reflexivity|].
    split; [intros _; exact Hown|].
    intros Hne. apply Hd, Hne. reflexivity.
  - rewrite <- (checked_length self other h) in X1.
    rewrite lookup_alloc_new in X1. injection X1 as <-.
    rewrite (lookup_alloc_old _ _ _ _ H2c) in X2. injection X2 as <-.
    cbn [copy_as shape buf dtype] in Hs, Hd.
    rewrite init_unit_shape in Hs, Hk.
    rewrite init_unit_buf, init_unit_dtype, init_unit_shape in Hd.
    rewrite init_unit_buf in Hd.
    split; [exact H2|]. split; [exact Hc|]. split; [exact Hs|].
    split; [exact Hk|]. split; [reflexivity|].
    split.
    { rewrite <- (checked_length self other h).
      rewrite <- (Nat.add_0_r (length (checked self other h))) at 1.
      now rewrite insert_app_r. }
    split; [discriminate|].
    intros _. apply Hd. lia.
Qed.

(** C5 (amended).  A call of [append] or [prepend] with [inplace=False]
    never changes an object that was there before it, whatever its
    outcome, but for one thing: the compatibility check reads the units,
    and an unset unit is stored as the dimensionless unit; so [self] keeps
    its data, its shape and every metadata entry other than an unset
    ['unit'].  When the call returns, the result is a new object: it is
    what [Array.copy] builds from [self] after the check, a deep copy
    that owns its memory and shares no [Quantity] with any other object,
    in which only the shape and the elements were replaced; it has the
    rows of [self] and of [other].  A call with [inplace=True] that
    returns gives back [self], changed in the same way, and either [self]
    owns its data or no element was added.  In both cases, when [other]
    is another object than the one that grows, [self] is well formed and
    [other] has a row (for [prepend]: both have), the elements are those
    of [self] and the rows of [other], broadcast to the rows of [self]
    and converted to its element type: after those of [self] for
    [append], before them for [prepend]. *)
Theorem inplace_decides_which_object_grows (h : heap) (self other : loc)
    (gap : string) (o : ndobj) :
  h !! self = Some o ->
  let call (prepend inplace : bool) : M loc :=
    if prepend then Spectrogram_prepend self other gap inplace
    else Spectrogram_append self other gap inplace in
  (forall prepend h' out,
     call prepend false h = (h', out) ->
     (h' !! self = Some o \/ h' !! self = Some (init_unit o)) /\
     buf (init_unit o) = buf o /\ shape (init_unit o) = shape o /\
     (forall key, key <> "unit" ->
                  metadata (init_unit o) !! key = metadata o !! key) /\
     (length h <= length h')%nat /\
     (forall l ol, h !! l = Some ol ->
                   h' !! l = Some ol \/ h' !! l = Some (init_unit ol))) /\
  (forall prepend inplace h' r,
     call prepend inplace h = (h', Returns r) ->
     exists o2 n k tl b,
       let hc := checked self other h in
       let base := if inplace then init_unit o
                   else copy_as (init_unit o) (fresh_id hc) in
       let o' := with_array base ((n + k)%nat :: tl) b in
       h !! other = Some o2 /\ compatible o o2 /\
       shape o = n :: tl /\ shape o2 !! 0%nat = Some k /\
       r = (if inplace then self else length h) /\
       h' = (if inplace then <[self := o']> hc else (hc ++ [o'])%list) /\
       h' !! r = Some o' /\
       (inplace = false ->
        r <> self /\ h' !! self = Some (init_unit o) /\
        owndata o' = true /\
        forall l ol key key' i,
          l <> r -> h' !! l = Some ol -> quantity_id ol !! key = Some i ->
          quantity_id o' !! key' <> Some i) /\
       (inplace = true ->
        owndata o = true \/
        shape_size ((n + k)%nat :: tl) = shape_size (n :: tl)) /\
       ((inplace = true -> self <> other) ->
        length (buf o) = (n * shape_size tl)%nat ->
        (if prepend then (1 <= n)%nat /\ (1 <= k)%nat else (1 <= k)%nat) ->
        exists src,
          broadcast_to (shape o2) (buf o2) (k :: tl) = Some src /\
          b = if prepend
              then ((cast (dtype o) <$> src)
                    ++ (cast (dtype o) <$> buf o))%list
              else (buf o ++ (cast (dtype o) <$> src))%list)).
Proof.
  intros Hself call.
  pose proof (lookup_lt_Some _ _ _ Hself) as Hlt.
  split.
  - intros prepend h' out E.
    assert (S : stable (length h) h h').
    { destruct prepend.
      - eapply (spares_prepend (length h) self other gap false);
          [discriminate|reflexivity|exact E].
      - eapply (spares_append (length h) self other gap false);
          [discriminate|reflexivity|exact E]. }
    destruct S as [Hlen Hold].
    split; [now apply Hold|]. split; [apply init_unit_buf|].
    split; [apply init_unit_shape|]. split; [apply init_unit_lookup_ne|].
    split; [exact Hlen|]. intros l ol Hl.
    apply Hold; [|exact Hl]. now apply lookup_lt_Some in Hl.
  - intros prepend inplace h' r E.
    assert (G : exists o2 n k tl b,
      let hc := checked self other h in
      let base := if inplace then init_unit o
                  else copy_as (init_unit o) (fresh_id hc) in
      let o' := with_array base ((n + k)%nat :: tl) b in
      h !! other = Some o2 /\ compatible o o2 /\
      shape o = n :: tl /\ shape o2 !! 0%nat = Some k /\
      r = (if inplace then self else length h) /\
      h' = (if inplace then <[self := o']> hc else (hc ++ [o'])%list) /\
      (inplace = true ->
       owndata o = true \/
       shape_size ((n + k)%nat :: tl) = shape_size (n :: tl)) /\
      ((inplace = true -> self <> other) ->
       length (buf o) = (n * shape_size tl)%nat ->
       (if prepend then (1 <= n)%nat /\ (1 <= k)%nat else (1 <= k)%nat) ->
       exists src,
         broadcast_to (shape o2) (buf o2) (k :: tl) = Some src /\
         b = if prepend
             then ((cast (dtype o) <$> src)
                   ++ (cast (dtype o) <$> buf o))%list
             else (buf o ++ (cast (dtype o) <$> src))%list)).
    { destruct prepend.
      - apply (join_grows
                 (fun new other gap =>
                    prepend_fill_gap Spectrogram_prepend_raise new other gap)
                 prepend_join
                 (fun n k => (1 <= n)%nat /\ (1 <= k)%nat)
                 (fun d own src =>
                    ((cast d <$> src) ++ (cast d <$> own))%list)
                 h self other gap inplace h' r o
                 prepend_fill_gap_tests prepend_join_inv Hself E).
      - apply (join_grows
                 (fun new other gap =>
                    append_fill_gap Spectrogram_append_raise new other gap)
                 append_join
                 (fun n k => (1 <= k)%nat)
                 (fun d own src => (own ++ (cast d <$> src))%list)
                 h self other gap inplace h' r o
                 append_fill_gap_tests append_join_inv Hself E). }
    destruct G as (o2 & n & k & tl & b & G). cbv zeta in G.
    destruct G as (H2 & Hc & Hs & Hk & -> & -> & Hown & Hd).
    exists o2, n, k, tl, b. cbv zeta.
    pose proof (checked_lookup_self self other h o Hself) as H1c.
    split; [exact H2|]. split; [exact Hc|]. split; [exact Hs|].
    split; [exact Hk|]. split; [reflexivity|]. split; [reflexivity|].
    split.
    { destruct inplace.
      - eapply lookup_insert_heap, H1c.
      - rewrite <- (checked_length self other h). apply lookup_alloc_new. }
    split; [|split; [exact Hown|exact Hd]].
    intros ->. split; [lia|].
    split; [now apply lookup_alloc_old|]. split; [reflexivity|].
    intros l ol key key' i Hne Hl Hi Hi'.
    rewrite <- (checked_length self other h) in Hne.
    assert (Hl' : checked self other h !! l = Some ol).
    { pose proof (lookup_lt_Some _ _ _ Hl) as Hb.
      rewrite length_app in Hb. cbn [length] in Hb.
      rewrite lookup_app_l in Hl by lia. exact Hl. }
    pose proof (fresh_id_gt _ _ _ _ _ Hl' Hi) as Hfresh.
    cbn [with_array copy_as quantity_id] in Hi'.
    rewrite lookup_fmap in Hi'.
    destruct (quantity_id (init_unit o) !! key') as [j|];
      [|discriminate Hi'].
    injection Hi' as Hi'. unfold fresh_id in Hfresh. lia.
Qed.

End Copies.


(** ** Evaluation on concrete stores *)

Section Concrete.
#[local] Existing Instance sym_units.
#[local] Existing Instance int_powers.
#[local] Existing Instance decimal_floats.

(** C6. On the grid with origin [x0 = 1] and step [dx = 1], the slice
    [g[slice(1, None)]] returns a new grid whose origin reads [3], that
    is [x0 + (x0 + start * dx)], and not [x0 + start * dx = 2]; its step
    is unchanged.  The sum is taken in place on the quantity that the new
    grid shares with the sliced one, so the origin of the sliced grid
    reads [3] as well. *)
Theorem getitem_slice_adds_origin_twice :
  let item := {| slice_start := Some 1%Z; slice_stop := None;
                 slice_step := None |} in
  let r := Array2D_getitem_slice 0%nat item [grid] in
  snd r = Returns 1%nat /\
  snd (Array2D_x0 1%nat (fst r)) = Returns (VQuantity 3 dimensionless) /\
  snd (Array2D_dx 1%nat (fst r)) = Returns (VQuantity 1 dimensionless) /\
  snd (Array2D_x0 0%nat (fst r)) = Returns (VQuantity 3 dimensionless).
Proof. repeat split; vm_compute; reflexivity. Qed.

(** C1. The worked example of padding: [A] has five rows from GPS 0,
    [C] has two rows from GPS 7, time step 1.  [A.append(C, gap='pad')]
    builds the block of two zero rows and then raises [KeyError] in the
    compatibility check of the inner [append], because the block has no
    frequency step; nothing is joined.  [prepend] fails in the same way,
    and so do both with [inplace=False]. *)
Theorem append_pad_raises_on_zero_block :
  let h := [series_A; series_C] in
  snd (Spectrogram_is_contiguous 0%nat 1%nat h) = Returns 0%Z /\
  snd (Spectrogram_append 0%nat 1%nat "pad" true h) = Raises (KeyError "dy") /\
  snd (Spectrogram_append 0%nat 1%nat "pad" false h)
    = Raises (KeyError "dy") /\
  snd (Spectrogram_prepend 1%nat 0%nat "pad" true h)
    = Raises (KeyError "dy") /\
  (buf <$> fst (Spectrogram_append 0%nat 1%nat "pad" true h) !! 0%nat)
    = Some [1; 2; 3; 4; 5]%Q /\
  (buf <$> fst (Spectrogram_append 0%nat 1%nat "pad" true h) !! 2%nat)
    = Some [0; 0]%Q.
Proof. repeat split; vm_compute; reflexivity. Qed.

(** C2. The worked example of a contiguous join, on the objects that the
    constructor builds: [A] and [B] are compatible and [A] ends where [B]
    starts, yet [A.append(B)] raises, because [A] is a view and [resize]
    refuses to reallocate it; [A] keeps its five samples.  The copying
    call [A.append(B, inplace=False)] does join them: its result holds
    [1 .. 8] and spans [0, 8), and so does [A.copy()] after
    [A.copy().append(B)]. *)
Theorem append_example_raises_on_view :
  let h := [series_A; series_B] in
  let r := Spectrogram_append 0%nat 1%nat "raise" true h in
  let r' := Spectrogram_append 0%nat 1%nat "raise" false h in
  let r'' := (c <- Array_copy 0%nat ;;
              Spectrogram_append c 1%nat "raise" true) h in
  snd (Spectrogram_is_compatible 0%nat 1%nat h) = Returns true /\
  snd (Spectrogram_is_contiguous 0%nat 1%nat h) = Returns 1%Z /\
  snd r = Raises (ValueError
                    "cannot resize this array: it does not own its data") /\
  (buf <$> fst r !! 0%nat) = Some [1; 2; 3; 4; 5]%Q /\
  snd r' = Returns 2%nat /\
  (buf <$> fst r' !! 2%nat) = Some [1; 2; 3; 4; 5; 6; 7; 8]%Q /\
  snd (Spectrogram_span 2%nat (fst r')) = Returns (0, 8)%Q /\
  snd r'' = Returns 2%nat /\
  (buf <$> fst r'' !! 2%nat) = Some [1; 2; 3; 4; 5; 6; 7; 8]%Q /\
  snd (Spectrogram_span 2%nat (fst r'')) = Returns (0, 8)%Q.
Proof. repeat split; vm_compute; reflexivity. Qed.

(** The worked example of a gap: [A.append(C, gap='raise')] raises. *)
Lemma append_example_gap :
  snd (Spectrogram_append 0%nat 1%nat "raise" true [series_A; series_C])
  = Raises (ValueError "Cannot append discontiguous Spectrogram").
Proof. vm_compute; reflexivity. Qed.

(** Counterexample to C4 as stated: two compatible spectrograms without
    rows that start at the same time.  The end of each span equals the
    start of the other, and [is_contiguous] is [+1] in both directions,
    not [-1] in one of them. *)
Lemma is_contiguous_not_antisymmetric :
  let h := [empty_1; empty_2] in
  snd (Spectrogram_is_compatible 0%nat 1%nat h) = Returns true /\
  snd (Spectrogram_is_compatible 1%nat 0%nat h) = Returns true /\
  snd (Spectrogram_span 0%nat h) = Returns (0, 0)%Q /\
  snd (Spectrogram_span 1%nat h) = Returns (0, 0)%Q /\
  snd (Spectrogram_is_contiguous 0%nat 1%nat h) = Returns 1%Z /\
  snd (Spectrogram_is_contiguous 1%nat 0%nat h) = Returns 1%Z /\
  1%Z <> (- 1)%Z.
Proof. repeat split; try (vm_compute; reflexivity). discriminate. Qed.

(** Counterexample to C5 as stated: [A] has no unit set; after
    [A.append(B, inplace=False)] the metadata of [A] hold a unit. *)
Lemma append_copy_changes_metadata_of_self :
  let h := [series_A; series_B] in
  let r := Spectrogram_append 0%nat 1%nat "raise" false h in
  snd r = Returns 2%nat /\
  metadata series_A !! "unit" = None /\
  (fst r !! 0%nat) ≫= (fun o => metadata o !! "unit")
    = Some (VUnit dimensionless).
Proof. repeat split; vm_compute; reflexivity. Qed.


(** [float] reads the text ['12'], so the epoch setter stores [12.0]. *)
Lemma epoch_setter_reads_text :
  let a := array1d int64 [1; 2]%Q in
  let r := Array_epoch_set 0%nat (VStr "12") [a] in
  snd r = Returns tt /\
  (fst r !! 0%nat) ≫= (fun o => metadata o !! "epoch") = Some (VFloat 12).
Proof. repeat split; vm_compute; reflexivity. Qed.


(** Witness for C9: an array built from data alone. *)
Lemma unset_attributes_read_witness :
  let a := array1d int64 [1; 2]%Q in
  Array_name 0%nat [a] = ([a], Returns VNone) /\
  Array_epoch 0%nat [a] = ([a], Returns VNone) /\
  Array_channel 0%nat [a] = ([a], Returns VNone) /\
  exists h' o',
    Array_unit 0%nat [a] = (h', Returns (VUnit dimensionless)) /\
    h' = <[0%nat := o']> [a] /\
    h' !! 0%nat = Some o' /\
    metadata o' = <["unit" := VUnit dimensionless]> (metadata a) /\
    cls o' = cls a /\ shape o' = shape a /\ buf o' = buf a /\
    Array_unit 0%nat h' = (h', Returns (VUnit dimensionless)).
Proof.
  intros a.
  destruct (unset_attributes_read [a] 0%nat a eq_refl) as (Hn & He & Hc & Hu).
  split; [exact (Hn eq_refl)|]. split; [exact (He eq_refl)|].
  split; [exact (Hc eq_refl)|]. exact (Hu eq_refl).
Defined.

(** Witness for C8: the x-axis of [grid], the y-axis of [series_A]. *)
Lemma span_is_origin_plus_count_times_step_witness :
  Array2D_span_x 0%nat [grid]
    = ([grid], Returns (VQuantity 1 dimensionless,
                        VQuantity (1 + inject_Z (Z.of_nat 3) * 1)
                                  dimensionless)) /\
  Array2D_span_y 0%nat [series_A]
    = ([series_A], Returns (VQuantity 0 hertz,
                            VQuantity (0 + inject_Z (Z.of_nat 1) * 1)
                                      hertz)).
Proof.
  split.
  - exact (proj1 (span_is_origin_plus_count_times_step
                    [grid] 0%nat grid eq_refl)
                 1%Q 1%Q dimensionless 3%nat eq_refl eq_refl eq_refl).
  - exact (proj2 (span_is_origin_plus_count_times_step
                    [series_A] 0%nat series_A eq_refl)
                 0%Q 1%Q hertz 1%nat eq_refl eq_refl eq_refl).
Defined.


(** Witness for C3: [A] and [B] agree on the four fields. *)
Lemma is_compatible_compares_four_fields_witness :
  let h := [series_A; series_B] in
  Spectrogram_is_compatible 0%nat 1%nat h
    = (checked 0%nat 1%nat h, Returns true).
Proof.
  intros h.
  destruct (is_compatible_compares_four_fields h 0%nat 1%nat
              series_A series_B
              (VQuantity 1 second) (VQuantity 1 second)
              (VQuantity 1 hertz) (VQuantity 1 hertz)
              (VQuantity 0 hertz) (VQuantity 0 hertz)
              eq_refl eq_refl eq_refl eq_refl eq_refl eq_refl
              eq_refl eq_refl) as (_ & Hok & _).
  exact (Hok eq_refl eq_refl eq_refl eq_refl).
Defined.

Lemma series_compatible (i j n m k : nat) (d1 d2 : list Q) (e1 e2 : Q) :
  compatible (spectrogram i n m d1 e1 1 0 1) (spectrogram j k m d2 e2 1 0 1).
Proof.
  repeat split;
    try (eexists _, _; split; [reflexivity|split; reflexivity]).
Defined.

(** The same for a copy of the first. *)
Lemma copied_compatible (i j c n m k : nat) (d1 d2 : list Q) (e1 e2 : Q) :
  compatible (copied (spectrogram i n m d1 e1 1 0 1) c)
             (spectrogram j k m d2 e2 1 0 1).
Proof. exact (series_compatible i j n m k d1 d2 e1 e2). Defined.

(** Witness for C4: [A] immediately precedes [B]. *)
Lemma is_contiguous_antisymmetric_witness :
  let h := [series_A; series_B] in
  Spectrogram_is_contiguous 0%nat 1%nat h
    = (checked 0%nat 1%nat h, Returns 1%Z) /\
  (r1 <- Spectrogram_is_contiguous 0%nat 1%nat ;;
   r2 <- Spectrogram_is_contiguous 1%nat 0%nat ;;
   ret (bool_decide (r1 = (- r2)%Z))) h
  = (checked 0%nat 1%nat h, Returns true).
Proof.
  intros h.
  destruct (is_contiguous_antisymmetric_unless_both_touch h 0%nat 1%nat
              series_A series_B
              (0, 0 + inject_Z (Z.of_nat 5) * 1)%Q
              (5, 5 + inject_Z (Z.of_nat 3) * 1)%Q
              eq_refl eq_refl
              (series_compatible _ _ _ _ _ _ _ _ _)
              (series_compatible _ _ _ _ _ _ _ _ _)
              eq_refl eq_refl) as (E1 & E2 & E3).
  split; [exact E1|]. apply E2, E3; cbn [fst snd].
  - discriminate.
  - discriminate.
  - left. reflexivity.
Defined.

Lemma series_is_spectrogram (i n : nat) (d : list Q) (e : Q) :
  length d = n ->
  is_spectrogram (spectrogram i n 1 d e 1 0 1) n [1%nat] e 1 0 1.
Proof.
  intros Hd. repeat split. cbn [buf spectrogram shape_size foldr]. lia.
Defined.

Lemma copied_is_spectrogram (i c n : nat) (d : list Q) (e : Q) :
  length d = n ->
  is_spectrogram (copied (spectrogram i n 1 d e 1 0 1) c) n [1%nat] e 1 0 1.
Proof. exact (series_is_spectrogram i n d e). Defined.

(** Witness: [A.copy().append(B)]. *)
Lemma append_raise_joins_contiguous_witness :
  let a := copied series_A 30 in
  let h := [a; series_B] in
  let joined :=
    with_array (init_unit a) [8%nat; 1%nat]
               ([1; 2; 3; 4; 5]%Q ++ (cast int64 <$> [6; 7; 8]%Q))%list in
  let h' := <[0%nat := joined]> (checked 0%nat 1%nat h) in
  Spectrogram_append 0%nat 1%nat "raise" true h = (h', Returns 0%nat) /\
  Spectrogram_span 0%nat h'
    = (h', Returns (0, 0 + inject_Z (Z.of_nat (5 + 3)) * 1)%Q).
Proof.
  intros a h.
  destruct (append_raise_joins_contiguous h 0%nat 1%nat a series_B
              5 3 [1%nat] 0 5 1 1 0 0 1 1 eq_refl eq_refl
              (fun E : 0%nat = 1%nat => O_S 0 E) eq_refl
              (copied_is_spectrogram 1 30 5 [1; 2; 3; 4; 5]%Q 0 eq_refl)
              (series_is_spectrogram 4 3 [6; 7; 8]%Q 5 eq_refl)
              (le_n_S 0 2 (Nat.le_0_l 2))) as (Hok & _).
  apply Hok.
  - apply copied_compatible.
  - reflexivity.
Defined.

(** Witness for C5: [A] in a store with [B]. *)
Lemma inplace_decides_which_object_grows_witness :
  let h := [series_A; series_B] in
  (forall h' out,
     Spectrogram_append 0%nat 1%nat "raise" false h = (h', out) ->
     h' !! 0%nat = Some series_A \/ h' !! 0%nat = Some (init_unit series_A)) /\
  (forall h' r,
     Spectrogram_prepend 0%nat 1%nat "ignore" false h = (h', Returns r) ->
     r = 2%nat /\ h' !! 0%nat = Some (init_unit series_A) /\
     exists o', h' !! 2%nat = Some o' /\ owndata o' = true) /\
  (forall h' r,
     Spectrogram_append 0%nat 1%nat "raise" true h = (h', Returns r) ->
     r = 0%nat).
Proof.
  intros h.
  destruct (inplace_decides_which_object_grows h 0%nat 1%nat "raise"
              series_A eq_refl) as (Hframe & Hret).
  destruct (inplace_decides_which_object_grows h 0%nat 1%nat "ignore"
              series_A eq_refl) as (_ & Hret').
  split; [|split].
  - intros h' out E. exact (proj1 (Hframe false h' out E)).
  - intros h' r E.
    destruct (Hret' true false h' r E)
      as (o2 & n & k & tl & b & _ & _ & _ & _ & Hr & _ & Hnew & Hcopy & _).
    destruct (Hcopy eq_refl) as (_ & Hself & Hown & _).
    split; [exact Hr|]. split; [exact Hself|].
    rewrite Hr in Hnew. eexists. split; [exact Hnew|exact Hown].
  - intros h' r E.
    destruct (Hret false true h' r E)
      as (o2 & n & k & tl & b & _ & _ & _ & _ & Hr & _).
    exact Hr.
Defined.


(** Witness: [grid] has no ['logx'] entry. *)
Lemma logx_cannot_be_set_once_present_witness :
  let h' := <[0%nat := with_metadata grid "logx" (VBool false)]> [grid] in
  Array2D_logx 0%nat [grid] = (h', Returns (VBool false)) /\
  Array2D_logx_set 0%nat (VBool true) h'
    = (h', Raises (AttributeError
                     "'Array2D' object has no attribute 'metdata'")) /\
  Array2D_logx_set 0%nat (VBool true) [grid]
    = (<[0%nat := with_metadata grid "logx" (VBool true)]> [grid],
       Returns tt).
Proof.
  destruct (logx_cannot_be_set_once_present [grid] 0%nat grid eq_refl)
    as (_ & H).
  destruct (H eq_refl) as (H1 & H2 & H3).
  split; [exact H1|]. split; [exact (H2 (VBool true) eq_refl)|].
  exact (H3 (VBool true) eq_refl).
Defined.

(** Witness: the square of an array of integers in metres, in place and
    as a new array. *)
Lemma ipow_and_pow_agree_witness :
  let a := array1d_unit int64 [1; 2; 3]%Q "m" in
  exists h1 h2 o1 o2,
    Array_ipow 0%nat (PInt 2) [a] = (h1, Returns 0%nat) /\
    h1 !! 0%nat = Some o1 /\
    Array_pow 0%nat (PInt 2) None [a] = (h2, Returns 1%nat) /\
    h2 !! 1%nat = Some o2 /\
    buf o1 = (fun x => inject_Z (wrap64 (py_int x ^ 2))) <$> buf a /\
    buf o2 = (fun x => inject_Z (wrap64 (py_int x ^ 2))) <$> buf a /\
    metadata o2 = metadata o1.
Proof.
  intros a.
  destruct (ipow_and_pow_agree [a] 0%nat a [("m", 1%Z)] (PInt 2)
              eq_refl eq_refl) as (_ & Hint & _).
  assert (Hmax : (0 <= 2 <= int64_max)%Z) by (unfold int64_max; lia).
  destruct (Hint 2%Z eq_refl eq_refl Hmax)
    as (h1 & h2 & o1 & o2 & E1 & L1 & E2 & L2 & _ & B1 & B2 & _ & _ & _ & _
        & _ & _ & _ & M).
  exists h1, h2, o1, o2. auto 10.
Defined.

(** Witness: every second row of [grid]; the step of [grid] itself
    becomes 2. *)
Lemma getitem_slice_without_start_witness :
  let item := {| slice_start := None; slice_stop := None;
                 slice_step := Some 2%Z |} in
  let v := VQuantity (inject_Z 2 * 1) dimensionless in
  exists h' o',
    Array2D_getitem_slice 0%nat item [grid] = (h', Returns 1%nat) /\
    h' !! 1%nat = Some o' /\
    metadata o' !! "dx" = Some v /\
    h' !! 0%nat = Some (assign_quantity 26 v grid) /\
    metadata (assign_quantity 26 v grid) !! "dx" = Some v.
Proof.
  intros item v.
  destruct (getitem_slice_without_start [grid] 0%nat grid item 3 [1%nat]
              0 3 2 eq_refl eq_refl eq_refl eq_refl) as (_ & H).
  destruct (H 2%Z 1%Q 26%nat eq_refl eq_refl eq_refl)
    as (h' & o' & E & _ & L & _ & _ & D & _ & F & G).
  exists h', o'. split; [exact E|]. split; [exact L|]. split; [exact D|].
  split; [exact (F 0%nat grid eq_refl)|exact G].
Defined.

(** Witness: [g[slice(1, None)]] on [grid]; both origins become 3. *)
Lemma getitem_slice_with_start_witness :
  let item := {| slice_start := Some 1%Z; slice_stop := None;
                 slice_step := None |} in
  let v := VQuantity (1 + (1 + inject_Z 1 * 1)) dimensionless in
  exists h' o',
    Array2D_getitem_slice 0%nat item [grid] = (h', Returns 1%nat) /\
    h' !! 1%nat = Some o' /\
    metadata o' !! "x0" = Some v /\
    h' !! 0%nat = Some (assign_quantity 25 v grid) /\
    metadata (assign_quantity 25 v grid) !! "x0" = Some v.
Proof.
  intros item v.
  destruct (getitem_slice_with_start [grid] 0%nat grid item 3 [1%nat]
              1 3 1 1 1 1 25 eq_refl eq_refl eq_refl eq_refl eq_refl
              eq_refl eq_refl eq_refl)
    as (h' & o' & E & _ & L & _ & _ & D & _ & F & G).
  exists h', o'. split; [exact E|]. split; [exact L|]. split; [exact D|].
  split; [exact (F 0%nat grid eq_refl)|exact G].
Defined.

(** Witness: [g[slice(1, None)]] on a grid built from data alone. *)
Lemma getitem_slice_needs_origin_witness :
  snd (Array2D_getitem_slice 0%nat
         {| slice_start := Some 1%Z; slice_stop := None;
            slice_step := None |} [bare_grid])
  = Raises (KeyError "x0").
Proof.
  rewrite (getitem_slice_needs_origin [bare_grid] 0%nat bare_grid
             {| slice_start := Some 1%Z; slice_stop := None;
                slice_step := None |} 3 [1%nat] 1 3 1 1
             eq_refl eq_refl eq_refl eq_refl eq_refl).
  reflexivity.
Defined.

(** Witness: [A.copy().append(C, gap='ignore')] over the gap from 5
    to 7. *)
Lemma append_ignore_concatenates_witness :
  let a := copied series_A 30 in
  let h := [a; series_C] in
  let h' := <[0%nat := with_array (init_unit a) [7%nat; 1%nat]
                         ([1; 2; 3; 4; 5]%Q
                          ++ (cast int64 <$> [9; 10]%Q))%list]>
              (checked 0%nat 1%nat h) in
  Spectrogram_append 0%nat 1%nat "ignore" true h = (h', Returns 0%nat) /\
  Spectrogram_span 0%nat h'
    = (h', Returns (0, 0 + inject_Z (Z.of_nat (5 + 2)) * 1)%Q).
Proof.
  intros a h.
  exact (append_ignore_concatenates h 0%nat 1%nat a series_C
           5 2 [1%nat] 0 7 1 1 0 0 1 1 eq_refl eq_refl
           (fun E : 0%nat = 1%nat => O_S 0 E) eq_refl
           (copied_is_spectrogram 1 30 5 [1; 2; 3; 4; 5]%Q 0 eq_refl)
           (series_is_spectrogram 7 2 [9; 10]%Q 7 eq_refl)
           (le_n_S 0 1 (Nat.le_0_l 1))
           (copied_compatible _ _ _ _ _ _ _ _ _ _)).
Defined.

(** Witness: [a = A.copy(); a.append(B); a.append(D)]. *)
Lemma append_twice_chains_witness :
  let a := copied series_A 30 in
  let h := [a; series_B; series_D] in
  exists h' o',
    (Spectrogram_append 0%nat 1%nat "raise" true ;;;
     Spectrogram_append 0%nat 2%nat "raise" true) h = (h', Returns 0%nat) /\
    h' !! 0%nat = Some o' /\
    shape o' = [10%nat; 1%nat] /\
    buf o' = ([1; 2; 3; 4; 5]%Q ++ (cast int64 <$> [6; 7; 8]%Q)
                                ++ (cast int64 <$> [9; 10]%Q))%list /\
    Spectrogram_span 0%nat h'
      = (h', Returns (0, 0 + inject_Z (Z.of_nat (5 + 3 + 2)) * 1)%Q).
Proof.
  intros a h.
  exact (append_twice_chains h 0%nat 1%nat 2%nat a series_B series_D
           5 3 2 [1%nat] 0 5 8 1 1 1 0 0 0 1 1 1
           eq_refl eq_refl eq_refl
           (fun E : 0%nat = 1%nat => O_S 0 E)
           (fun E : 0%nat = 2%nat => O_S 1 E)
           (fun E : 1%nat = 2%nat => O_S 0 (eq_add_S 0 1 E))
           eq_refl
           (copied_is_spectrogram 1 30 5 [1; 2; 3; 4; 5]%Q 0 eq_refl)
           (series_is_spectrogram 4 3 [6; 7; 8]%Q 5 eq_refl)
           (series_is_spectrogram 10 2 [9; 10]%Q 8 eq_refl)
           (le_n_S 0 2 (Nat.le_0_l 2)) (le_n_S 0 1 (Nat.le_0_l 1))
           (copied_compatible _ _ _ _ _ _ _ _ _ _)
           (copied_compatible _ _ _ _ _ _ _ _ _ _)
           eq_refl eq_refl).
Defined.

(** Witness: [b = B.copy(); b.prepend(A)]; the span of the result starts
    at 5. *)
Lemma prepend_raise_keeps_epoch_witness :
  let b := copied series_B 30 in
  let h := [series_A; b] in
  let h' := <[1%nat := with_array (init_unit b) [8%nat; 1%nat]
                         ((cast int64 <$> [1; 2; 3; 4; 5]%Q)
                          ++ (cast int64 <$> [6; 7; 8]%Q))%list]>
              (checked 1%nat 0%nat h) in
  Spectrogram_prepend 1%nat 0%nat "raise" true h = (h', Returns 1%nat) /\
  Spectrogram_span 1%nat h'
    = (h', Returns (5, 5 + inject_Z (Z.of_nat (3 + 5)) * 1)%Q).
Proof.
  intros b h.
  refine (prepend_raise_keeps_epoch h 1%nat 0%nat b series_A
            3 5 [1%nat] 5 0 1 1 0 0 1 1 eq_refl eq_refl
            (fun E : 1%nat = 0%nat => O_S 0 (eq_sym E)) eq_refl
            (copied_is_spectrogram 4 30 3 [6; 7; 8]%Q 5 eq_refl)
            (series_is_spectrogram 1 5 [1; 2; 3; 4; 5]%Q 0 eq_refl)
            (le_n_S 0 2 (Nat.le_0_l 2)) (le_n_S 0 4 (Nat.le_0_l 4))
            (copied_compatible _ _ _ _ _ _ _ _ _ _)
            eq_refl _).
  discriminate.
Defined.



(** Witness: [A.append(B)] and [B.prepend(A)] on the objects that the
    constructor builds. *)
Lemma inplace_join_refused_on_view_witness :
  let h := [series_A; series_B] in
  Spectrogram_append 0%nat 1%nat "raise" true h
  = (checked 0%nat 1%nat h,
     Raises (ValueError
               "cannot resize this array: it does not own its data")) /\
  Spectrogram_prepend 1%nat 0%nat "raise" true h
  = (checked 1%nat 0%nat h,
     Raises (ValueError
               "cannot resize this array: it does not own its data")).
Proof.
  intros h. split.
  - refine (proj1 (inplace_join_refused_on_view h 0%nat 1%nat
                     series_A series_B 5 3 [1%nat] 0 5 1 1 0 0 1 1 "raise"
                     eq_refl eq_refl eq_refl
                     (series_is_spectrogram 1 5 [1; 2; 3; 4; 5]%Q 0 eq_refl)
                     (series_is_spectrogram 4 3 [6; 7; 8]%Q 5 eq_refl)
                     (le_n_S 0 2 (Nat.le_0_l 2)) (le_n 1)
                     (series_compatible _ _ _ _ _ _ _ _ _)) _).
    left. reflexivity.
  - refine (proj2 (inplace_join_refused_on_view h 1%nat 0%nat
                     series_B series_A 3 5 [1%nat] 5 0 1 1 0 0 1 1 "raise"
                     eq_refl eq_refl eq_refl
                     (series_is_spectrogram 4 3 [6; 7; 8]%Q 5 eq_refl)
                     (series_is_spectrogram 1 5 [1; 2; 3; 4; 5]%Q 0 eq_refl)
                     (le_n_S 0 4 (Nat.le_0_l 4)) (le_n 1)
                     (series_compatible _ _ _ _ _ _ _ _ _)) _).
    left. split; [discriminate|reflexivity].
Defined.

(** Witness: for [A] and [C], which leave a gap, neither call returns
    with [gap='pad']; for the contiguous [A] and [B], the copying
    [append] does. *)
Lemma pad_joins_only_contiguous_witness :
  (forall inplace h' r,
     Spectrogram_append 0%nat 1%nat "pad" inplace [series_A; series_C]
       = (h', Returns r) -> False) /\
  snd (Spectrogram_append 0%nat 1%nat "pad" false [series_A; series_B])
    = Returns 2%nat.
Proof.
  split; [|vm_compute; reflexivity].
  intros inplace h' r E.
  destruct (pad_joins_only_contiguous [series_A; series_C] 0%nat 1%nat
              series_A series_C
              (0, 0 + inject_Z (Z.of_nat 5) * 1)%Q
              (7, 7 + inject_Z (Z.of_nat 2) * 1)%Q
              eq_refl eq_refl eq_refl eq_refl) as (Ha & _).
  specialize (Ha inplace h' r E). discriminate Ha.
Defined.

(** Witness: [a = A.copy(); a.append(B); a[slice(None, 5)]]. *)
Lemma append_then_slice_recovers_data_witness :
  let a := copied series_A 30 in
  let h := [a; series_B] in
  exists h' view,
    (Spectrogram_append 0%nat 1%nat "raise" true ;;;
     Array2D_getitem_slice 0%nat
       {| slice_start := None; slice_stop := Some (Z.of_nat 5);
          slice_step := None |}) h = (h', Returns (length h)) /\
    h' !! length h = Some view /\
    shape view = [5%nat; 1%nat] /\ buf view = [1; 2; 3; 4; 5]%Q /\
    owndata view = false /\
    metadata view = metadata (init_unit a).
Proof.
  intros a h.
  exact (append_then_slice_recovers_data h 0%nat 1%nat a series_B
           5 3 [1%nat] 0 5 1 1 0 0 1 1 "raise" eq_refl eq_refl
           (fun E : 0%nat = 1%nat => O_S 0 E) eq_refl
           (copied_is_spectrogram 1 30 5 [1; 2; 3; 4; 5]%Q 0 eq_refl)
           (series_is_spectrogram 4 3 [6; 7; 8]%Q 5 eq_refl)
           (le_n_S 0 2 (Nat.le_0_l 2))
           (copied_compatible _ _ _ _ _ _ _ _ _ _)
           (or_introl eq_refl)).
Defined.


(** Witness: a module with all estimators and one that raises for every
    method but ['medianmean']. *)
Lemma median_never_uses_median_estimator_witness :
  median (Some toy_lal) 0%nat (VFloat 4) (VFloat 2) None [series_A]
  = median (Some medianmean_only_lal) 0%nat (VFloat 4) (VFloat 2) None
           [series_A].
Proof.
  exact (median_never_uses_median_estimator toy_lal medianmean_only_lal
           0%nat (VFloat 4) (VFloat 2) None [series_A]
           eq_refl eq_refl eq_refl).
Defined.


End Concrete.

